(** * pyaugmecon: the augmented epsilon-constraint explorer (class [MOOP])

    A shallow embedding of [src/pyaugmecon.py]: the payoff table, the ranges
    and the grid, the augmented problem, the grid loop with its two pruning
    flags, and the deduplication of the recorded solutions.

    The numerical solver and the Pyomo model are external collaborators.
    The solver is a function from the model it is handed to either an
    exception or a termination condition and the values the model holds
    afterwards; nothing else is assumed of it unless a statement says so.
    A variable may hold no value: the slack variables have none when they
    are created, and a solve that loads nothing leaves the values as they
    were.  Of the model, the state that the class reads and writes is kept
    in a record.  The log file is the list of its lines; the export to a
    workbook is not modelled.

    Numbers.  The value of an expression is a rational ([Q]); sums,
    products and differences of values are taken exactly, which leaves out
    the rounding error of the last binary digit, and a float that is not a
    finite number (numpy's [inf] and [nan]) is [None] of [option Q].  Two
    results are cut to integers.  The difference [max - min] stored in
    [obj_range] is taken exactly and has to fit the 64 bits of the array.
    The quotient [int(slack / step)] of the bypass, where the last binary
    digit decides the integer, is computed in binary64 with the operations
    of [SpecFloat].  Integers (grid indices, skip counts, the entries of
    [obj_range]) are [Z].  The whole numbers that the bypass stores in a
    float array are kept as integers, which is exact below [2^53].  A value
    rounded to two decimals is kept as its integer number of hundredths, so
    that rounded tuples are compared with Leibniz equality, as Python
    compares them in a [set]. *)

From Stdlib Require Import ZArith QArith Qround Lia Lqa List Bool SpecFloat.
From stdpp Require Import base option list gmap.
Import ListNotations.

Local Open Scope Z_scope.

(** ** Python outcomes *)

Inductive PyError : Type :=
| IndexError      (* tuple or array index out of range *)
| OverflowError   (* int() of an infinite float, a float too large for int64 *)
| ValueError      (* int() of nan, negative array dimension, a variable without a value *)
| TypeError       (* arithmetic on None *)
| NadirException  (* raise Exception('Too many or too few nadir points provided') *)
| SolverError.    (* an exception raised inside opt.solve *)

Inductive Result (A : Type) : Type :=
| Ok (a : A)
| Raise (err : PyError).
Arguments Ok {A} a.
Arguments Raise {A} err.

Definition rbind {A B} (r : Result A) (k : A -> Result B) : Result B :=
  match r with
  | Ok a => k a
  | Raise err => Raise err
  end.

Notation "'let*' x ':=' r 'in' k" := (rbind r (fun x => k))
  (at level 10, x pattern, r at level 100, k at level 200).

(** A [for] loop whose body may raise: the first exception ends the loop. *)
Fixpoint for_each {A S} (body : S -> A -> Result S) (s : S) (xs : list A) : Result S :=
  match xs with
  | [] => Ok s
  | x :: rest => let* s' := body s x in for_each body s' rest
  end.

(** [t[i]] on a tuple or a one-dimensional array, for [i >= 0]. *)
Definition index {A} (t : list A) (i : nat) : Result A :=
  match nth_error t i with
  | Some x => Ok x
  | None => Raise IndexError
  end.

(** [range(a, b)] over the integers. *)
Definition py_range (a b : Z) : list Z :=
  map (fun k => a + Z.of_nat k) (seq 0 (Z.to_nat (b - a))).

(** ** Rounding *)

(** Round to the nearest integer, ties to the even one (Python's and numpy's
    rule). *)
Definition round_half_even (x : Q) : Z :=
  let f := Qfloor x in
  let r := (x - inject_Z f)%Q in
  match (r ?= 1 # 2)%Q with
  | Lt => f
  | Gt => f + 1
  | Eq => if Z.even f then f else f + 1
  end.

(** [round(x, n)] as a number of units of [10^-n]. *)
Definition round_units (x : Q) (n : nat) : Z :=
  round_half_even (x * inject_Z (10 ^ Z.of_nat n))%Q.

(** [round(x, n)] as a rational. *)
Definition py_round (x : Q) (n : nat) : Q :=
  (inject_Z (round_units x n) / inject_Z (10 ^ Z.of_nat n))%Q.

(** [int(x)]: truncation towards zero. *)
Definition py_int (x : Q) : Z := Z.quot (Qnum x) (Zpos (Qden x)).

(** ** Binary64

    The floats of the one computation whose result is cut to an integer.
    [float_of_Q] is the float nearest to a rational, ties to even (the
    correctly rounded quotient of numerator and denominator); [float_div]
    is the division of IEEE 754 with its infinities and [nan]. *)

Definition float_div (x y : spec_float) : spec_float := SFdiv 53 1024 x y.

Definition float_of_Q (x : Q) : spec_float :=
  match Qnum x with
  | Z0 => S754_zero false
  | Zpos n => float_div (S754_finite false n 0) (S754_finite false (Qden x) 0)
  | Zneg n => float_div (S754_finite true n 0) (S754_finite false (Qden x) 0)
  end.

Definition float_of_Z (z : Z) : spec_float := float_of_Q (inject_Z z).

(** [int(x)] of a float: truncation towards zero; [int] raises on an
    infinity and on [nan]. *)
Definition int_of_float (x : spec_float) : Result Z :=
  match x with
  | S754_zero _ => Ok 0
  | S754_finite s m e =>
      let a := if 0 <=? e then Zpos m * 2 ^ e else Zpos m / 2 ^ (- e) in
      Ok (if s then - a else a)
  | S754_infinity _ => Raise OverflowError
  | S754_nan => Raise ValueError
  end.

(** ** The enumeration order of the grid indices

    [indices = [tuple(range(g)) for o in objfun_iter2]],
    [cp] is the [itertools.product] of these tuples, then every tuple is
    reversed ([i[::-1]]). *)

Fixpoint product {A} (ls : list (list A)) : list (list A) :=
  match ls with
  | [] => [[]]
  | l :: rest => flat_map (fun x => map (cons x) (product rest)) l
  end.

Definition objfun_iter (num_objfun : nat) : list nat := seq 0 num_objfun.
Definition objfun_iter2 (num_objfun : nat) : list nat := seq 1 (num_objfun - 1).

Definition grid_indices (num_objfun : nat) (g_points : Z) : list (list Z) :=
  let indices := map (fun _ => py_range 0 g_points) (objfun_iter2 num_objfun) in
  map (@rev Z) (product indices).

(** ** Floats that need not be finite *)

(** [None] is a float that is no finite number ([inf] or [nan]). *)
Abbreviation float := (option Q).

Definition fadd (x y : float) : float :=
  match x, y with Some a, Some b => Some (a + b)%Q | _, _ => None end.

Definition fsub (x y : float) : float :=
  match x, y with Some a, Some b => Some (a - b)%Q | _, _ => None end.

(** [x / d] for a finite float [x] and an integer [d] of a numpy array:
    numpy does not raise on a zero divisor, the quotient is [inf] or [nan]. *)
Definition np_div (x : Q) (d : Z) : float :=
  if d =? 0 then None else Some (x / inject_Z d)%Q.

(** [c * x] for a finite, non-zero constant [c]. *)
Definition fscale (c : Q) (x : float) : float :=
  match x with Some a => Some (c * a)%Q | None => None end.

(** [sum(...)] of a generator of floats. *)
Definition fsum (xs : list float) : float := fold_left fadd xs (Some 0%Q).

(** ** The model adapter

    What the explorer reads and writes of the Pyomo model: which objectives
    are active, the auxiliary constraint, the index set [Os], the mutable
    parameter [e], the terms added to the expression of objective 1, the
    constraint list, and the values the variables hold.  The variables of
    the base model are seen through the values of the original objective
    expressions. *)

Inductive TerminationCondition : Type :=
| optimal | infeasible | unbounded | maxTimeLimit | other_condition.

Definition is_optimal (tc : TerminationCondition) : bool :=
  match tc with optimal => true | _ => false end.

(** The values the variables hold: [obj_val k] is the value of the original
    expression of objective [k] (1-based), [slack_val o] is [Slack[o].value].
    [None] is a variable without a value: [obj_val k] is [None] while a
    variable of objective [k] has none. *)
Record VarValues : Type := mkVarValues {
  obj_val : nat -> option Q;
  slack_val : nat -> option Q
}.

(** One term [eps * (weight * Slack[slack] / divisor)] added to
    [obj_list[1].expr]. *)
Record PenaltyTerm : Type := mkPenaltyTerm {
  pen_weight : Q;
  pen_slack : nat;
  pen_divisor : Z
}.

Record Model : Type := mkModel {
  num_obj : nat;                 (* len(model.obj_list) *)
  active : gset nat;             (* the activated objectives *)
  aux_con : option (nat * float);(* obj_list[i].expr == value *)
  Os : list nat;                 (* model.Os *)
  e_param : nat -> float;        (* model.e, nan until it is set *)
  penalty : list PenaltyTerm;    (* added to obj_list[1].expr *)
  con_list : list nat;           (* obj_list[o].expr - Slack[o] == e[o] *)
  values : VarValues
}.

Definition set_active (m : Model) (a : gset nat) : Model :=
  mkModel (num_obj m) a (aux_con m) (Os m) (e_param m) (penalty m) (con_list m) (values m).
Definition set_aux_con (m : Model) (c : option (nat * float)) : Model :=
  mkModel (num_obj m) (active m) c (Os m) (e_param m) (penalty m) (con_list m) (values m).
Definition set_Os (m : Model) (os : list nat) : Model :=
  mkModel (num_obj m) (active m) (aux_con m) os (e_param m) (penalty m) (con_list m) (values m).
Definition set_e_param (m : Model) (e : nat -> float) : Model :=
  mkModel (num_obj m) (active m) (aux_con m) (Os m) e (penalty m) (con_list m) (values m).
Definition set_penalty (m : Model) (ps : list PenaltyTerm) : Model :=
  mkModel (num_obj m) (active m) (aux_con m) (Os m) (e_param m) ps (con_list m) (values m).
Definition set_con_list (m : Model) (cl : list nat) : Model :=
  mkModel (num_obj m) (active m) (aux_con m) (Os m) (e_param m) (penalty m) cl (values m).
Definition set_values (m : Model) (v : VarValues) : Model :=
  mkModel (num_obj m) (active m) (aux_con m) (Os m) (e_param m) (penalty m) (con_list m) v.

(** [model.e[o] = v] *)
Definition assign_e (m : Model) (o : nat) (v : float) : Model :=
  set_e_param m (fun k => if Nat.eqb k o then v else e_param m k).

Definition activate_objfun (m : Model) (objfun_index : nat) : Model :=
  set_active m ({[objfun_index]} ∪ active m).

Definition deactivate_objfun (m : Model) (objfun_index : nat) : Model :=
  set_active m (active m ∖ {[objfun_index]}).

(** [self.eps = 10e-3] *)
Definition eps : Q := 1 # 100.

(** The value of one added term at the current slack values; a slack
    without a value makes the evaluation raise.  With a zero divisor the
    term has no finite value; what Pyomo does when such a term is built or
    evaluated is not part of this model. *)
Definition penalty_term_value (v : VarValues) (t : PenaltyTerm) : Result float :=
  match slack_val v (pen_slack t) with
  | Some s => Ok (fscale eps (np_div (pen_weight t * s)%Q (pen_divisor t)))
  | None => Raise ValueError
  end.

(** [model.obj_list[k]()]: the value of the current expression of objective
    [k]; the expression of objective 1 carries the added terms.  Pyomo
    raises [ValueError] on a variable without a value. *)
Definition obj_list_value (m : Model) (k : nat) : Result float :=
  match obj_val (values m) k with
  | Some a =>
      if Nat.eqb k 1
      then for_each (fun acc t => let* x := penalty_term_value (values m) t in
                                  Ok (fadd acc x))
                    (Some a) (penalty m)
      else Ok (Some a)
  | None => Raise ValueError
  end.

Section Solver.

(** The solver: from the model it is given, an exception, or the
    termination condition and the values the model holds after the call. *)
Variable opt_solve : Model -> Result (TerminationCondition * VarValues).

(** [solve_model]: the result is stored in [self.result], the values in the
    model; the termination condition is not looked at here. *)
Definition solve_model (m : Model) : Result (TerminationCondition * Model) :=
  let* tc_v := opt_solve m in
  let '(tc, v) := tc_v in
  Ok (tc, set_values m v).

(** ** Payoff table

    [payoff_table] is a [p x p] array of floats that starts as [np.inf]
    everywhere ([None]); [ideal_point] is a [1 x p] array of zeros.  The
    loops write at indices below the arrays' own dimensions, where numpy's
    assignment and list insertion agree. *)

Record Payoff : Type := mkPayoff {
  pf_model : Model;
  payoff_table : list (list float);
  ideal_point : list float;
  pf_result : option TerminationCondition   (* self.result *)
}.

Definition mat_set (t : list (list float)) (i j : nat) (v : float) : list (list float) :=
  alter (fun row => <[j := v]> row) i t.

Definition mat_get (t : list (list float)) (i j : nat) : Result float :=
  let* row := index t i in index row j.

(** One pass of the first double loop: only [i == j] does anything. *)
Definition payoff_diag_step (s : Payoff) (ij : nat * nat) : Result Payoff :=
  let '(i, j) := ij in
  let jIn := S j in
  if Nat.eqb i j then
    let m1 := activate_objfun (pf_model s) jIn in
    let* tc_m2 := solve_model m1 in
    let '(tc, m2) := tc_m2 in
    let* v := obj_list_value m2 jIn in
    let t := mat_set (payoff_table s) i j v in
    let m3 := deactivate_objfun m2 jIn in
    let* v' := obj_list_value m3 jIn in
    Ok (mkPayoff m3 t (<[i := v']> (ideal_point s)) (Some tc))
  else Ok s.

(** One pass of the second double loop: only [i != j] does anything. *)
Definition payoff_offdiag_step (s : Payoff) (ij : nat * nat) : Result Payoff :=
  let '(i, j) := ij in
  let iIn := S i in
  let jIn := S j in
  if negb (Nat.eqb i j) then
    let m1 := activate_objfun (pf_model s) jIn in
    let* pii := mat_get (payoff_table s) i i in
    let m2 := set_aux_con m1 (Some (iIn, pii)) in
    let* tc_m3 := solve_model m2 in
    let '(tc, m3) := tc_m3 in
    let* temp_value := obj_list_value m3 jIn in
    let m4 := set_aux_con m3 None in
    let m5 := deactivate_objfun m4 jIn in
    Ok (mkPayoff m5
          (mat_set (payoff_table s) i j (option_map (fun x => py_round x 10) temp_value))
          (ideal_point s) (Some tc))
  else Ok s.

(** The pairs [(i, j)] of [for i in objfun_iter: for j in objfun_iter]. *)
Definition index_pairs (p : nat) : list (nat * nat) :=
  flat_map (fun i => map (fun j => (i, j)) (objfun_iter p)) (objfun_iter p).

Definition create_payoff_table (m : Model) : Result Payoff :=
  let p := num_obj m in
  let s0 := mkPayoff m (repeat (repeat None p) p) (repeat (Some 0%Q) p) None in
  let* s1 := for_each payoff_diag_step s0 (index_pairs p) in
  for_each payoff_offdiag_step s1 (index_pairs p).

End Solver.

(** ** Range and grid *)

(** [payoff_table[:, i]] *)
Definition column (t : list (list float)) (i : nat) : Result (list float) :=
  for_each (fun acc row => let* x := index row i in Ok (acc ++ [x])) [] t.

Definition Qmin (a b : Q) : Q := if Qle_bool a b then a else b.
Definition Qmax (a b : Q) : Q := if Qle_bool a b then b else a.

(** [np.min] and [np.max] of a column whose [None] entries are [np.inf]. *)
Definition np_min (col : list float) : float :=
  fold_left (fun acc x =>
               match acc, x with
               | Some a, Some b => Some (Qmin a b)
               | Some a, None => Some a
               | None, y => y
               end) col None.

Definition np_max (col : list float) : float :=
  match col with
  | [] => None
  | x :: rest =>
      fold_left (fun acc y =>
                   match acc, y with
                   | Some a, Some b => Some (Qmax a b)
                   | _, _ => None
                   end) rest x
  end.

(** The integers of a numpy [int64] array. *)
Definition int64_min : Z := - 2 ^ 63.
Definition int64_max : Z := 2 ^ 63 - 1.

(** [obj_range[k] = max - min]: [obj_range] is an array of 64-bit integers,
    the assignment converts the float to an integer by truncation, and
    raises on a float that is not finite ([inf - inf] is [nan]) or whose
    integer part does not fit. *)
Definition range_entry (mx mn : float) : Result Z :=
  match mx, mn with
  | Some a, Some b =>
      let r := py_int (a - b)%Q in
      if (int64_min <=? r) && (r <=? int64_max) then Ok r else Raise OverflowError
  | None, None => Raise ValueError
  | _, _ => Raise OverflowError
  end.

(** [min + j * (obj_range / (g_points - 1))] *)
Definition breakpoint (mn : float) (rng : Z) (g_points : Z) (j : Z) : float :=
  match mn with
  | Some a =>
      if g_points - 1 =? 0 then None
      else Some (a + inject_Z j * (inject_Z rng / inject_Z (g_points - 1)))%Q
  | None => None
  end.

Record RangeGrid : Type := mkRangeGrid {
  e_grid : list (list float);   (* self.e *)
  obj_range : list Z            (* self.obj_range *)
}.

(** The body of [for i in objfun_iter2] up to the two assignments: the range
    of objective [i + 1] and its row of breakpoints. *)
Definition objfun_row (g_points : Z) (nadir_points : option (list Q))
    (payoff_table : list (list float)) (i : nat) : Result (list float * Z) :=
  let* col := column payoff_table i in
  let* mn :=
    match nadir_points with
    | Some ((_ :: _) as nadir) => let* x := index nadir (i - 1) in Ok (Some x)
    | _ => match col with [] => Raise ValueError | _ => Ok (np_min col) end
    end in
  let* mx := match col with [] => Raise ValueError | _ => Ok (np_max col) end in
  let* r := range_entry mx mn in
  Ok (map (breakpoint mn r g_points) (py_range 0 g_points), r).

Definition find_objfun_range_row (g_points : Z) (nadir_points : option (list Q))
    (payoff_table : list (list float)) (s : RangeGrid) (i : nat) : Result RangeGrid :=
  let* row_r := objfun_row g_points nadir_points payoff_table i in
  Ok (mkRangeGrid (<[(i - 1)%nat := fst row_r]> (e_grid s))
                  (<[(i - 1)%nat := snd row_r]> (obj_range s))).

Definition find_objfun_range (p : nat) (g_points : Z) (nadir_points : option (list Q))
    (payoff_table : list (list float)) : Result RangeGrid :=
  if (p =? 0)%nat || (g_points <? 0) then Raise ValueError   (* np.zeros of a negative dimension *)
  else
    let s0 := mkRangeGrid (repeat (repeat (Some 0%Q) (Z.to_nat g_points)) (p - 1)%nat)
                          (map Z.of_nat (objfun_iter2 p)) in
    for_each (find_objfun_range_row g_points nadir_points payoff_table) s0 (objfun_iter2 p).

(** ** Augmented problem *)

(** [10**(-1*(o-1))] *)
Definition rank_weight (o : nat) : Q := 1 # Pos.of_nat (10 ^ (o - 1))%nat.

(** [model.Slack = Var(model.Os, ...)]: the new variables hold no value. *)
Definition new_slack (m : Model) : Model :=
  set_values m (mkVarValues (obj_val (values m)) (fun _ => None)).

Definition convert_opt_prob (p : nat) (rng : list Z) (m : Model) : Result Model :=
  let m1 := new_slack (set_Os m (map S (objfun_iter2 p))) in
  let m2 := set_e_param m1 (fun _ => None) in
  let* m3 :=
    for_each (fun acc o =>
                if negb (Nat.eqb o 0) then
                  let* d := index rng (o - 1) in
                  Ok (set_penalty acc (penalty acc ++ [mkPenaltyTerm (rank_weight o) (S o) d]))
                else Ok acc)
             m2 (seq 0 p) in
  Ok (fold_left (fun acc o => set_con_list acc (con_list acc ++ [S o])) (seq 1 (p - 1)) m3).

(** ** Pareto explorer *)

(** [a[i]] on a numpy array for an integer [i]: a negative index counts from
    the end. *)
Definition np_index {A} (a : list A) (i : Z) : Result A :=
  let n := Z.of_nat (length a) in
  if (0 <=? i) && (i <? n) then index a (Z.to_nat i)
  else if (- n <=? i) && (i <? 0) then index a (Z.to_nat (n + i))
  else Raise IndexError.

(** A recorded solution: the rounded values in hundredths, [None] for a
    value that is no finite number. *)
Abbreviation Candidate := (list (option Z)).

(** [round(x, 2)] of a float. *)
Definition round2 (x : float) : option Z := option_map (fun q => round_units q 2) x.

Inductive LogEntry : Type :=
| LogInfeasible (c : list Z)
| LogSolved (c : list Z) (temp_list : Candidate) (jump : Z).

Record Explorer : Type := mkExplorer {
  ex_model : Model;
  bypass_jump : Z;
  models_solved : nat;
  flag : gmap (list Z) Z;
  pareto_sols_temp : list Candidate;
  ex_result : option TerminationCondition;
  log : list LogEntry
}.

(** [flag.get(c, 0)] *)
Definition flag_get (fl : gmap (list Z) Z) (c : list Z) : Z := default 0 (fl !! c).

(** The state before the first pass: no skip, no solve, no flag. *)
Definition initial_explorer (m : Model) : Explorer :=
  mkExplorer m 0 0%nat ∅ [] None [].

Section Explorer.

Variable opt_solve : Model -> Result (TerminationCondition * VarValues).
Variable num_objfun : nat.
Variable g_points : Z.
Variable early_exit bypass_coefficient : bool.
Variable e : list (list float).
Variable rng : list Z.

(** [int(slack / step)] with [step = obj_range[i] / (g_points - 1)] and
    [slack = round(Slack.value, 10)], in binary64: the step is the quotient
    of two integers, the rounded slack is the float nearest to the decimal,
    a zero divisor gives an infinity or [nan], and [int] raises on both.
    [round] raises on a slack without a value. *)
Definition bypass_count (r : Z) (slack_value : option Q) : Result Z :=
  match slack_value with
  | Some x =>
      let step := float_div (float_of_Z r) (float_of_Z (g_points - 1)) in
      let slack := float_of_Q (py_round x 10) in
      int_of_float (float_div slack step)
  | None => Raise TypeError
  end.

(** [b], filled for [i in objfun_iter[:-1]]. *)
Definition bypass_coefficients (m : Model) : Result (list Z) :=
  for_each (fun b i =>
              let* r := index rng i in
              let* bi := bypass_count r (slack_val (values m) (i + 2)) in
              Ok (b ++ [bi]))
           [] (seq 0 (num_objfun - 1)).

(** [e[o - 1, c[o - 1]]] *)
Definition grid_value (c : list Z) (o : nat) : Result float :=
  let* k := index c (o - 1) in
  let* row := index e (o - 1) in
  np_index row k.

(** [for o in objfun_iter2: model.e[o + 1] = e[o - 1, c[o - 1]]] *)
Definition set_epsilons (c : list Z) (m : Model) : Result Model :=
  for_each (fun acc o =>
              let* v := grid_value c o in
              Ok (assign_e acc (S o) v))
           m (objfun_iter2 num_objfun).

(** The early-exit branch: every [(c[0], i)] with [i] from [c[1]] on is
    flagged with the number of points left in the row of [c[0]]. *)
Definition flag_infeasible (c : list Z) (fl : gmap (list Z) Z) : Result (gmap (list Z) Z) :=
  let* c1 := index c 1 in
  for_each (fun acc i =>
              let* c0 := index c 0 in
              Ok (<[[c0; i] := g_points - c0]> acc))
           fl (py_range c1 g_points).

(** The bypass branch. *)
Definition flag_bypass (c : list Z) (m : Model) (fl : gmap (list Z) Z)
    : Result (gmap (list Z) Z) :=
  let* b := bypass_coefficients m in
  let* c1 := index c 1 in
  let* b1 := index b 1 in
  for_each (fun acc i =>
              let* b0 := index b 0 in
              let* c0 := index c 0 in
              Ok (<[[c0; i] := b0 + 1]> acc))
           fl (py_range c1 (c1 + b1 + 1)).

(** [sum(Slack[o1].value / obj_range[o1 - 2] for o1 in model.Os)]; the
    division raises on a slack without a value. *)
Definition slack_correction (m : Model) : Result float :=
  let* terms :=
    for_each (fun acc o1 =>
                let* r := np_index rng (Z.of_nat o1 - 2) in
                match slack_val (values m) o1 with
                | Some s => Ok (acc ++ [np_div s r])
                | None => Raise TypeError
                end)
             [] (Os m) in
  Ok (fsum terms).

(** [temp_list]: the corrected value of objective 1, then the values of the
    other objectives, each rounded to two decimals. *)
Definition record_solution (m : Model) : Result Candidate :=
  let* raw := obj_list_value m 1 in
  let* corr := slack_correction m in
  let first := round2 (fsub raw (fscale eps corr)) in
  let* rest :=
    for_each (fun acc o => let* x := obj_list_value m (S o) in Ok (acc ++ [round2 x]))
             [] (objfun_iter2 num_objfun) in
  Ok (first :: rest).

(** The skip started on arrival at a flagged index. *)
Definition start_jump (c : list Z) (s : Explorer) : Result Z :=
  if negb (flag_get (flag s) c =? 0) && (bypass_jump s =? 0) then
    let* c0 := index c 0 in
    let until_end := g_points - c0 in
    Ok (if flag_get (flag s) c <? until_end then flag_get (flag s) c else until_end)
  else Ok (bypass_jump s).

(** The skip started after the solve at [c], from the flag of [c] itself. *)
Definition next_jump (c : list Z) (fl : gmap (list Z) Z) (jump : Z) : Result Z :=
  if negb (flag_get fl c =? 0) && (jump =? 0) then
    let* c0 := index c 0 in
    let until_end := g_points - c0 - 1 in
    Ok (if flag_get fl c - 1 <? until_end then flag_get fl c - 1 else until_end)
  else Ok jump.

(** One pass of [for c in self.cp]. *)
Definition explore_step (s : Explorer) (c : list Z) : Result Explorer :=
  let* jump := start_jump c s in
  if 0 <? jump then
    (* continue *)
    Ok (mkExplorer (ex_model s) (jump - 1) (models_solved s) (flag s)
                   (pareto_sols_temp s) (ex_result s) (log s))
  else
    let* m1 := set_epsilons c (ex_model s) in
    let m2 := activate_objfun m1 1 in
    let* tc_m3 := solve_model opt_solve m2 in
    let '(tc, m3) := tc_m3 in
    let solved := S (models_solved s) in
    let* fl_lg :=
      if early_exit && negb (is_optimal tc) then
        let* fl := flag_infeasible c (flag s) in
        Ok (fl, log s ++ [LogInfeasible c])
      else if bypass_coefficient then
        let* fl := flag_bypass c m3 (flag s) in
        Ok (fl, log s)
      else Ok (flag s, log s) in
    let '(fl, lg) := fl_lg in
    let* temp_list := record_solution m3 in
    let* jump' := next_jump c fl jump in
    Ok (mkExplorer m3 jump' solved fl (pareto_sols_temp s ++ [temp_list]) (Some tc)
                   (lg ++ [LogSolved c temp_list jump'])).

Definition discover_pareto (m : Model) : Result Explorer :=
  let cp := grid_indices num_objfun g_points in
  for_each explore_step (initial_explorer m) cp.

End Explorer.

(** ** Deduplication: [set(pareto_sols_temp)] *)

Definition find_unique_sols (sols : list Candidate) : gset Candidate := list_to_set sols.

(** The rest of [find_unique_sols].  [unique_pareto_sols] is
    [list(set(pareto_sols_temp))]: the tuples of the set, each once, in the
    order in which the set is iterated, which Python leaves open; the
    functions below take that list as it comes.  Two tuples are the same
    when their components are, which is Python's comparison for tuples of
    finite values.  [pareto_sols] starts as an array of zeros with one row
    per tuple and [num_objfun] columns, and is filled entry by entry with
    [item[o]]. *)
Definition num_unique_pareto_sols (unique : list Candidate) : nat := length unique.

(** [enumerate(unique_pareto_sols)] *)
Fixpoint enumerate_from {A} (k : nat) (l : list A) : list (nat * A) :=
  match l with
  | [] => []
  | x :: rest => (k, x) :: enumerate_from (S k) rest
  end.

(** [for o in range(num_objfun): pareto_sols[item_index, o] = item[o]] *)
Definition pareto_row (num_objfun : nat) (row : list (option Z)) (item : Candidate)
    : Result (list (option Z)) :=
  for_each (fun r o => let* v := index item o in Ok (<[o := v]> r)) row (seq 0 num_objfun).

Definition pareto_sols (num_objfun : nat) (unique : list Candidate)
    : Result (list (list (option Z))) :=
  let zeros := repeat (repeat (Some 0) num_objfun) (num_unique_pareto_sols unique) in
  for_each (fun t ii =>
              let '(item_index, item) := ii in
              let* row := index t item_index in
              let* row' := pareto_row num_objfun row item in
              Ok (<[item_index := row']> t))
           zeros (enumerate_from 0 unique).

(** ** The constructor of [MOOP] *)

Record MOOP : Type := mkMOOP {
  moop_payoff : Payoff;
  moop_grid : RangeGrid;
  moop_explorer : Explorer;
  unique_pareto_sols : gset Candidate
}.

Definition MOOP_init (opt_solve : Model -> Result (TerminationCondition * VarValues))
    (base_model : Model) (g_points : Z) (nadir_points : option (list Q))
    (early_exit bypass_coefficient : bool) : Result MOOP :=
  let p := num_obj base_model in
  let nadir_mismatch :=
    match nadir_points with
    | Some nadir => negb (Z.of_nat (length nadir) =? Z.of_nat p - 1)
    | None => false
    end in
  if nadir_mismatch then Raise NadirException
  else
    let* pf := create_payoff_table opt_solve base_model in
    let* rg := find_objfun_range p g_points nadir_points (payoff_table pf) in
    let* m := convert_opt_prob p (obj_range rg) (pf_model pf) in
    let* ex := discover_pareto opt_solve p g_points early_exit bypass_coefficient
                               (e_grid rg) (obj_range rg) m in
    Ok (mkMOOP pf rg ex (find_unique_sols (pareto_sols_temp ex))).

(** ** Vocabulary of the statements *)

(** *** Shapes of the data passed between the stages *)

(** A [p x p] array. *)
Definition table_shape (p : nat) (t : list (list float)) : Prop :=
  length t = p /\ Forall (fun row => length row = p) t.

(** A payoff table all of whose [p x p] entries have been written with finite
    values, and a nadir list that passed the length check of the constructor. *)
Definition finite_table (p : nat) (table : list (list float)) : Prop :=
  length table = p /\
  Forall (fun row => length row = p /\ Forall (fun x : float => x <> None) row) table.

Definition nadir_ok (p : nat) (nadir : option (list Q)) : Prop :=
  match nadir with
  | Some l => length l = (p - 1)%nat
  | None => True
  end.

(** What the earlier stages hand to [discover_pareto]: a grid of [p - 1]
    rows of [g_points] breakpoints, [p - 1] ranges, and a model whose index
    set [Os] is [2..p]. *)
Definition grid_shape (p : nat) (g_points : Z) (e : list (list float)) : Prop :=
  length e = (p - 1)%nat /\ Forall (fun row => length row = Z.to_nat g_points) e.

Definition explorer_inputs (p : nat) (g_points : Z) (e : list (list float))
    (rng : list Z) (m : Model) : Prop :=
  grid_shape p g_points e /\ length rng = (p - 1)%nat /\ Os m = map S (objfun_iter2 p).

(** A row of floats all equal to the finite value [v]. *)
Definition constant_row (v : Q) (row : list float) : Prop :=
  Forall (fun x : float => exists q, x = Some q /\ (q == v)%Q) row.

(** *** Two nested-loop orders, for comparison with [grid_indices]

    [first_fastest n l] is the order of [n] nested loops over [l] in which
    component 0 is run by the innermost loop; [first_slowest n l] is the
    order in which component 0 is run by the outermost loop. *)

Fixpoint first_fastest (n : nat) (l : list Z) : list (list Z) :=
  match n with
  | O => [[]]
  | S k => flat_map (fun t => map (fun x => x :: t) l) (first_fastest k l)
  end.

Fixpoint first_slowest (n : nat) (l : list Z) : list (list Z) :=
  match n with
  | O => [[]]
  | S k => flat_map (fun x => map (cons x) (first_slowest k l)) l
  end.

(** *** The log *)

(** The grid index of a log line. *)
Definition log_index (l : LogEntry) : list Z :=
  match l with LogInfeasible c => c | LogSolved c _ _ => c end.

Definition is_solved_line (l : LogEntry) : bool :=
  match l with LogSolved _ _ _ => true | LogInfeasible _ => false end.

(** The grid indices at which a solve was made, in order. *)
Definition solved_indices (lg : list LogEntry) : list (list Z) :=
  map log_index (List.filter is_solved_line lg).

(** *** The augmented objective *)

(** The term that [convert_opt_prob] adds for [o] in [1..p-1]. *)
Definition added_term (rng : list Z) (o : nat) : PenaltyTerm :=
  mkPenaltyTerm (rank_weight o) (S o) (nth (o - 1) rng 0).

(** The sum of the terms that [convert_opt_prob] added to the expression of
    objective 1, at the values the model holds. *)
Definition penalty_value (m : Model) : Result float :=
  for_each (fun acc t => let* x := penalty_term_value (values m) t in Ok (fadd acc x))
           (Some 0%Q) (penalty m).

(** The values [sl o] of the slack variables [2..p]. *)
Definition slacks_are (p : nat) (v : VarValues) (sl : nat -> Q) : Prop :=
  forall o, (2 <= o <= p)%nat -> slack_val v o = Some (sl o).

(** *** Skips *)

(** The [k] grid indices that follow [(c0, c1)] in its row. *)
Definition following (c0 c1 k : Z) : list (list Z) :=
  map (fun x => [x; c1]) (py_range (c0 + 1) (c0 + k + 1)).

(** The state after a pass that only consumes one step of a skip. *)
Definition skipped (s : Explorer) : Explorer :=
  mkExplorer (ex_model s) (bypass_jump s - 1) (models_solved s) (flag s)
             (pareto_sols_temp s) (ex_result s) (log s).

(** *** Models and solvers *)

(** Two payoff states that differ at most in the stored solver result. *)
Definition same_payoff (s s' : Payoff) : Prop :=
  pf_model s = pf_model s' /\ payoff_table s = payoff_table s' /\
  ideal_point s = ideal_point s'.

(** Two runs of the payoff stage that end alike: with the same exception, or
    with payoff states that differ at most in the stored solver result. *)
Definition same_outcome (r r' : Result Payoff) : Prop :=
  match r, r' with
  | Ok s, Ok s' => same_payoff s s'
  | Raise err, Raise err' => err = err'
  | _, _ => False
  end.

(** Two solver answers that differ at most in the termination condition. *)
Definition same_answer (a a' : Result (TerminationCondition * VarValues)) : Prop :=
  match a, a' with
  | Ok (_, v), Ok (_, v') => v = v'
  | Raise err, Raise err' => err = err'
  | _, _ => False
  end.

(** The model handed to the solver by an off-diagonal pass of the payoff
    stage: objective [j + 1] active, objective [i + 1] pinned to [d]. *)
Definition pinned_model (s : Payoff) (i j : nat) (d : float) : Model :=
  set_aux_con (activate_objfun (pf_model s) (S j)) (Some (S i, d)).

(** The entry [(i, j)] of the payoff table [t] is the value of objective
    [j + 1] after a solver call that returned: the call was made on a model
    with objective [j + 1] active and, off the diagonal, with the auxiliary
    constraint that pins objective [i + 1] to the diagonal entry of its
    row; the value is kept as it is on the diagonal and rounded to ten
    decimals off it.  The termination condition [tc] of the call is
    arbitrary. *)
Definition written_from (solver : Model -> Result (TerminationCondition * VarValues))
    (t : list (list float)) (i j : nat) : Prop :=
  exists m_in tc v x,
    solver m_in = Ok (tc, v) /\ S j ∈ active m_in /\
    (i <> j -> exists d, mat_get t i i = Ok d /\ aux_con m_in = Some (S i, d)) /\
    obj_list_value (set_values m_in v) (S j) = Ok x /\
    mat_get t i j = Ok (if Nat.eqb i j then x else option_map (fun q => py_round q 10) x).

(** A solver that returns on every model and leaves values at which the
    objectives [1..p] can be evaluated. *)
Definition returns_values (solver : Model -> Result (TerminationCondition * VarValues))
    (p : nat) : Prop :=
  forall m_in, exists tc v,
    solver m_in = Ok (tc, v) /\
    forall k, (1 <= k <= p)%nat -> exists x, obj_list_value (set_values m_in v) k = Ok x.

(** What a pass leaves of the model: everything but the parameter [e], the
    active objectives and the values. *)
Definition same_frame (m m' : Model) : Prop :=
  num_obj m' = num_obj m /\ Os m' = Os m /\ penalty m' = penalty m /\
  con_list m' = con_list m /\ aux_con m' = aux_con m.

(** The model handed to the solver at grid index [c], coming from the model
    [m]: objective 1 is active, the bound of every objective [o + 1] in
    [2..p] is the breakpoint [e[o - 1][c[o - 1]]], and the rest is as in
    [m]. *)
Definition solve_input (p : nat) (e : list (list float)) (c : list Z)
    (m m_in : Model) : Prop :=
  same_frame m m_in /\ values m_in = values m /\
  active m_in = {[1%nat]} ∪ active m /\
  (forall o, (1 <= o < p)%nat ->
     e_param m_in (S o) = nth (Z.to_nat (nth (o - 1) c 0)) (nth (o - 1) e []) None) /\
  (forall k, ~ (2 <= k <= p)%nat -> e_param m_in k = e_param m k).

(** The solves of the grid loop over the indices [cs], one after the other
    from the model [m]: at each index the solver is called on the model of
    that index and returns, the values it leaves are stored in the model, a
    candidate is computed from them, and the next index starts from that
    model. *)
Inductive solves_in_turn
    (opt_solve : Model -> Result (TerminationCondition * VarValues))
    (p : nat) (e : list (list float)) (rng : list Z)
    : Model -> list (list Z) -> list Candidate -> Model -> Prop :=
| turn_done (m : Model) : solves_in_turn opt_solve p e rng m [] [] m
| turn_solve (m m1 m' : Model) (c : list Z) (cs : list (list Z))
      (tc : TerminationCondition) (v : VarValues)
      (cand : Candidate) (cands : list Candidate) :
    set_epsilons p e c m = Ok m1 ->
    solve_input p e c m (activate_objfun m1 1) ->
    opt_solve (activate_objfun m1 1) = Ok (tc, v) ->
    record_solution p rng (set_values (activate_objfun m1 1) v) = Ok cand ->
    solves_in_turn opt_solve p e rng (set_values (activate_objfun m1 1) v) cs cands m' ->
    solves_in_turn opt_solve p e rng m (c :: cs) (cand :: cands) m'.

(** *** Ranges and slack sums *)

(** The minimum that [find_objfun_range] takes for objective [i + 1]: the
    nadir point when nadir points are given (a list that is not empty), the
    minimum of the payoff column otherwise. *)
Definition chosen_minimum (nadir : option (list Q)) (col : list float) (i : nat) : float :=
  match nadir with
  | Some ((_ :: _) as nd) => nth_error nd (i - 1)
  | _ => np_min col
  end.

(** The ranges of a payoff table fit the integer array: for every objective
    [i + 1] in [2..p], the integer part of maximum minus chosen minimum is a
    64-bit integer. *)
Definition ranges_fit (p : nat) (nadir : option (list Q)) (table : list (list float)) : Prop :=
  forall i col mx mn,
    (1 <= i < p)%nat -> column table i = Ok col ->
    np_max col = Some mx -> chosen_minimum nadir col i = Some mn ->
    int64_min <= py_int (mx - mn)%Q <= int64_max.

(** The weighted slack sum of the augmented objective,
    [sum over o in 1..p-1 of 10^-(o-1) * Slack[o+1] / obj_range[o-1]], at the
    slack values [sl]. *)
Definition weighted_slack_sum (p : nat) (rng : list Z) (sl : nat -> Q) : Q :=
  fold_right (fun o acc =>
                (rank_weight o * sl (S o) / inject_Z (nth (o - 1)%nat rng 0%Z) + acc)%Q)
             0%Q (objfun_iter2 p).

(** ** Example models and solvers

    The concrete inputs of the runs evaluated below.  A model is given by
    the objective vectors of its feasible points; the exhaustive solver
    maximises the active objective over the points that satisfy the
    auxiliary constraint and the epsilon constraints, the slack of a
    constraint being what the objective exceeds its bound by.  It raises on
    a model it cannot be given: a bound that is not a finite number, or a
    term of the active objective with a zero divisor.  When no point is
    feasible the values are left as they are. *)

Definition point_value (pt : list Q) (k : nat) : Q := nth (k - 1) pt 0%Q.

Definition point_values (m : Model) (pt : list Q) : VarValues :=
  mkVarValues
    (fun k => if (1 <=? k)%nat && (k <=? num_obj m)%nat then Some (point_value pt k) else None)
    (fun o => if existsb (Nat.eqb o) (Os m)
              then option_map (fun bound => (point_value pt o - bound)%Q) (e_param m o)
              else None).

Definition point_feasible (m : Model) (pt : list Q) : bool :=
  match aux_con m with
  | None => true
  | Some (i, Some v) => Qeq_bool (point_value pt i) v
  | Some (_, None) => false
  end
  && forallb (fun o => match e_param m o with
                       | Some bound => Qle_bool bound (point_value pt o)
                       | None => false
                       end) (con_list m).

(** The value of the active objective at a point. *)
Definition point_objective (m : Model) (pt : list Q) : Q :=
  match elements (active m) with
  | k :: _ =>
      match obj_list_value (set_values m (point_values m pt)) k with
      | Ok (Some q) => q
      | _ => 0%Q
      end
  | [] => 0%Q
  end.

Definition better (m : Model) (best : option (list Q)) (pt : list Q) : option (list Q) :=
  if point_feasible m pt then
    match best with
    | Some b => if Qle_bool (point_objective m pt) (point_objective m b) then best else Some pt
    | None => Some pt
    end
  else best.

(** The models the solver accepts. *)
Definition well_posed (m : Model) : bool :=
  forallb (fun o => match e_param m o with Some _ => true | None => false end) (con_list m)
  && match aux_con m with Some (_, None) => false | _ => true end
  && (negb (bool_decide (1%nat ∈ active m))
      || forallb (fun t => negb (pen_divisor t =? 0)) (penalty m)).

Definition exhaustive_solve (feasible : list (list Q)) (m : Model)
    : Result (TerminationCondition * VarValues) :=
  if well_posed m then
    match fold_left (better m) feasible None with
    | Some pt => Ok (optimal, point_values m pt)
    | None => Ok (infeasible, values m)
    end
  else Raise SolverError.

(** A solver call that ends without an optimum and loads nothing. *)
Definition no_optimum (tc : TerminationCondition) (m : Model)
    : Result (TerminationCondition * VarValues) := Ok (tc, values m).

(** The same answer under another termination condition. *)
Definition reported_as (tc : TerminationCondition)
    (solver : Model -> Result (TerminationCondition * VarValues)) (m : Model)
    : Result (TerminationCondition * VarValues) :=
  match solver m with
  | Ok (_, v) => Ok (tc, v)
  | Raise err => Raise err
  end.

(** A model of [p] objectives before any stage has run (no variable holds a
    value), and the model that [convert_opt_prob] makes of it. *)
Definition blank_model (p : nat) : Model :=
  mkModel p ∅ None [] (fun _ => None) [] [] (mkVarValues (fun _ => None) (fun _ => None)).

Definition augmented_model (p : nat) (rng : list Z) : Model :=
  match convert_opt_prob p rng (blank_model p) with
  | Ok m => m
  | Raise _ => blank_model p
  end.

(** Feasible sets: two objectives, two points; three objectives, three
    points; three objectives, two points, the optimum of objective 1 being
    also the optimum of objective 2; four objectives, two points; three
    objectives, one point whose second objective exceeds a third by less
    than [10^-10]. *)
Definition two_points : list (list Q) := [[0; 1]; [1; 0]]%Q.
Definition three_points : list (list Q) := [[0; 1; 1]; [1; 0; 0]; [1 # 2; 0; 1]]%Q.
Definition corner_points : list (list Q) := [[1; 1; 0]; [0; 0; 1]]%Q.
Definition four_objective_points : list (list Q) := [[0; 1; 1; 1]; [1; 0; 0; 0]]%Q.
Definition third_point : list (list Q) := [[1; 33333333334 # 100000000000; 1]]%Q.

(** Three objectives, one point, at which objective 3 is 0. *)
Definition low_point : list (list Q) := [[1; 1; 0]]%Q.

(** Three objectives, one point whose second objective is three tenths. *)
Definition tenths_point : list (list Q) := [[1; 3 # 10; 1]]%Q.

(** Grids over [0, 1]: two breakpoints, for one and for two secondary
    objectives, and four breakpoints. *)
Definition unit_row : list float := [Some 0; Some 1]%Q.
Definition unit_grid : list (list float) := [unit_row; unit_row].
Definition thirds_row : list float := [Some 0; Some (1 # 3); Some (2 # 3); Some 1]%Q.

(** Eleven breakpoints over [0, 1]. *)
Definition tenths_row : list float :=
  map (fun j => Some (inject_Z j / 10)%Q) (py_range 0 11).

(** A payoff table with a fractional range (the values of objective 2 are
    0.5 and 2), and one whose column of objective 2 is constant. *)
Definition fractional_table : list (list float) :=
  [[Some 1; Some (1 # 2)]; [Some 0; Some 2]]%Q.
Definition flat_table : list (list float) :=
  [[Some 1; Some 1]; [Some 0; Some 1]]%Q.

(** A solver that finds the optimum of [two_points] when the model has no
    auxiliary constraint, and reports infeasibility, loading nothing, when
    it has one. *)
Definition fails_when_pinned (m : Model) : Result (TerminationCondition * VarValues) :=
  match aux_con m with
  | Some _ => no_optimum infeasible m
  | None => exhaustive_solve two_points m
  end.

(** The models handed to the solver at the grid indices [(1, 0)] and
    [(0, 0)] of [unit_grid] with three objectives, and the values the
    exhaustive solver over [corner_points] loads at [(0, 0)]. *)
Definition model_at_1_0 : Model :=
  activate_objfun (assign_e (assign_e (augmented_model 3 [1; 1]) 2 (Some 1%Q)) 3 (Some 0%Q)) 1.

Definition model_at_0_0 : Model :=
  activate_objfun (assign_e (assign_e (augmented_model 3 [1; 1]) 2 (Some 0%Q)) 3 (Some 0%Q)) 1.

(** The values that a solver call leaves; none when the call raised. *)
Definition loaded_values (a : Result (TerminationCondition * VarValues)) : VarValues :=
  match a with
  | Ok (_, v) => v
  | Raise _ => mkVarValues (fun _ => None) (fun _ => None)
  end.

Definition corner_values : VarValues :=
  loaded_values (exhaustive_solve corner_points model_at_0_0).

(** The payoff table that [tests/test_three_objectives.py] expects. *)
Definition three_objective_payoff : list (list float) :=
  [[Some 3075000; Some 62460; Some 33000];
   [Some 3855000; Some 45180; Some 37000];
   [Some 3225000; Some 55260; Some 23000]]%Q.

(** * Properties *)

(** ** Loops and lookups *)

Lemma for_each_prefix_inv {A S} (P : list A -> S -> Prop)
    (body : S -> A -> Result S) (xs : list A) (s : S) :
  P [] s ->
  (forall pre x post s0, xs = pre ++ x :: post -> P pre s0 ->
     exists s1, body s0 x = Ok s1 /\ P (pre ++ [x]) s1) ->
  exists s', for_each body s xs = Ok s' /\ P xs s'.
Proof.
  intros H0 Hstep.
  assert (Hgen : forall rest pre s0, xs = pre ++ rest -> P pre s0 ->
            exists s', for_each body s0 rest = Ok s' /\ P xs s').
  { induction rest as [|x rest IH]; intros pre s0 Hxs HP; simpl.
    - rewrite app_nil_r in Hxs. subst pre. eauto.
    - destruct (Hstep pre x rest s0 Hxs HP) as (s1 & Hb & HP1).
      rewrite Hb. simpl. apply (IH (pre ++ [x])); [|exact HP1].
      now rewrite <- app_assoc. }
  now apply (Hgen xs [] s).
Qed.

Lemma for_each_inv {A S} (P : S -> Prop) (body : S -> A -> Result S)
    (xs : list A) (s : S) :
  P s ->
  (forall x s0, In x xs -> P s0 -> exists s1, body s0 x = Ok s1 /\ P s1) ->
  exists s', for_each body s xs = Ok s' /\ P s'.
Proof.
  intros H0 Hstep.
  apply (for_each_prefix_inv (fun _ => P)); [exact H0|].
  intros pre x post s0 Hxs HP. apply Hstep; [|exact HP].
  subst xs. apply in_or_app. right. now left.
Qed.

Lemma index_lt {A} (t : list A) (i : nat) :
  (i < length t)%nat -> exists x, index t i = Ok x /\ In x t.
Proof.
  intros Hi. unfold index.
  destruct (nth_error t i) as [x|] eqn:E.
  - exists x. split; [reflexivity|]. eapply nth_error_In; eauto.
  - apply nth_error_None in E. lia.
Qed.

Lemma np_index_in_range {A} (a : list A) (i : Z) :
  0 <= i < Z.of_nat (length a) -> exists x, np_index a i = Ok x.
Proof.
  intros Hi. unfold np_index.
  destruct (Z.leb_spec 0 i); [|lia].
  destruct (Z.ltb_spec i (Z.of_nat (length a))); [|lia]. simpl.
  destruct (index_lt a (Z.to_nat i)) as (x & Hx & _); [lia|]. eauto.
Qed.

Lemma for_each_ext {A S} (body body' : S -> A -> Result S) (xs : list A) (s : S) :
  (forall s0 x, body s0 x = body' s0 x) ->
  for_each body s xs = for_each body' s xs.
Proof.
  intros Hext. revert s. induction xs as [|x xs IH]; intros s; simpl; [reflexivity|].
  rewrite Hext. destruct (body' s x); simpl; [apply IH|reflexivity].
Qed.

Lemma for_each_ok_inv {A S} (P : list A -> S -> Prop)
    (body : S -> A -> Result S) (xs : list A) (s s' : S) :
  for_each body s xs = Ok s' ->
  P [] s ->
  (forall pre x post s0 s1, xs = pre ++ x :: post -> P pre s0 ->
     body s0 x = Ok s1 -> P (pre ++ [x]) s1) ->
  P xs s'.
Proof.
  intros Hrun H0 Hstep.
  assert (Hgen : forall rest pre s0, xs = pre ++ rest -> P pre s0 ->
            for_each body s0 rest = Ok s' -> P xs s').
  { induction rest as [|x rest IH]; intros pre s0 Hxs HP Hr; simpl in Hr.
    - injection Hr as <-. rewrite app_nil_r in Hxs. now subst pre.
    - destruct (body s0 x) as [s1|err] eqn:Hb; [|discriminate]. simpl in Hr.
      apply (IH (pre ++ [x]) s1); [now rewrite <- app_assoc| |exact Hr].
      now apply (Hstep pre x rest s0 s1). }
  now apply (Hgen xs [] s).
Qed.

Lemma list_lookup_nth_error {A} (l : list A) (i : nat) : l !! i = nth_error l i.
Proof.
  revert i. induction l as [|x l IH]; intros [|i]; simpl; try reflexivity. apply IH.
Qed.

Lemma index_lookup {A} (t : list A) (i : nat) :
  index t i = match t !! i with Some x => Ok x | None => Raise IndexError end.
Proof. unfold index. now rewrite list_lookup_nth_error. Qed.

Lemma for_each_raise_inv {A S} (P : list A -> S -> Prop)
    (body : S -> A -> Result S) (xs : list A) (s : S) (err : PyError) :
  for_each body s xs = Raise err ->
  P [] s ->
  (forall pre x post s0 s1, xs = pre ++ x :: post -> P pre s0 ->
     body s0 x = Ok s1 -> P (pre ++ [x]) s1) ->
  exists pre x post s0, xs = pre ++ x :: post /\ P pre s0 /\ body s0 x = Raise err.
Proof.
  intros Hrun H0 Hstep.
  assert (Hgen : forall rest pre s0, xs = pre ++ rest -> P pre s0 ->
            for_each body s0 rest = Raise err ->
            exists pre x post s0, xs = pre ++ x :: post /\ P pre s0 /\ body s0 x = Raise err).
  { induction rest as [|x rest IH]; intros pre s0 Hxs HP Hr; simpl in Hr; [discriminate|].
    destruct (body s0 x) as [s1|err'] eqn:Hb; simpl in Hr.
    - apply (IH (pre ++ [x]) s1); [now rewrite <- app_assoc| |exact Hr].
      now apply (Hstep pre x rest s0 s1).
    - injection Hr as ->. exists pre, x, rest, s0. auto. }
  now apply (Hgen xs [] s).
Qed.

(** ** The enumeration order *)

Section Enumeration.

Context {A B C : Type}.

Lemma map_flat_map (f : B -> C) (g : A -> list B) (l : list A) :
  map f (flat_map g l) = flat_map (fun x => map f (g x)) l.
Proof.
  induction l as [|a l IH]; simpl; [reflexivity|].
  now rewrite List.map_app, IH.
Qed.

Lemma flat_map_map (g : B -> list C) (f : A -> B) (l : list A) :
  flat_map g (map f l) = flat_map (fun x => g (f x)) l.
Proof.
  induction l as [|a l IH]; simpl; [reflexivity|].
  now rewrite IH.
Qed.

Lemma flat_map_flat_map (g : B -> list C) (f : A -> list B) (l : list A) :
  flat_map g (flat_map f l) = flat_map (fun x => flat_map g (f x)) l.
Proof.
  induction l as [|a l IH]; simpl; [reflexivity|].
  now rewrite flat_map_app, IH.
Qed.

End Enumeration.

Lemma product_snoc {A} (ls : list (list A)) (l : list A) :
  product (ls ++ [l]) = flat_map (fun t => map (fun x => t ++ [x]) l) (product ls).
Proof.
  induction ls as [|a ls IH]; simpl.
  - rewrite app_nil_r. induction l as [|x l IHl]; simpl; [reflexivity|].
    now rewrite IHl.
  - rewrite IH, flat_map_flat_map. apply flat_map_ext. intros y.
    rewrite map_flat_map, flat_map_map. apply flat_map_ext. intros t.
    now rewrite List.map_map.
Qed.

Lemma flat_map_cons_length {A} (l : list A) (P : list (list A)) :
  length (flat_map (fun x => map (cons x) P) l) = (length l * length P)%nat.
Proof.
  induction l as [|x l IH]; simpl; [reflexivity|].
  now rewrite List.length_app, List.length_map, IH.
Qed.

Lemma product_length_repeat {A} (l : list A) (n : nat) :
  length (product (repeat l n)) = (length l ^ n)%nat.
Proof.
  induction n as [|n IH]; simpl; [reflexivity|].
  now rewrite flat_map_cons_length, IH.
Qed.

Lemma rev_product_repeat (l : list Z) (n : nat) :
  map (@rev Z) (product (repeat l n)) = first_fastest n l.
Proof.
  induction n as [|n IH]; [reflexivity|].
  change (repeat l (S n)) with (l :: repeat l n).
  rewrite repeat_cons, product_snoc, map_flat_map. simpl.
  rewrite <- IH, flat_map_map. apply flat_map_ext. intros t.
  rewrite List.map_map. apply List.map_ext. intros x.
  now rewrite rev_unit.
Qed.

Lemma map_const_seq {A} (x : A) (n s : nat) :
  map (fun _ : nat => x) (seq s n) = repeat x n.
Proof.
  revert s. induction n as [|n IH]; intros s; simpl; [reflexivity|].
  now rewrite IH.
Qed.

Lemma objfun_iter2_indices (p : nat) (g : Z) :
  map (fun _ : nat => py_range 0 g) (objfun_iter2 p) = repeat (py_range 0 g) (p - 1).
Proof. apply map_const_seq. Qed.

Lemma py_range_length (a b : Z) : length (py_range a b) = Z.to_nat (b - a).
Proof. unfold py_range. now rewrite List.length_map, List.length_seq. Qed.

Lemma grid_indices_first_fastest (p : nat) (g : Z) :
  grid_indices p g = first_fastest (p - 1) (py_range 0 g).
Proof. unfold grid_indices. now rewrite objfun_iter2_indices, rev_product_repeat. Qed.

Lemma grid_indices_length (p : nat) (g : Z) :
  length (grid_indices p g) = (Z.to_nat g ^ (p - 1))%nat.
Proof.
  unfold grid_indices.
  rewrite List.length_map, objfun_iter2_indices, product_length_repeat, py_range_length.
  now rewrite Z.sub_0_r.
Qed.

(** C6, as the code has it: the enumeration has [g^(p-1)] tuples and is
    the order of nested loops in which component 0 of the tuple is run by
    the innermost loop, so the first dimension changes fastest and later
    dimensions change slower. *)
Theorem C6_enumeration_first_dimension_fastest (p : nat) (g : Z) :
  length (grid_indices p g) = (Z.to_nat g ^ (p - 1))%nat /\
  grid_indices p g = first_fastest (p - 1) (py_range 0 g).
Proof. split; [apply grid_indices_length | apply grid_indices_first_fastest]. Qed.

(** C6 as stated fails: with three objectives and two grid points the
    second tuple visited is (1, 0), where an order whose first dimension
    changes slowest visits (0, 1). *)
Lemma C6_first_dimension_not_slowest :
  grid_indices 3 2 = [[0; 0]; [1; 0]; [0; 1]; [1; 1]] /\
  first_slowest 2 (py_range 0 2) = [[0; 0]; [0; 1]; [1; 0]; [1; 1]] /\
  grid_indices 3 2 <> first_slowest (3 - 1) (py_range 0 2).
Proof. repeat split; discriminate. Qed.

(** ** The tuples of the enumeration *)

Lemma first_fastest_elements (n : nat) (l : list Z) (c : list Z) :
  In c (first_fastest n l) -> length c = n /\ Forall (fun x => In x l) c.
Proof.
  revert c. induction n as [|n IH]; intros c; simpl.
  - intros [<-|[]]. split; [reflexivity|constructor].
  - rewrite in_flat_map. intros (t & Ht & Hc).
    apply List.in_map_iff in Hc as (x & <- & Hx).
    destruct (IH t Ht) as [Hlen Hall]. split; [simpl; lia|].
    constructor; assumption.
Qed.

Lemma py_range_In (a b x : Z) : In x (py_range a b) <-> a <= x < b.
Proof.
  unfold py_range. rewrite List.in_map_iff. split.
  - intros (k & <- & Hk). apply in_seq in Hk. lia.
  - intros Hx. exists (Z.to_nat (x - a)). split; [lia|]. apply in_seq. lia.
Qed.

Lemma grid_indices_elements (p : nat) (g : Z) (c : list Z) :
  In c (grid_indices p g) ->
  length c = (p - 1)%nat /\ Forall (fun x => 0 <= x < g) c.
Proof.
  rewrite grid_indices_first_fastest. intros Hc.
  destruct (first_fastest_elements _ _ _ Hc) as [Hlen Hall]. split; [exact Hlen|].
  eapply List.Forall_impl; [|exact Hall]. intros x Hx. now apply py_range_In in Hx.
Qed.


(** ** C7: the payoff table and the termination condition *)

Lemma mat_set_shape (p : nat) (t : list (list float)) (i j : nat) (v : float) :
  table_shape p t -> table_shape p (mat_set t i j v).
Proof.
  intros [Hlen Hrows]. unfold mat_set. split; [now rewrite length_alter|].
  clear Hlen. revert i. induction Hrows as [|row t Hrow Hrows IH]; intros i.
  - constructor.
  - destruct i as [|i]; simpl.
    + constructor; [now rewrite length_insert|exact Hrows].
    + constructor; [exact Hrow|apply IH].
Qed.

Lemma mat_get_shape (p : nat) (t : list (list float)) (i j : nat) :
  table_shape p t -> (i < p)%nat -> (j < p)%nat -> exists v, mat_get t i j = Ok v.
Proof.
  intros [Hlen Hrows] Hi Hj. unfold mat_get.
  destruct (index_lt t i) as (row & -> & Hrow); [lia|]. simpl.
  rewrite List.Forall_forall in Hrows.
  destruct (index_lt row j) as (v & -> & _); [rewrite (Hrows row Hrow); lia|]. eauto.
Qed.

Lemma index_pairs_In (p i j : nat) :
  In (i, j) (index_pairs p) -> (i < p)%nat /\ (j < p)%nat.
Proof.
  unfold index_pairs, objfun_iter. rewrite in_flat_map.
  intros (i' & Hi' & Hij). apply List.in_map_iff in Hij as (j' & [= <- <-] & Hj').
  apply in_seq in Hi', Hj'. lia.
Qed.

Lemma index_pairs_In_iff (p i j : nat) :
  In (i, j) (index_pairs p) <-> (i < p)%nat /\ (j < p)%nat.
Proof.
  split; [apply index_pairs_In|]. intros [Hi Hj].
  unfold index_pairs, objfun_iter. apply in_flat_map. exists i.
  split; [apply in_seq; lia|]. apply List.in_map. apply in_seq. lia.
Qed.

Lemma mat_get_set_eq (p : nat) (t : list (list float)) (i j : nat) (v : float) :
  table_shape p t -> (i < p)%nat -> (j < p)%nat ->
  mat_get (mat_set t i j v) i j = Ok v.
Proof.
  intros [Hlen Hrows] Hi Hj. unfold mat_get, mat_set.
  rewrite index_lookup, list_lookup_alter_eq.
  destruct (t !! i) as [row|] eqn:Hrow.
  - simpl. rewrite index_lookup, list_lookup_insert_eq; [reflexivity|].
    rewrite List.Forall_forall in Hrows. rewrite (Hrows row); [exact Hj|].
    apply list_elem_of_In. eapply list_elem_of_lookup_2. exact Hrow.
  - apply lookup_ge_None in Hrow. lia.
Qed.

Lemma mat_get_set_ne (t : list (list float)) (i j i' j' : nat) (v : float) :
  (i', j') <> (i, j) -> mat_get (mat_set t i j v) i' j' = mat_get t i' j'.
Proof.
  intros Hne. unfold mat_get, mat_set. rewrite !index_lookup.
  destruct (Nat.eq_dec i i') as [<-|Hi].
  - rewrite list_lookup_alter_eq. destruct (t !! i) as [row|]; simpl; [|reflexivity].
    rewrite !index_lookup, list_lookup_insert_ne; [reflexivity|congruence].
  - now rewrite list_lookup_alter_ne.
Qed.

Lemma initial_table_shape (p : nat) : table_shape p (repeat (repeat None p) p).
Proof.
  split; [apply repeat_length|].
  apply List.Forall_forall. intros row Hrow. apply repeat_spec in Hrow. subst row.
  apply repeat_length.
Qed.

(** *** Evaluating an objective *)

(** The only exception of an evaluation is the [ValueError] of a variable
    without a value. *)
Lemma obj_list_value_error (m : Model) (k : nat) (err : PyError) :
  obj_list_value m k = Raise err -> err = ValueError.
Proof.
  unfold obj_list_value. destruct (obj_val (values m) k) as [a|]; [|congruence].
  destruct (Nat.eqb k 1); [|discriminate].
  intros H.
  apply (for_each_raise_inv (fun _ _ => True)) in H as (pre & t & post & acc & _ & _ & Hb);
    [|exact I|auto].
  unfold penalty_term_value in Hb.
  destruct (slack_val (values m) (pen_slack t)); simpl in Hb; congruence.
Qed.

(** The value of an objective depends on the values and on the added terms,
    not on what is active or constrained. *)
Lemma obj_list_value_ext (m m' : Model) (k : nat) :
  values m = values m' -> penalty m = penalty m' ->
  obj_list_value m k = obj_list_value m' k.
Proof. intros Hv Hp. unfold obj_list_value. now rewrite Hv, Hp. Qed.

(** *** The two ways a pass of the payoff loops can end *)

Section PayoffSteps.

Variable solver : Model -> Result (TerminationCondition * VarValues).

Lemma payoff_diag_step_ok (s s1 : Payoff) (i j : nat) :
  payoff_diag_step solver s (i, j) = Ok s1 ->
  (i <> j /\ s1 = s) \/
  (i = j /\ exists tc v x,
     solver (activate_objfun (pf_model s) (S j)) = Ok (tc, v) /\
     obj_list_value (set_values (activate_objfun (pf_model s) (S j)) v) (S j) = Ok x /\
     s1 = mkPayoff (deactivate_objfun (set_values (activate_objfun (pf_model s) (S j)) v) (S j))
                   (mat_set (payoff_table s) i j x) (<[i := x]> (ideal_point s)) (Some tc)).
Proof.
  unfold payoff_diag_step. destruct (Nat.eqb_spec i j) as [<-|Hne].
  - intros H. right. split; [reflexivity|].
    unfold solve_model in H.
    destruct (solver (activate_objfun (pf_model s) (S i))) as [[tc v]|err] eqn:Hs;
      [|discriminate].
    cbn [rbind] in H.
    destruct (obj_list_value (set_values (activate_objfun (pf_model s) (S i)) v) (S i))
      as [x|err] eqn:Hx; [|discriminate].
    cbn [rbind] in H.
    rewrite (obj_list_value_ext _ (set_values (activate_objfun (pf_model s) (S i)) v))
      in H by reflexivity.
    rewrite Hx in H. cbn [rbind] in H. injection H as <-.
    exists tc, v, x. auto.
  - intros [= <-]. left. auto.
Qed.

Lemma payoff_diag_step_raise (s : Payoff) (i j : nat) (err : PyError) :
  payoff_diag_step solver s (i, j) = Raise err ->
  solver (activate_objfun (pf_model s) (S j)) = Raise err \/
  exists tc v,
    solver (activate_objfun (pf_model s) (S j)) = Ok (tc, v) /\
    obj_list_value (set_values (activate_objfun (pf_model s) (S j)) v) (S j) = Raise err.
Proof.
  unfold payoff_diag_step. destruct (Nat.eqb_spec i j) as [<-|Hne]; [|discriminate].
  unfold solve_model.
  destruct (solver (activate_objfun (pf_model s) (S i))) as [[tc v]|err'];
    cbn [rbind]; [|intros [= ->]; now left].
  intros H. right. exists tc, v. split; [reflexivity|].
  destruct (obj_list_value (set_values (activate_objfun (pf_model s) (S i)) v) (S i))
    as [x|err'] eqn:Hx; [|cbn [rbind] in H; congruence].
  cbn [rbind] in H.
  rewrite (obj_list_value_ext _ (set_values (activate_objfun (pf_model s) (S i)) v))
    in H by reflexivity.
  rewrite Hx in H. discriminate.
Qed.

Lemma payoff_offdiag_step_ok (s s1 : Payoff) (i j : nat) :
  payoff_offdiag_step solver s (i, j) = Ok s1 ->
  (i = j /\ s1 = s) \/
  (i <> j /\ exists d tc v x,
     mat_get (payoff_table s) i i = Ok d /\
     solver (pinned_model s i j d) = Ok (tc, v) /\
     obj_list_value (set_values (pinned_model s i j d) v) (S j) = Ok x /\
     s1 = mkPayoff (deactivate_objfun (set_aux_con (set_values (pinned_model s i j d) v) None)
                                      (S j))
                   (mat_set (payoff_table s) i j (option_map (fun q => py_round q 10) x))
                   (ideal_point s) (Some tc)).
Proof.
  unfold payoff_offdiag_step. destruct (Nat.eqb_spec i j) as [<-|Hne]; cbn [negb].
  - intros [= <-]. left. auto.
  - intros H. right. split; [exact Hne|].
    destruct (mat_get (payoff_table s) i i) as [d|err] eqn:Hd; [|discriminate].
    cbn [rbind] in H. unfold solve_model in H. fold (pinned_model s i j d) in H.
    destruct (solver (pinned_model s i j d)) as [[tc v]|err] eqn:Hs; [|discriminate].
    cbn [rbind] in H.
    destruct (obj_list_value (set_values (pinned_model s i j d) v) (S j))
      as [x|err] eqn:Hx; [|discriminate].
    cbn [rbind] in H. injection H as <-.
    exists d, tc, v, x. auto.
Qed.

Lemma payoff_offdiag_step_raise (p : nat) (s : Payoff) (i j : nat) (err : PyError) :
  table_shape p (payoff_table s) -> (i < p)%nat ->
  payoff_offdiag_step solver s (i, j) = Raise err ->
  exists d,
    mat_get (payoff_table s) i i = Ok d /\
    (solver (pinned_model s i j d) = Raise err \/
     exists tc v,
       solver (pinned_model s i j d) = Ok (tc, v) /\
       obj_list_value (set_values (pinned_model s i j d) v) (S j) = Raise err).
Proof.
  intros Hshape Hi. unfold payoff_offdiag_step.
  destruct (Nat.eqb_spec i j) as [<-|Hne]; cbn [negb]; [discriminate|].
  destruct (mat_get_shape p (payoff_table s) i i Hshape Hi Hi) as (d & Hd).
  rewrite Hd. cbn [rbind]. unfold solve_model. fold (pinned_model s i j d).
  intros H. exists d. split; [reflexivity|].
  destruct (solver (pinned_model s i j d)) as [[tc v]|err']; cbn [rbind] in H;
    [|left; congruence].
  right. exists tc, v. split; [reflexivity|].
  destruct (obj_list_value (set_values (pinned_model s i j d) v) (S j))
    as [x|err'] eqn:Hx; cbn [rbind] in H; congruence.
Qed.

Lemma payoff_diag_step_shape (p : nat) (s s1 : Payoff) (ij : nat * nat) :
  payoff_diag_step solver s ij = Ok s1 ->
  table_shape p (payoff_table s) -> table_shape p (payoff_table s1).
Proof.
  destruct ij as [i j]. intros H Hs.
  apply payoff_diag_step_ok in H as [[_ ->]|(_ & tc & v & x & _ & _ & ->)]; [exact Hs|].
  now apply mat_set_shape.
Qed.

Lemma payoff_offdiag_step_shape (p : nat) (s s1 : Payoff) (ij : nat * nat) :
  payoff_offdiag_step solver s ij = Ok s1 ->
  table_shape p (payoff_table s) -> table_shape p (payoff_table s1).
Proof.
  destruct ij as [i j]. intros H Hs.
  apply payoff_offdiag_step_ok in H as [[_ ->]|(_ & d & tc & v & x & _ & _ & _ & ->)];
    [exact Hs|].
  now apply mat_set_shape.
Qed.

(** *** What the table holds *)

Lemma written_from_set_ne (t : list (list float)) (i j i0 j0 : nat) (x : float) :
  (i, j) <> (i0, j0) -> (i, i) <> (i0, j0) ->
  written_from solver t i j -> written_from solver (mat_set t i0 j0 x) i j.
Proof.
  intros Hij Hii (m_in & tc & v & y & Hs & Ha & Hd & Hy & Hg).
  exists m_in, tc, v, y. split; [exact Hs|]. split; [exact Ha|]. split.
  - intros Hne. destruct (Hd Hne) as (d & Hd1 & Hd2). exists d.
    split; [|exact Hd2]. now rewrite mat_get_set_ne.
  - split; [exact Hy|]. now rewrite mat_get_set_ne.
Qed.

Lemma active_activate (m : Model) (k : nat) : k ∈ active (activate_objfun m k).
Proof. unfold activate_objfun. simpl. set_solver. Qed.

(** After the first double loop every diagonal entry is written from its
    solve. *)
Lemma payoff_diag_written (p : nat) (s s1 : Payoff) :
  for_each (payoff_diag_step solver) s (index_pairs p) = Ok s1 ->
  table_shape p (payoff_table s) ->
  table_shape p (payoff_table s1) /\
  forall i, (i < p)%nat -> written_from solver (payoff_table s1) i i.
Proof.
  intros Hrun Hshape.
  assert (H : table_shape p (payoff_table s1) /\
              forall i, In (i, i) (index_pairs p) -> written_from solver (payoff_table s1) i i).
  { apply (for_each_ok_inv
             (fun pre s0 => table_shape p (payoff_table s0) /\
                            forall i, In (i, i) pre -> written_from solver (payoff_table s0) i i)
             _ _ _ _ Hrun).
    - split; [exact Hshape|]. intros i [].
    - intros pre [i j] post s0 s2 Hsplit (Hsh & Hd) Hstep.
      assert (Hij : In (i, j) (index_pairs p))
        by (rewrite Hsplit; apply in_or_app; right; now left).
      apply index_pairs_In in Hij as [Hi Hj].
      split; [now apply (payoff_diag_step_shape p s0 s2 (i, j))|].
      apply payoff_diag_step_ok in Hstep
        as [[Hne ->]|(<- & tc & v & x & Hsolve & Hx & ->)].
      + intros i' Hi'. apply in_app_or in Hi' as [Hi'|[[= -> ->]|[]]];
          [now apply Hd|contradiction].
      + cbn [payoff_table].
        assert (Hnew : written_from solver (mat_set (payoff_table s0) i i x) i i).
        { exists (activate_objfun (pf_model s0) (S i)), tc, v, x.
          split; [exact Hsolve|]. split; [apply active_activate|].
          split; [intros Hn; now contradiction Hn|].
          split; [exact Hx|].
          rewrite Nat.eqb_refl. now apply (mat_get_set_eq p). }
        intros i' Hi'. destruct (Nat.eq_dec i' i) as [->|Hn]; [exact Hnew|].
        apply in_app_or in Hi' as [Hi'|[[= ->]|[]]]; [|contradiction].
        apply written_from_set_ne; [congruence|congruence|now apply Hd]. }
  destruct H as [H1 H2]. split; [exact H1|].
  intros i Hi. apply H2. now apply index_pairs_In_iff.
Qed.

(** After the second double loop every entry is. *)
Lemma payoff_offdiag_written (p : nat) (s s1 : Payoff) :
  for_each (payoff_offdiag_step solver) s (index_pairs p) = Ok s1 ->
  table_shape p (payoff_table s) ->
  (forall i, (i < p)%nat -> written_from solver (payoff_table s) i i) ->
  table_shape p (payoff_table s1) /\
  forall i j, (i < p)%nat -> (j < p)%nat -> written_from solver (payoff_table s1) i j.
Proof.
  intros Hrun Hshape Hdiag.
  assert (H : table_shape p (payoff_table s1) /\
              (forall i, (i < p)%nat -> written_from solver (payoff_table s1) i i) /\
              forall i j, In (i, j) (index_pairs p) -> i <> j ->
                written_from solver (payoff_table s1) i j).
  { apply (for_each_ok_inv
             (fun pre s0 => table_shape p (payoff_table s0) /\
                            (forall i, (i < p)%nat -> written_from solver (payoff_table s0) i i) /\
                            forall i j, In (i, j) pre -> i <> j ->
                              written_from solver (payoff_table s0) i j)
             _ _ _ _ Hrun).
    - split; [exact Hshape|]. split; [exact Hdiag|]. intros i j [].
    - intros pre [i j] post s0 s2 Hsplit (Hsh & Hd & Hoff) Hstep.
      assert (Hij : In (i, j) (index_pairs p))
        by (rewrite Hsplit; apply in_or_app; right; now left).
      apply index_pairs_In in Hij as [Hi Hj].
      split; [now apply (payoff_offdiag_step_shape p s0 s2 (i, j))|].
      apply payoff_offdiag_step_ok in Hstep
        as [[<- ->]|(Hne & d & tc & v & x & Hget & Hsolve & Hx & ->)].
      + split; [exact Hd|].
        intros i' j' Hin Hn. apply in_app_or in Hin as [Hin|[[= -> ->]|[]]];
          [now apply Hoff|contradiction].
      + cbn [payoff_table]. split.
        * intros i' Hi'. apply written_from_set_ne; [congruence|congruence|now apply Hd].
        * assert (Hnew : written_from solver
                           (mat_set (payoff_table s0) i j
                                    (option_map (fun q => py_round q 10) x)) i j).
          { exists (pinned_model s0 i j d), tc, v, x.
            split; [exact Hsolve|].
            split; [unfold pinned_model; simpl; set_solver|].
            split.
            - intros _. exists d. split; [|reflexivity].
              rewrite mat_get_set_ne by congruence. exact Hget.
            - split; [exact Hx|].
              destruct (Nat.eqb_spec i j) as [->|_]; [now contradiction Hne|].
              now apply (mat_get_set_eq p). }
          intros i' j' Hin Hn.
          destruct (decide ((i', j') = (i, j))) as [[= -> ->]|Hdiff]; [exact Hnew|].
          apply in_app_or in Hin as [Hin|[[= -> ->]|[]]]; [|now contradiction Hdiff].
          apply written_from_set_ne; [exact Hdiff|congruence|now apply Hoff]. }
  destruct H as (H1 & H2 & H3). split; [exact H1|].
  intros i j Hi Hj. destruct (Nat.eq_dec i j) as [<-|Hne]; [now apply H2|].
  apply H3; [now apply index_pairs_In_iff|exact Hne].
Qed.

Lemma create_payoff_table_written (m : Model) (pf : Payoff) :
  create_payoff_table solver m = Ok pf ->
  table_shape (num_obj m) (payoff_table pf) /\
  forall i j, (i < num_obj m)%nat -> (j < num_obj m)%nat ->
    written_from solver (payoff_table pf) i j.
Proof.
  unfold create_payoff_table. intros H.
  destruct (for_each (payoff_diag_step solver) _ (index_pairs (num_obj m)))
    as [s1|err] eqn:H1; [|discriminate].
  cbn [rbind] in H.
  apply payoff_diag_written in H1 as [Hsh Hd]; [|apply initial_table_shape].
  now apply (payoff_offdiag_written (num_obj m) s1 pf).
Qed.

(** *** Where an exception of the stage comes from *)

Lemma create_payoff_table_raise (m : Model) (err : PyError) :
  create_payoff_table solver m = Raise err ->
  (exists m_in, solver m_in = Raise err) \/
  (err = ValueError /\
   exists m_in tc v k,
     solver m_in = Ok (tc, v) /\ obj_list_value (set_values m_in v) k = Raise ValueError).
Proof.
  unfold create_payoff_table. intros H.
  destruct (for_each (payoff_diag_step solver) _ (index_pairs (num_obj m)))
    as [s1|err'] eqn:H1; cbn [rbind] in H.
  - apply payoff_diag_written in H1 as [Hsh _]; [|apply initial_table_shape].
    apply (for_each_raise_inv (fun _ s0 => table_shape (num_obj m) (payoff_table s0)))
      in H as (pre & [i j] & post & s0 & Hsplit & Hs0 & Hb).
    + assert (Hij : In (i, j) (index_pairs (num_obj m)))
        by (rewrite Hsplit; apply in_or_app; right; now left).
      apply index_pairs_In in Hij as [Hi Hj].
      apply (payoff_offdiag_step_raise (num_obj m)) in Hb
        as (d & _ & [Hb|(tc & v & Hb1 & Hb2)]); try assumption.
      * left. eauto.
      * right. pose proof (obj_list_value_error _ _ _ Hb2) as ->.
        split; [reflexivity|]. eauto 6.
    + exact Hsh.
    + intros pre x post s0 s2 _ Hs0 Hb. now apply (payoff_offdiag_step_shape _ s0 s2 x).
  - injection H as ->.
    apply (for_each_raise_inv (fun _ _ => True)) in H1
      as (pre & [i j] & post & s0 & _ & _ & Hb); [|exact I|auto].
    apply payoff_diag_step_raise in Hb as [Hb|(tc & v & Hb1 & Hb2)].
    + left. eauto.
    + right. pose proof (obj_list_value_error _ _ _ Hb2) as ->.
      split; [reflexivity|]. eauto 6.
Qed.

End PayoffSteps.

(** *** Two solvers that differ in the termination conditions they report *)

Section PayoffStatus.

Variables solver solver' : Model -> Result (TerminationCondition * VarValues).
Hypothesis same_answers : forall m, same_answer (solver m) (solver' m).

Lemma payoff_diag_step_same (s s' : Payoff) (ij : nat * nat) :
  same_payoff s s' ->
  same_outcome (payoff_diag_step solver s ij) (payoff_diag_step solver' s' ij).
Proof.
  intros (Hm & Ht & Hi). destruct ij as [i j]. unfold payoff_diag_step.
  destruct (Nat.eqb i j); [|repeat split; assumption].
  rewrite Hm, Ht, Hi. unfold solve_model.
  pose proof (same_answers (activate_objfun (pf_model s') (S j))) as Hv.
  destruct (solver _) as [[tc v]|err], (solver' _) as [[tc' v']|err'];
    simpl in Hv; try contradiction; subst; cbn [rbind]; [|reflexivity].
  destruct (obj_list_value _ _) as [x|err]; cbn [rbind]; [|reflexivity].
  repeat split.
Qed.

Lemma payoff_offdiag_step_same (s s' : Payoff) (ij : nat * nat) :
  same_payoff s s' ->
  same_outcome (payoff_offdiag_step solver s ij) (payoff_offdiag_step solver' s' ij).
Proof.
  intros (Hm & Ht & Hi). destruct ij as [i j]. unfold payoff_offdiag_step.
  destruct (negb (Nat.eqb i j)); [|repeat split; assumption].
  rewrite Hm, Ht, Hi.
  destruct (mat_get (payoff_table s') i i) as [d|err]; cbn [rbind]; [|reflexivity].
  unfold solve_model.
  pose proof (same_answers (set_aux_con (activate_objfun (pf_model s') (S j))
                                         (Some (S i, d)))) as Hv.
  destruct (solver _) as [[tc v]|err], (solver' _) as [[tc' v']|err'];
    simpl in Hv; try contradiction; subst; cbn [rbind]; [|reflexivity].
  destruct (obj_list_value _ _) as [x|err]; cbn [rbind]; [|reflexivity].
  repeat split.
Qed.

Lemma payoff_loop_same (body body' : Payoff -> nat * nat -> Result Payoff)
    (l : list (nat * nat)) (s s' : Payoff) :
  (forall s0 s0' ij, same_payoff s0 s0' -> same_outcome (body s0 ij) (body' s0' ij)) ->
  same_payoff s s' ->
  same_outcome (for_each body s l) (for_each body' s' l).
Proof.
  intros Hstep. revert s s'. induction l as [|ij l IH]; intros s s' H; cbn [for_each].
  - exact H.
  - pose proof (Hstep s s' ij H) as H1.
    destruct (body s ij) as [s1|err], (body' s' ij) as [s1'|err'];
      simpl in H1; try contradiction; cbn [rbind].
    + now apply IH.
    + exact H1.
Qed.

Lemma create_payoff_table_same (m : Model) :
  same_outcome (create_payoff_table solver m) (create_payoff_table solver' m).
Proof.
  unfold create_payoff_table.
  pose proof (payoff_loop_same (payoff_diag_step solver) (payoff_diag_step solver')
                (index_pairs (num_obj m))
                (mkPayoff m (repeat (repeat None (num_obj m)) (num_obj m))
                          (repeat (Some 0%Q) (num_obj m)) None)
                (mkPayoff m (repeat (repeat None (num_obj m)) (num_obj m))
                          (repeat (Some 0%Q) (num_obj m)) None)
                payoff_diag_step_same) as H1.
  destruct (for_each (payoff_diag_step solver) _ _) as [s1|err],
           (for_each (payoff_diag_step solver') _ _) as [s1'|err'];
    cbn [rbind]; try (now apply H1; repeat split).
  - apply payoff_loop_same; [apply payoff_offdiag_step_same|].
    apply H1. repeat split.
  - exfalso. apply H1. repeat split.
  - exfalso. apply H1. repeat split.
Qed.

End PayoffStatus.

(** C7, as the code has it: during payoff-table construction the
    termination condition of a solve is not inspected.  (1) Two solvers that
    raise on the same models and leave the same values make the stage end
    alike, with the same exception or with the same table, ideal point and
    model, whatever termination conditions they report.  (2) When the stage
    returns, the table has [p x p] entries and each one is the value that
    the objective of its column has after a solver call, whatever the
    termination condition of that call: as it is on the diagonal, rounded to
    ten decimals off it.  (3) When the stage raises, the exception is the
    solver's own, or the [ValueError] of evaluating an objective after a
    solve that left a variable without a value.  (4) With a solver that
    always returns and leaves values at which the objectives can be
    evaluated, the stage returns. *)
Theorem C7_payoff_table_ignores_termination_condition
    (solver solver' : Model -> Result (TerminationCondition * VarValues)) (m : Model) :
  (forall m0, same_answer (solver m0) (solver' m0)) ->
  same_outcome (create_payoff_table solver m) (create_payoff_table solver' m) /\
  (forall pf, create_payoff_table solver m = Ok pf ->
     table_shape (num_obj m) (payoff_table pf) /\
     forall i j, (i < num_obj m)%nat -> (j < num_obj m)%nat ->
       written_from solver (payoff_table pf) i j) /\
  (forall err, create_payoff_table solver m = Raise err ->
     (exists m_in, solver m_in = Raise err) \/
     (err = ValueError /\
      exists m_in tc v k,
        solver m_in = Ok (tc, v) /\
        obj_list_value (set_values m_in v) k = Raise ValueError)) /\
  (returns_values solver (num_obj m) -> exists pf, create_payoff_table solver m = Ok pf).
Proof.
  intros Hsame. split; [now apply create_payoff_table_same|].
  split; [apply create_payoff_table_written|].
  split; [apply create_payoff_table_raise|].
  intros Hret.
  destruct (create_payoff_table solver m) as [pf|err] eqn:Hrun; [eauto|].
  exfalso.
  unfold create_payoff_table in Hrun.
  destruct (for_each (payoff_diag_step solver) _ (index_pairs (num_obj m)))
    as [s1|err'] eqn:H1; cbn [rbind] in Hrun.
  - apply payoff_diag_written in H1 as [Hsh _]; [|apply initial_table_shape].
    apply (for_each_raise_inv (fun _ s0 => table_shape (num_obj m) (payoff_table s0)))
      in Hrun as (pre & [i j] & post & s0 & Hsplit & Hs0 & Hb).
    + assert (Hij : In (i, j) (index_pairs (num_obj m)))
        by (rewrite Hsplit; apply in_or_app; right; now left).
      apply index_pairs_In in Hij as [Hi Hj].
      apply (payoff_offdiag_step_raise solver (num_obj m)) in Hb
        as (d & _ & Hb); try assumption.
      destruct (Hret (pinned_model s0 i j d)) as (tc & v & Hs & Hv).
      destruct (Hv (S j)) as (x & Hx); [lia|].
      destruct Hb as [Hb|(tc' & v' & Hb1 & Hb2)]; congruence.
    + exact Hsh.
    + intros pre x post s0 s2 _ Hs0 Hb. now apply (payoff_offdiag_step_shape solver _ s0 s2 x).
  - apply (for_each_raise_inv (fun _ _ => True)) in H1
      as (pre & [i j] & post & s0 & Hsplit & _ & Hb); [|exact I|auto].
    assert (Hij : In (i, j) (index_pairs (num_obj m)))
      by (rewrite Hsplit; apply in_or_app; right; now left).
    apply index_pairs_In in Hij as [Hi Hj].
    apply payoff_diag_step_raise in Hb.
    destruct (Hret (activate_objfun (pf_model s0) (S j))) as (tc & v & Hs & Hv).
    destruct (Hv (S j)) as (x & Hx); [lia|].
    destruct Hb as [Hb|(tc' & v' & Hb1 & Hb2)]; congruence.
Qed.

Lemma C7_payoff_table_witness :
  (forall m0, same_answer (fails_when_pinned m0) (reported_as optimal fails_when_pinned m0)) /\
  same_outcome (create_payoff_table fails_when_pinned (blank_model 2))
               (create_payoff_table (reported_as optimal fails_when_pinned) (blank_model 2)) /\
  exists pf,
    create_payoff_table fails_when_pinned (blank_model 2) = Ok pf /\
    written_from fails_when_pinned (payoff_table pf) 0 1.
Proof.
  assert (H : forall m0, same_answer (fails_when_pinned m0)
                                     (reported_as optimal fails_when_pinned m0)).
  { intros m0. unfold reported_as, same_answer.
    destruct (fails_when_pinned m0) as [[tc v]|err]; reflexivity. }
  split; [exact H|].
  destruct (C7_payoff_table_ignores_termination_condition
              fails_when_pinned (reported_as optimal fails_when_pinned) (blank_model 2) H)
    as (H1 & H2 & _).
  split; [exact H1|].
  destruct (create_payoff_table fails_when_pinned (blank_model 2)) as [pf|err] eqn:Hrun;
    [|vm_compute in Hrun; discriminate].
  exists pf. split; [reflexivity|].
  apply (H2 pf eq_refl); simpl; lia.
Defined.

(** C7 as stated fails: with a solver that reports infeasibility for every
    solve under the auxiliary constraint, the builder raises nothing; it
    writes the off-diagonal entries from the values the model still holds
    (entry [0, 1] becomes 1, where the pinned optimum of the model is 0) and
    returns the filled table. *)
Lemma C7_infeasible_solve_does_not_abort :
  exists pf,
    create_payoff_table fails_when_pinned (blank_model 2) = Ok pf /\
    pf_result pf = Some infeasible /\
    finite_table 2 (payoff_table pf) /\
    exists q, mat_get (payoff_table pf) 0 1 = Ok (Some q) /\ (q == 1)%Q.
Proof.
  eexists. split; [vm_compute; reflexivity|].
  split; [reflexivity|]. split.
  - split; [reflexivity|]. repeat constructor; discriminate.
  - eexists. split; reflexivity.
Qed.

(** The stage does abort when the first solve of all loads nothing: no
    variable holds a value yet, and evaluating the objective raises. *)
Lemma payoff_stage_needs_values (tc : TerminationCondition) (p : nat) :
  (1 <= p)%nat ->
  create_payoff_table (no_optimum tc) (blank_model p) = Raise ValueError.
Proof.
  intros Hp. unfold create_payoff_table. cbn [num_obj blank_model].
  destruct p as [|p]; [lia|].
  unfold index_pairs, objfun_iter. cbn [seq flat_map map app for_each].
  unfold payoff_diag_step at 1. cbn [Nat.eqb]. reflexivity.
Qed.

(** ** Range and grid: what [find_objfun_range] returns *)

Section RangeGrid.

Variables (p : nat) (g : Z) (nadir : option (list Q)) (table : list (list float)).

(** The loop writes, for every secondary objective [i], the outcome of
    [objfun_row] at position [i - 1] of both arrays. *)
Lemma find_objfun_range_rows (rg : RangeGrid) :
  find_objfun_range p g nadir table = Ok rg ->
  length (e_grid rg) = (p - 1)%nat /\ length (obj_range rg) = (p - 1)%nat /\
  forall i, (1 <= i < p)%nat ->
    exists row r, objfun_row g nadir table i = Ok (row, r) /\
                  nth_error (e_grid rg) (i - 1) = Some row /\
                  nth_error (obj_range rg) (i - 1) = Some r.
Proof.
  unfold find_objfun_range.
  destruct ((p =? 0)%nat || (g <? 0)); [discriminate|].
  set (s0 := mkRangeGrid _ _).
  assert (Hgen : forall rest pre s,
            objfun_iter2 p = pre ++ rest ->
            (length (e_grid s) = (p - 1)%nat /\ length (obj_range s) = (p - 1)%nat /\
             forall i, In i pre ->
               exists row r, objfun_row g nadir table i = Ok (row, r) /\
                  nth_error (e_grid s) (i - 1) = Some row /\
                  nth_error (obj_range s) (i - 1) = Some r) ->
            for_each (find_objfun_range_row g nadir table) s rest = Ok rg ->
            length (e_grid rg) = (p - 1)%nat /\ length (obj_range rg) = (p - 1)%nat /\
            forall i, In i (objfun_iter2 p) ->
               exists row r, objfun_row g nadir table i = Ok (row, r) /\
                  nth_error (e_grid rg) (i - 1) = Some row /\
                  nth_error (obj_range rg) (i - 1) = Some r).
  { induction rest as [|x rest IH]; intros pre s Hsplit (Hle & Hlr & Hpre) Hrun.
    - simpl in Hrun. injection Hrun as <-. rewrite app_nil_r in Hsplit.
      rewrite Hsplit. auto.
    - simpl in Hrun. unfold find_objfun_range_row at 1 in Hrun.
      destruct (objfun_row g nadir table x) as [[row r]|err] eqn:Hrow; [|discriminate].
      simpl in Hrun.
      assert (Hx : In x (objfun_iter2 p)) by (rewrite Hsplit; apply in_or_app; right; now left).
      assert (Hnd : List.NoDup (pre ++ x :: rest)) by (rewrite <- Hsplit; unfold objfun_iter2; apply List.seq_NoDup).
      apply in_seq in Hx.
      apply (IH (pre ++ [x])) in Hrun; [exact Hrun|now rewrite <- app_assoc|].
      simpl. rewrite !length_insert. split; [exact Hle|]. split; [exact Hlr|].
      intros i Hi. apply in_app_or in Hi as [Hi|[<-|[]]].
      + destruct (Hpre i Hi) as (row' & r' & Hr' & He' & Ho').
        assert (Hne : x <> i).
        { intros ->. apply List.NoDup_remove_2 in Hnd. apply Hnd.
          apply in_or_app. now left. }
        assert (Hi' : In i (objfun_iter2 p)) by (rewrite Hsplit; apply in_or_app; now left).
        apply in_seq in Hi'.
        exists row', r'. split; [exact Hr'|].
        rewrite <- !list_lookup_nth_error.
        rewrite !list_lookup_insert_ne by lia.
        rewrite !list_lookup_nth_error. split; assumption.
      + exists row, r. split; [exact Hrow|].
        rewrite <- !list_lookup_nth_error.
        rewrite !list_lookup_insert_eq by lia. split; reflexivity. }
  intros Hrun.
  destruct (Hgen (objfun_iter2 p) [] s0 eq_refl) as (H1 & H2 & H3); [|exact Hrun|].
  - subst s0. simpl. rewrite repeat_length, List.length_map. unfold objfun_iter2.
    rewrite List.length_seq. repeat split. intros i [].
  - split; [exact H1|]. split; [exact H2|].
    intros i Hi. apply H3. apply in_seq. lia.
Qed.

(** The loop raises only where [objfun_row] does. *)
Lemma find_objfun_range_ok :
  (1 <= p)%nat -> 0 <= g ->
  (forall i, (1 <= i < p)%nat -> exists x, objfun_row g nadir table i = Ok x) ->
  exists rg, find_objfun_range p g nadir table = Ok rg.
Proof.
  intros Hp Hg Hrows. unfold find_objfun_range.
  destruct (Nat.eqb_spec p 0); [lia|]. destruct (Z.ltb_spec g 0); [lia|]. simpl.
  match goal with |- exists rg, for_each _ ?s0 _ = _ =>
    destruct (for_each_inv (fun _ => True) (find_objfun_range_row g nadir table)
                (objfun_iter2 p) s0) as (rg & Hrun & _) end.
  - exact I.
  - intros i s Hi _. apply in_seq in Hi.
    unfold find_objfun_range_row.
    destruct (Hrows i) as (x & ->); [lia|]. simpl. eauto.
  - eauto.
Qed.

End RangeGrid.
(** ** Range and grid of a finite payoff table *)

Lemma column_finite (p : nat) (table : list (list float)) (i : nat) :
  finite_table p table -> (i < p)%nat ->
  exists col, column table i = Ok col /\ length col = p /\
              Forall (fun x : float => x <> None) col.
Proof.
  intros [Hlen Hrows] Hi. unfold column.
  destruct (for_each_prefix_inv
              (fun pre (acc : list float) =>
                 length acc = length pre /\ Forall (fun x : float => x <> None) acc)
              (fun acc row => let* x := index row i in Ok (acc ++ [x]))
              table []) as (col & Hcol & Hl & Hall).
  - split; [reflexivity|constructor].
  - intros pre row post acc Htab [Hl Hall].
    rewrite List.Forall_forall in Hrows.
    destruct (Hrows row) as [Hrl Hrf].
    { rewrite Htab. apply in_or_app. right. now left. }
    destruct (index_lt row i) as (x & -> & Hx); [lia|]. simpl.
    eexists. split; [reflexivity|].
    rewrite !List.length_app, Hl. split; [reflexivity|].
    apply List.Forall_app. split; [exact Hall|].
    constructor; [|constructor].
    rewrite List.Forall_forall in Hrf. now apply Hrf.
  - exists col. rewrite Hl, Hlen in *. auto.
Qed.

Lemma np_min_finite (col : list float) :
  col <> [] -> Forall (fun x : float => x <> None) col -> exists q, np_min col = Some q.
Proof.
  intros Hne Hall. unfold np_min.
  destruct col as [|x rest]; [contradiction|]. simpl.
  inversion Hall as [|? ? Hx Hrest]; subst.
  destruct x as [a|]; [|contradiction]. clear Hall Hne Hx.
  revert a. induction rest as [|y rest IH]; intros a; simpl; [eauto|].
  inversion Hrest as [|? ? Hy Hrest']; subst.
  destruct y as [b|]; [|contradiction]. apply IH. exact Hrest'.
Qed.

Lemma np_max_finite (col : list float) :
  col <> [] -> Forall (fun x : float => x <> None) col -> exists q, np_max col = Some q.
Proof.
  intros Hne Hall. unfold np_max.
  destruct col as [|x rest]; [contradiction|].
  inversion Hall as [|? ? Hx Hrest]; subst.
  destruct x as [a|]; [|contradiction]. clear Hall Hne Hx.
  revert a. induction rest as [|y rest IH]; intros a; simpl; [eauto|].
  inversion Hrest as [|? ? Hy Hrest']; subst.
  destruct y as [b|]; [|contradiction]. apply IH. exact Hrest'.
Qed.

(** The integer written into [obj_range]. *)
Lemma range_entry_fit (a b : Q) :
  int64_min <= py_int (a - b)%Q <= int64_max ->
  range_entry (Some a) (Some b) = Ok (py_int (a - b)%Q).
Proof.
  intros [H1 H2]. unfold range_entry.
  destruct (Z.leb_spec int64_min (py_int (a - b)%Q)); [|lia].
  destruct (Z.leb_spec (py_int (a - b)%Q) int64_max); [|lia]. reflexivity.
Qed.

(** On a finite table the body of the range loop takes the maximum of the
    column and the chosen minimum, stores their truncated difference [r] if
    it fits, and computes the breakpoints [mn + j * (r / (g - 1))]. *)
Lemma objfun_row_finite (p : nat) (g : Z) (nadir : option (list Q))
    (table : list (list float)) (i : nat) :
  finite_table p table -> nadir_ok p nadir -> (1 <= i < p)%nat ->
  exists mn mx col,
    column table i = Ok col /\ np_max col = Some mx /\
    chosen_minimum nadir col i = Some mn /\
    objfun_row g nadir table i =
      (let* r := range_entry (Some mx) (Some mn) in
       Ok (map (breakpoint (Some mn) r g) (py_range 0 g), r)).
Proof.
  intros Hfin Hnadir Hi. unfold objfun_row.
  destruct (column_finite p table i Hfin) as (col & Hcol & Hl & Hall); [lia|].
  rewrite Hcol. simpl.
  assert (Hne : col <> []) by (intros ->; simpl in Hl; lia).
  destruct (np_max_finite col Hne Hall) as (mx & Hmx).
  destruct (np_min_finite col Hne Hall) as (mn0 & Hmn0).
  assert (Hmin : exists mn,
    chosen_minimum nadir col i = Some mn /\
    match nadir with
    | Some ((_ :: _) as nd) => let* x := index nd (i - 1) in Ok (Some x)
    | _ => match col with [] => Raise ValueError | _ :: _ => Ok (np_min col) end
    end = Ok (Some mn)).
  { destruct nadir as [[|n0 nd]|].
    - destruct col; [contradiction|]. simpl. rewrite Hmn0. eauto.
    - simpl in Hnadir. cbv beta iota.
      destruct (index_lt (n0 :: nd) (i - 1)) as (x & Hx & _); [simpl; lia|].
      rewrite Hx. exists x. split; [|reflexivity].
      unfold chosen_minimum. unfold index in Hx.
      destruct (nth_error (n0 :: nd) (i - 1)); congruence.
    - destruct col; [contradiction|]. simpl. rewrite Hmn0. eauto. }
  destruct Hmin as (mn & Hch & ->). simpl.
  destruct col as [|c0 col']; [contradiction|]. rewrite Hmx. simpl.
  exists mn, mx, (c0 :: col'). repeat split; assumption.
Qed.

(** On a finite table whose ranges fit the integer array the range stage
    returns. *)
Lemma find_objfun_range_fit (p : nat) (g : Z) (nadir : option (list Q))
    (table : list (list float)) :
  (1 <= p)%nat -> 0 <= g -> finite_table p table -> nadir_ok p nadir ->
  ranges_fit p nadir table ->
  exists rg, find_objfun_range p g nadir table = Ok rg.
Proof.
  intros Hp Hg Hfin Hnadir Hfit.
  apply find_objfun_range_ok; [exact Hp|exact Hg|].
  intros i Hi.
  destruct (objfun_row_finite p g nadir table i Hfin Hnadir Hi)
    as (mn & mx & col & Hcol & Hmx & Hmn & ->).
  rewrite range_entry_fit by (apply (Hfit i col); assumption).
  simpl. eauto.
Qed.

(** ** C5: the breakpoints of a row *)

Lemma breakpoint_value (mn : Q) (r g j : Z) :
  g - 1 <> 0 ->
  breakpoint (Some mn) r g j =
    Some (mn + inject_Z j * (inject_Z r / inject_Z (g - 1)))%Q.
Proof.
  intros Hg. unfold breakpoint. destruct (Z.eqb_spec (g - 1) 0); [contradiction|reflexivity].
Qed.


(** C5 fails on the code when a range is not a whole number: [obj_range] is
    an array of integers, so the difference 2 - 0.5 is stored as 1, and with
    two grid points the breakpoints of the row are 0.5 and 1.5; the last
    column is not the maximum 2 of the payoff column. *)
Theorem C5_fractional_range_is_truncated :
  column fractional_table 1 = Ok [Some (1 # 2); Some 2]%Q /\
  np_min [Some (1 # 2); Some 2]%Q = Some (1 # 2)%Q /\
  np_max [Some (1 # 2); Some 2]%Q = Some 2%Q /\
  find_objfun_range 2 2 None fractional_table =
    Ok (mkRangeGrid [[Some (1 # 2); Some (3 # 2)]]%Q [1]) /\
  ~ (3 # 2 == 2)%Q.
Proof. repeat split. discriminate. Qed.

(** ** The augmented problem *)

Lemma add_constraints_frame (os : list nat) (m : Model) :
  let m' := fold_left (fun acc o => set_con_list acc (con_list acc ++ [S o])) os m in
  Os m' = Os m /\ penalty m' = penalty m /\ values m' = values m /\
  e_param m' = e_param m.
Proof.
  revert m. induction os as [|o os IH]; intros m; simpl; [repeat split|].
  destruct (IH (set_con_list m (con_list m ++ [S o]))) as (H1 & H2 & H3 & H4).
  simpl in *. repeat split; assumption.
Qed.

Lemma convert_opt_prob_spec (p : nat) (rng : list Z) (m : Model) :
  length rng = (p - 1)%nat ->
  exists m', convert_opt_prob p rng m = Ok m' /\
             Os m' = map S (objfun_iter2 p) /\
             values m' = mkVarValues (obj_val (values m)) (fun _ => None) /\
             penalty m' = penalty m ++ map (added_term rng) (objfun_iter2 p).
Proof.
  intros Hlen. unfold convert_opt_prob.
  set (m2 := set_e_param (new_slack (set_Os m (map S (objfun_iter2 p)))) (fun _ => None)).
  set (body := fun (acc : Model) (o : nat) =>
                 if negb (Nat.eqb o 0) then
                   let* d := index rng (o - 1) in
                   Ok (set_penalty acc (penalty acc ++ [mkPenaltyTerm (rank_weight o) (S o) d]))
                 else Ok acc).
  assert (Hloop : exists m3, for_each body m2 (seq 0 p) = Ok m3 /\
            Os m3 = map S (objfun_iter2 p) /\
            values m3 = mkVarValues (obj_val (values m)) (fun _ => None) /\
            penalty m3 = penalty m ++ map (added_term rng) (objfun_iter2 p)).
  { destruct p as [|n].
    - exists m2. repeat split. simpl. now rewrite app_nil_r.
    - change (seq 0 (S n)) with (0%nat :: seq 1 n). simpl for_each.
      unfold objfun_iter2. replace (S n - 1)%nat with n in * by lia.
      destruct (for_each_prefix_inv
                  (fun pre acc => Os acc = map S (seq 1 n) /\
                                  values acc = mkVarValues (obj_val (values m)) (fun _ => None) /\
                                  penalty acc = penalty m ++ map (added_term rng) pre)
                  body (seq 1 n) m2) as (m3 & Hrun & HP).
      + subst m2. unfold objfun_iter2. simpl.
        replace (n - 0)%nat with n by lia. repeat split. now rewrite app_nil_r.
      + intros pre o post acc Hseq (HOs & Hv & Hpen).
        assert (Ho : In o (seq 1 n)) by (rewrite Hseq; apply in_or_app; right; now left).
        apply in_seq in Ho. unfold body.
        destruct (Nat.eqb_spec o 0); [lia|]. simpl.
        destruct (nth_error rng (o - 1)) as [d|] eqn:Hd.
        * unfold index. rewrite Hd. simpl. eexists. split; [reflexivity|].
          simpl. repeat split; try assumption.
          rewrite Hpen, List.map_app, <- app_assoc. simpl. unfold added_term.
          now rewrite (nth_error_nth _ _ 0 Hd).
        * apply nth_error_None in Hd. lia.
      + exists m3. split; [exact Hrun|]. exact HP. }
  destruct Hloop as (m3 & -> & HOs & Hv & Hpen). simpl.
  eexists. split; [reflexivity|].
  destruct (add_constraints_frame (seq 1 (p - 1)) m3) as (H1 & H2 & H3 & _).
  rewrite H1, H2, H3. repeat split; assumption.
Qed.

(** ** C8: a range that is zero *)

(** C8, as the code has it: a zero range is not detected.  On a fully
    written payoff table whose ranges fit the integer array the range stage
    returns; and whenever it returns, the builder returns too, and for every
    stored range that is zero the row of breakpoints is constant (every
    breakpoint is the chosen minimum of that objective) and the builder has
    added to objective 1 a slack term whose divisor is that zero range. *)
Theorem C8_zero_range_is_not_detected
    (p : nat) (g : Z) (nadir : option (list Q)) (table : list (list float)) (m : Model) :
  (2 <= p)%nat -> 2 <= g -> finite_table p table -> nadir_ok p nadir ->
  (ranges_fit p nadir table -> exists rg, find_objfun_range p g nadir table = Ok rg) /\
  forall rg, find_objfun_range p g nadir table = Ok rg ->
    exists m',
      convert_opt_prob p (obj_range rg) m = Ok m' /\
      forall k, nth_error (obj_range rg) k = Some 0 ->
        (exists col mn row,
           column table (S k) = Ok col /\ chosen_minimum nadir col (S k) = Some mn /\
           nth_error (e_grid rg) k = Some row /\
           length row = Z.to_nat g /\ constant_row mn row) /\
        In (mkPenaltyTerm (rank_weight (S k)) (S (S k)) 0) (penalty m').
Proof.
  intros Hp Hg Hfin Hnadir. split.
  { intros Hfit. apply find_objfun_range_fit; try assumption; lia. }
  intros rg Hrg.
  destruct (find_objfun_range_rows p g nadir table rg Hrg) as (Hle & Hlr & Hrows).
  destruct (convert_opt_prob_spec p (obj_range rg) m Hlr) as (m' & Hm' & _ & _ & Hpen).
  exists m'. split; [exact Hm'|].
  intros k Hk.
  assert (Hkp : (k < p - 1)%nat).
  { rewrite <- Hlr. apply nth_error_Some. congruence. }
  destruct (Hrows (S k)) as (row & r & Hrow & He & Ho); [lia|].
  replace (S k - 1)%nat with k in * by lia.
  assert (r = 0) by congruence. subst r.
  destruct (objfun_row_finite p g nadir table (S k) Hfin Hnadir)
    as (mn & mx & col & Hcol & _ & Hmn & Hrow'); [lia|].
  rewrite Hrow in Hrow'.
  destruct (range_entry (Some mx) (Some mn)) as [r|err]; [|discriminate].
  simpl in Hrow'. injection Hrow' as Hrow' Hr0.
  split.
  - exists col, mn, row. split; [exact Hcol|]. split; [exact Hmn|]. split; [exact He|].
    subst row.
    rewrite List.length_map, py_range_length, Z.sub_0_r. split; [reflexivity|].
    unfold constant_row. apply List.Forall_forall. intros x Hx.
    apply List.in_map_iff in Hx as (j & <- & _).
    rewrite <- Hr0, breakpoint_value by lia.
    eexists. split; [reflexivity|].
    unfold Qdiv. change (inject_Z 0) with 0%Q.
    now rewrite Qmult_0_l, Qmult_0_r, Qplus_0_r.
  - rewrite Hpen. apply in_or_app. right.
    apply List.in_map_iff. exists (S k). split.
    + unfold added_term. replace (S k - 1)%nat with k by lia.
      now rewrite (nth_error_nth _ _ 0 Hk).
    + apply in_seq. lia.
Qed.

Lemma C8_zero_range_witness :
  (2 <= 2)%nat /\ 2 <= 2 /\ finite_table 2 flat_table /\ nadir_ok 2 None /\
  exists m',
    convert_opt_prob 2 [0] (blank_model 2) = Ok m' /\
    forall k, nth_error [0] k = Some 0 ->
      (exists col mn row,
         column flat_table (S k) = Ok col /\ chosen_minimum None col (S k) = Some mn /\
         nth_error [[Some 1%Q; Some 1%Q]] k = Some row /\
         length row = Z.to_nat 2 /\ constant_row mn row) /\
      In (mkPenaltyTerm (rank_weight (S k)) (S (S k)) 0) (penalty m').
Proof.
  assert (H1 : (2 <= 2)%nat) by lia.
  assert (H2 : 2 <= 2) by lia.
  assert (H3 : finite_table 2 flat_table).
  { split; [reflexivity|]. repeat constructor; discriminate. }
  assert (H4 : nadir_ok 2 None) by exact I.
  split; [exact H1|]. split; [exact H2|]. split; [exact H3|]. split; [exact H4|].
  apply (proj2 (C8_zero_range_is_not_detected 2 2 None flat_table (blank_model 2) H1 H2 H3 H4)
               (mkRangeGrid [[Some 1; Some 1]]%Q [0])).
  reflexivity.
Defined.

(** C8 as stated fails: on a payoff table whose column of objective 2 is
    constant the range stage raises nothing, it returns the range 0 and the
    constant row, and the builder returns a model whose added term has the
    divisor 0. *)
Lemma C8_zero_range_raises_no_error :
  find_objfun_range 2 2 None flat_table = Ok (mkRangeGrid [[Some 1; Some 1]]%Q [0]) /\
  (exists m', convert_opt_prob 2 [0] (blank_model 2) = Ok m' /\
              penalty m' = [mkPenaltyTerm 1 2 0]) /\
  (forall err, find_objfun_range 2 2 None flat_table <> Raise err).
Proof.
  split; [reflexivity|]. split.
  - eexists. split; reflexivity.
  - intros err. discriminate.
Qed.

(** ** One pass of the grid loop *)

Lemma same_frame_refl (m : Model) : same_frame m m.
Proof. repeat split. Qed.

Lemma set_epsilons_ok (p : nat) (g : Z) (e : list (list float)) (c : list Z) (m : Model) :
  grid_shape p g e -> length c = (p - 1)%nat -> Forall (fun x => 0 <= x < g) c ->
  exists m', set_epsilons p e c m = Ok m' /\
             same_frame m m' /\ values m' = values m /\ active m' = active m.
Proof.
  intros [He Hrows] Hc Hall. unfold set_epsilons.
  apply (for_each_inv (fun m' => same_frame m m' /\ values m' = values m /\
                                   active m' = active m)).
  - split; [apply same_frame_refl|split; reflexivity].
  - intros o acc Ho (Hf & Hv & Ha). apply in_seq in Ho. unfold grid_value.
    destruct (index_lt c (o - 1)) as (k & -> & Hk); [lia|].
    destruct (index_lt e (o - 1)) as (row & -> & Hrow); [lia|]. simpl.
    rewrite List.Forall_forall in Hall, Hrows.
    specialize (Hall k Hk). specialize (Hrows row Hrow).
    destruct (np_index_in_range row k) as (v & ->); [lia|]. simpl.
    eexists. split; [reflexivity|].
    split; [|split; assumption]. exact Hf.
Qed.

Lemma set_epsilons_frame (p : nat) (e : list (list float)) (c : list Z) (m m1 : Model) :
  set_epsilons p e c m = Ok m1 ->
  same_frame m m1 /\ values m1 = values m /\ active m1 = active m.
Proof.
  intros Hrun. unfold set_epsilons in Hrun.
  apply (for_each_ok_inv
           (fun _ acc => same_frame m acc /\ values acc = values m /\ active acc = active m)
           _ _ _ _ Hrun).
  - split; [apply same_frame_refl|split; reflexivity].
  - intros pre o post acc acc1 _ (Hf & Hv & Ha) Hbody.
    destruct (grid_value e c o) as [v|err]; [|discriminate]. simpl in Hbody.
    injection Hbody as <-. simpl. split; [exact Hf|split; assumption].
Qed.

(** *** The parameters after [set_epsilons] *)

Lemma set_epsilons_params (p : nat) (e : list (list float)) (c : list Z) (m m1 : Model) :
  set_epsilons p e c m = Ok m1 ->
  (forall o, In o (objfun_iter2 p) -> grid_value e c o = Ok (e_param m1 (S o))) /\
  (forall k, ~ In k (map S (objfun_iter2 p)) -> e_param m1 k = e_param m k).
Proof.
  unfold set_epsilons.
  assert (Hgen : forall rest pre acc,
            objfun_iter2 p = pre ++ rest ->
            ((forall o, In o pre -> grid_value e c o = Ok (e_param acc (S o))) /\
             (forall k, ~ In k (map S (objfun_iter2 p)) -> e_param acc k = e_param m k)) ->
            for_each (fun acc o => let* v := grid_value e c o in Ok (assign_e acc (S o) v))
                     acc rest = Ok m1 ->
            (forall o, In o (objfun_iter2 p) -> grid_value e c o = Ok (e_param m1 (S o))) /\
            (forall k, ~ In k (map S (objfun_iter2 p)) -> e_param m1 k = e_param m k)).
  { induction rest as [|x rest IH]; intros pre acc Hsplit [Hin Hout] Hrun.
    - simpl in Hrun. injection Hrun as <-. rewrite app_nil_r in Hsplit.
      split; [|exact Hout]. intros o Ho. apply Hin. now rewrite <- Hsplit.
    - simpl in Hrun.
      destruct (grid_value e c x) as [v|err] eqn:Hv; [|discriminate]. simpl in Hrun.
      assert (Hnd : List.NoDup (pre ++ x :: rest))
        by (rewrite <- Hsplit; unfold objfun_iter2; apply List.seq_NoDup).
      apply (IH (pre ++ [x])) in Hrun; [exact Hrun|now rewrite <- app_assoc|].
      split.
      + intros o Ho. simpl. apply in_app_or in Ho as [Ho|[<-|[]]].
        * destruct (Nat.eqb_spec o x) as [->|_].
          { exfalso. apply List.NoDup_remove_2 in Hnd.
            apply Hnd. apply in_or_app. now left. }
          now apply Hin.
        * now rewrite Nat.eqb_refl.
      + intros k Hk. simpl. destruct (Nat.eqb_spec k (S x)) as [->|_].
        * exfalso. apply Hk. apply List.in_map. rewrite Hsplit.
          apply in_or_app. right. now left.
        * now apply Hout. }
  intros Hrun. apply (Hgen (objfun_iter2 p) [] m eq_refl); [|exact Hrun].
  split; [intros o []|reflexivity].
Qed.

(** The breakpoint read at a component that is not negative. *)
Lemma grid_value_nth (e : list (list float)) (c : list Z) (o : nat) (v : float) :
  Forall (fun x => 0 <= x) c -> grid_value e c o = Ok v ->
  v = nth (Z.to_nat (nth (o - 1) c 0)) (nth (o - 1) e []) None.
Proof.
  intros Hc. unfold grid_value, index.
  destruct (nth_error c (o - 1)) as [k|] eqn:Hk; [|discriminate]. cbn [rbind].
  destruct (nth_error e (o - 1)) as [row|] eqn:Hrow; [|discriminate]. cbn [rbind].
  rewrite (nth_error_nth _ _ 0 Hk), (nth_error_nth _ _ [] Hrow).
  assert (Hk0 : 0 <= k).
  { rewrite List.Forall_forall in Hc. apply Hc. eapply nth_error_In. exact Hk. }
  unfold np_index.
  destruct (Z.leb_spec 0 k); [|lia]. cbn [andb].
  destruct (Z.ltb_spec k (Z.of_nat (length row))).
  - unfold index. destruct (nth_error row (Z.to_nat k)) as [x|] eqn:Hx; [|discriminate].
    intros [= <-]. now rewrite (nth_error_nth _ _ None Hx).
  - destruct (Z.ltb_spec k 0); [lia|]. rewrite andb_false_r. discriminate.
Qed.

Lemma secondary_index (p k : nat) : In k (map S (objfun_iter2 p)) <-> (2 <= k <= p)%nat.
Proof.
  unfold objfun_iter2. rewrite List.in_map_iff. split.
  - intros (o & <- & Ho). apply in_seq in Ho. lia.
  - intros Hk. exists (k - 1)%nat. split; [lia|]. apply in_seq. lia.
Qed.

(** The model that a pass hands to the solver. *)
Lemma set_epsilons_solve_input (p : nat) (e : list (list float)) (c : list Z) (m m1 : Model) :
  Forall (fun x => 0 <= x) c -> set_epsilons p e c m = Ok m1 ->
  solve_input p e c m (activate_objfun m1 1).
Proof.
  intros Hc Heps.
  destruct (set_epsilons_frame p e c m m1 Heps) as (Hf & Hv & Ha).
  destruct (set_epsilons_params p e c m m1 Heps) as (Hin & Hout).
  split; [exact Hf|]. split; [exact Hv|]. split; [simpl; now rewrite Ha|]. split.
  - intros o Ho. simpl. apply (grid_value_nth e c o _ Hc). apply Hin.
    unfold objfun_iter2. apply in_seq. lia.
  - intros k Hk. simpl. apply Hout. now rewrite secondary_index.
Qed.

(** *** The log *)

Lemma solved_indices_snoc (lg : list LogEntry) (c : list Z) (cand : Candidate) (j : Z) :
  solved_indices (lg ++ [LogSolved c cand j]) = solved_indices lg ++ [c].
Proof. unfold solved_indices. now rewrite List.filter_app, List.map_app. Qed.

Lemma solved_indices_infeasible (lg : list LogEntry) (c : list Z) :
  solved_indices (lg ++ [LogInfeasible c]) = solved_indices lg.
Proof.
  unfold solved_indices. rewrite List.filter_app. simpl. now rewrite app_nil_r.
Qed.

(** *** The two ways a pass can end *)

Section PassTrace.

Variable opt_solve : Model -> Result (TerminationCondition * VarValues).
Variables (p : nat) (g : Z) (early_exit bypass_coefficient : bool).
Variables (e : list (list float)) (rng : list Z).

(** A pass that does not raise leaves everything but the skip counter as it
    was, or makes one solve that returns, stores its termination condition
    and the values it leaves, appends one candidate and writes one solved
    line for [c] in the log. *)
Lemma explore_step_trace (s s' : Explorer) (c : list Z) :
  explore_step opt_solve p g early_exit bypass_coefficient e rng s c = Ok s' ->
  (models_solved s' = models_solved s /\ pareto_sols_temp s' = pareto_sols_temp s /\
   log s' = log s /\ flag s' = flag s /\ ex_model s' = ex_model s) \/
  (exists m1 tc v cand,
     set_epsilons p e c (ex_model s) = Ok m1 /\
     opt_solve (activate_objfun m1 1) = Ok (tc, v) /\
     ex_model s' = set_values (activate_objfun m1 1) v /\
     ex_result s' = Some tc /\
     record_solution p rng (ex_model s') = Ok cand /\
     models_solved s' = S (models_solved s) /\
     pareto_sols_temp s' = pareto_sols_temp s ++ [cand] /\
     solved_indices (log s') = solved_indices (log s) ++ [c]).
Proof.
  unfold explore_step.
  destruct (start_jump g c s) as [j|err] eqn:Hj; [|discriminate]. simpl.
  destruct (Z.ltb_spec 0 j).
  - intros [= <-]. left. repeat split.
  - destruct (set_epsilons p e c (ex_model s)) as [m1|err] eqn:Heps; [|discriminate].
    simpl. unfold solve_model.
    destruct (opt_solve (activate_objfun m1 1)) as [[tc v]|err] eqn:Hsolve; [|discriminate].
    cbn [rbind].
    assert (Hlog : forall fl lg,
      (if early_exit && negb (is_optimal tc)
       then let* fl := flag_infeasible g c (flag s) in Ok (fl, log s ++ [LogInfeasible c])
       else if bypass_coefficient
            then let* fl := flag_bypass p g rng c (set_values (activate_objfun m1 1) v) (flag s) in
                 Ok (fl, log s)
            else Ok (flag s, log s)) = Ok (fl, lg) ->
      solved_indices lg = solved_indices (log s)).
    { intros fl lg. destruct (early_exit && negb (is_optimal tc)).
      - destruct (flag_infeasible g c (flag s)); [|discriminate]. simpl.
        intros [= _ <-]. apply solved_indices_infeasible.
      - destruct bypass_coefficient.
        + destruct (flag_bypass _ _ _ _ _ _); [|discriminate]. simpl. now intros [= _ <-].
        + now intros [= _ <-]. }
    match goal with |- (let* fl_lg := ?x in _) = _ -> _ =>
      destruct x as [[fl lg]|err]; [|discriminate] end.
    specialize (Hlog fl lg eq_refl).
    cbn [rbind].
    destruct (record_solution p rng (set_values (activate_objfun m1 1) v))
      as [cand|err] eqn:Hrec; [|discriminate]. cbn [rbind].
    destruct (next_jump g c fl j) as [j'|err]; [|discriminate]. cbn [rbind].
    intros [= <-]. right. exists m1, tc, v, cand.
    cbn [ex_model ex_result models_solved pareto_sols_temp log].
    split; [reflexivity|]. split; [exact Hsolve|]. split; [reflexivity|].
    split; [reflexivity|].
    split; [exact Hrec|]. split; [reflexivity|]. split; [reflexivity|].
    now rewrite solved_indices_snoc, Hlog.
Qed.

End PassTrace.

(** ** C4: without pruning every grid index is solved *)

Section Unpruned.

Variable opt_solve : Model -> Result (TerminationCondition * VarValues).
Variables (p : nat) (g : Z) (e : list (list float)) (rng : list Z).

(** With both flags off and no flag set, a pass is its solve: it returns
    exactly when the bounds can be set, the solver returns and a candidate
    can be computed, and it leaves the skip state untouched. *)
Lemma explore_step_unpruned (s : Explorer) (c : list Z) :
  bypass_jump s = 0 -> flag s = ∅ ->
  explore_step opt_solve p g false false e rng s c =
    (let* m1 := set_epsilons p e c (ex_model s) in
     let* tc_v := opt_solve (activate_objfun m1 1) in
     let '(tc, v) := tc_v in
     let* cand := record_solution p rng (set_values (activate_objfun m1 1) v) in
     Ok (mkExplorer (set_values (activate_objfun m1 1) v) 0 (S (models_solved s)) ∅
                    (pareto_sols_temp s ++ [cand]) (Some tc)
                    (log s ++ [LogSolved c cand 0]))).
Proof.
  intros Hj Hfl. unfold explore_step, start_jump.
  rewrite Hfl. unfold flag_get at 1. rewrite lookup_empty. simpl. rewrite Hj. simpl.
  destruct (set_epsilons p e c (ex_model s)) as [m1|err]; [|reflexivity]. cbn [rbind].
  unfold solve_model.
  destruct (opt_solve (activate_objfun m1 1)) as [[tc v]|err]; [|reflexivity]. cbn [rbind].
  destruct (record_solution p rng (set_values (activate_objfun m1 1) v)) as [cand|err];
    [|reflexivity].
  cbn [rbind]. unfold next_jump, flag_get. rewrite lookup_empty. reflexivity.
Qed.

(** An unpruned run that returns has made the solves of its indices in
    turn. *)
Lemma unpruned_run_solves (cs : list (list Z)) (s ex : Explorer) :
  (forall c, In c cs -> Forall (fun x => 0 <= x) c) ->
  bypass_jump s = 0 -> flag s = ∅ ->
  for_each (explore_step opt_solve p g false false e rng) s cs = Ok ex ->
  models_solved ex = (models_solved s + length cs)%nat /\
  solved_indices (log ex) = solved_indices (log s) ++ cs /\
  exists cands,
    pareto_sols_temp ex = pareto_sols_temp s ++ cands /\
    solves_in_turn opt_solve p e rng (ex_model s) cs cands (ex_model ex).
Proof.
  revert s. induction cs as [|c cs IH]; intros s Hcs Hj Hfl; cbn [for_each].
  - intros [= <-]. split; [simpl; lia|]. split; [now rewrite app_nil_r|].
    exists []. split; [now rewrite app_nil_r|constructor].
  - rewrite explore_step_unpruned by assumption.
    destruct (set_epsilons p e c (ex_model s)) as [m1|err] eqn:Heps; [|discriminate].
    cbn [rbind].
    destruct (opt_solve (activate_objfun m1 1)) as [[tc v]|err] eqn:Hsolve; [|discriminate].
    cbn [rbind].
    destruct (record_solution p rng (set_values (activate_objfun m1 1) v))
      as [cand|err] eqn:Hrec; [|discriminate].
    cbn [rbind]. intros Hrun.
    apply IH in Hrun as (Hn & Hlog & cands & Hc & Hturn); try reflexivity.
    + cbn [ex_model models_solved pareto_sols_temp log] in Hn, Hlog, Hc, Hturn.
      split; [simpl; lia|]. split.
      { rewrite Hlog, solved_indices_snoc, <- app_assoc. reflexivity. }
      exists (cand :: cands). split; [now rewrite Hc, <- app_assoc|].
      apply (turn_solve opt_solve p e rng (ex_model s) m1 (ex_model ex) c cs tc v cand cands);
        try assumption.
      apply set_epsilons_solve_input; [|exact Heps]. apply Hcs. now left.
    + intros c' Hc'. apply Hcs. now right.
Qed.

(** When the solves of the indices succeed in turn, the unpruned run
    returns. *)
Lemma unpruned_run_returns (cs : list (list Z)) (m m' : Model) (cands : list Candidate) :
  solves_in_turn opt_solve p e rng m cs cands m' ->
  forall s, ex_model s = m -> bypass_jump s = 0 -> flag s = ∅ ->
  exists ex,
    for_each (explore_step opt_solve p g false false e rng) s cs = Ok ex /\
    ex_model ex = m' /\ pareto_sols_temp ex = pareto_sols_temp s ++ cands.
Proof.
  induction 1 as [m|m m1 m' c cs tc v cand cands Heps Hin Hsolve Hrec Hturn IH];
    intros s Hm Hj Hfl; cbn [for_each].
  - exists s. split; [reflexivity|]. split; [exact Hm|now rewrite app_nil_r].
  - rewrite explore_step_unpruned by assumption.
    rewrite Hm, Heps. cbn [rbind]. rewrite Hsolve. cbn [rbind]. rewrite Hrec. cbn [rbind].
    destruct (IH (mkExplorer (set_values (activate_objfun m1 1) v) 0 (S (models_solved s)) ∅
                             (pareto_sols_temp s ++ [cand]) (Some tc)
                             (log s ++ [LogSolved c cand 0])))
      as (ex & Hrun & Hex & Hc); try reflexivity.
    exists ex. split; [exact Hrun|]. split; [exact Hex|].
    rewrite Hc. cbn. now rewrite <- app_assoc.
Qed.

End Unpruned.

(** C4: with both pruning flags disabled the grid loop solves at every
    grid index of the enumeration, in order, none skipped.  A run that
    returns has called the solver once per index, on the model of that index
    (objective 1 active, the bound of each secondary objective at the
    breakpoint of the index, the values left by the solve before), has
    stored the values each call left and recorded one candidate per call;
    its solve counter is [g^(p-1)].  And the run returns whenever these
    solver calls return and a candidate can be computed after each. *)
Theorem C4_unpruned_run_solves_every_grid_index
    (opt_solve : Model -> Result (TerminationCondition * VarValues))
    (p : nat) (g : Z) (e : list (list float)) (rng : list Z) (m : Model) :
  explorer_inputs p g e rng m ->
  (forall ex,
     discover_pareto opt_solve p g false false e rng m = Ok ex ->
     models_solved ex = (Z.to_nat g ^ (p - 1))%nat /\
     solved_indices (log ex) = grid_indices p g /\
     solves_in_turn opt_solve p e rng m (grid_indices p g)
                    (pareto_sols_temp ex) (ex_model ex)) /\
  (forall cands m',
     solves_in_turn opt_solve p e rng m (grid_indices p g) cands m' ->
     exists ex, discover_pareto opt_solve p g false false e rng m = Ok ex).
Proof.
  intros (He & Hrng & HOs). unfold discover_pareto. split.
  - intros ex Hrun.
    apply unpruned_run_solves in Hrun as (Hn & Hlog & cands & Hc & Hturn);
      try reflexivity.
    + cbn [initial_explorer ex_model models_solved pareto_sols_temp log] in Hn, Hlog, Hc, Hturn.
      simpl in Hn, Hlog, Hc. rewrite <- grid_indices_length.
      split; [exact Hn|]. split; [exact Hlog|]. now rewrite Hc.
    + intros c Hc. destruct (grid_indices_elements _ _ _ Hc) as [_ Hall].
      eapply List.Forall_impl; [|exact Hall]. cbv beta. lia.
  - intros cands m' Hturn.
    destruct (unpruned_run_returns opt_solve p g e rng _ _ _ _ Hturn (initial_explorer m))
      as (ex & Hrun & _); try reflexivity.
    eauto.
Qed.

Lemma C4_unpruned_run_witness :
  explorer_inputs 3 2 unit_grid [1; 1] (augmented_model 3 [1; 1]) /\
  exists ex,
    discover_pareto (exhaustive_solve three_points) 3 2 false false
                    unit_grid [1; 1] (augmented_model 3 [1; 1]) = Ok ex /\
    models_solved ex = (Z.to_nat 2 ^ (3 - 1))%nat /\
    solved_indices (log ex) = grid_indices 3 2 /\
    solves_in_turn (exhaustive_solve three_points) 3 unit_grid [1; 1]
                   (augmented_model 3 [1; 1]) (grid_indices 3 2)
                   (pareto_sols_temp ex) (ex_model ex).
Proof.
  assert (H : explorer_inputs 3 2 unit_grid [1; 1] (augmented_model 3 [1; 1]))
    by (repeat split; repeat constructor).
  split; [exact H|].
  destruct (discover_pareto (exhaustive_solve three_points) 3 2 false false
                            unit_grid [1; 1] (augmented_model 3 [1; 1])) as [ex|err] eqn:Hrun.
  - exists ex. split; [reflexivity|].
    apply (proj1 (C4_unpruned_run_solves_every_grid_index
                    (exhaustive_solve three_points) 3 2 unit_grid [1; 1]
                    (augmented_model 3 [1; 1]) H)).
    exact Hrun.
  - vm_compute in Hrun. discriminate.
Defined.

(** ** The stages before the explorer hand it well-formed inputs *)

Lemma objfun_row_length (g : Z) (nadir : option (list Q)) (table : list (list float))
    (i : nat) (row : list float) (r : Z) :
  objfun_row g nadir table i = Ok (row, r) -> length row = Z.to_nat g.
Proof.
  unfold objfun_row.
  destruct (column table i) as [col|]; [|discriminate]. simpl.
  destruct (match nadir with Some ((_ :: _) as nd) => _ | _ => _ end) as [mn|];
    [|discriminate]. simpl.
  destruct (match col with [] => _ | _ :: _ => _ end) as [mx|]; [|discriminate]. simpl.
  destruct (range_entry mx mn) as [r'|]; [|discriminate]. simpl.
  intros [= <- <-]. rewrite List.length_map, py_range_length. lia.
Qed.

Lemma stages_give_explorer_inputs (p : nat) (g : Z) (nadir : option (list Q))
    (table : list (list float)) (m m' : Model) (rg : RangeGrid) :
  find_objfun_range p g nadir table = Ok rg ->
  convert_opt_prob p (obj_range rg) m = Ok m' ->
  explorer_inputs p g (e_grid rg) (obj_range rg) m'.
Proof.
  intros Hrg Hm'.
  destruct (find_objfun_range_rows p g nadir table rg Hrg) as (Hle & Hlr & Hrows).
  destruct (convert_opt_prob_spec p (obj_range rg) m Hlr) as (m'' & Hm'' & HOs & _).
  assert (m'' = m') by congruence. subst m''.
  split; [|split; assumption]. split; [exact Hle|].
  apply List.Forall_forall. intros row Hrow.
  apply In_nth_error in Hrow as (n & Hn).
  assert (Hnp : (n < p - 1)%nat) by (rewrite <- Hle; apply nth_error_Some; congruence).
  destruct (Hrows (S n)) as (row' & r & Hobj & He & _); [lia|].
  replace (S n - 1)%nat with n in He by lia.
  assert (row' = row) by congruence. subst row'.
  exact (objfun_row_length _ _ _ _ _ _ Hobj).
Qed.

(** ** C9: index tuples of length one *)

(** With two objectives the index tuples have one component; the bypass
    branch reads [c[1]], the early-exit branch too. *)
Lemma flag_bypass_short_tuple (p : nat) (g : Z) (rng : list Z) (k : Z)
    (m : Model) (fl : gmap (list Z) Z) (b : list Z) :
  bypass_coefficients p g rng m = Ok b ->
  flag_bypass p g rng [k] m fl = Raise IndexError.
Proof. intros Hb. unfold flag_bypass. rewrite Hb. reflexivity. Qed.

Lemma flag_bypass_short_tuple_raises (p : nat) (g : Z) (rng : list Z) (k : Z)
    (m : Model) (fl : gmap (list Z) Z) :
  exists err, flag_bypass p g rng [k] m fl = Raise err.
Proof.
  unfold flag_bypass. destruct (bypass_coefficients p g rng m); simpl; eauto.
Qed.

Lemma flag_infeasible_short_tuple (g : Z) (k : Z) (fl : gmap (list Z) Z) :
  flag_infeasible g [k] fl = Raise IndexError.
Proof. reflexivity. Qed.

Lemma grid_indices_2_first (g : Z) :
  1 <= g -> exists rest, grid_indices 2 g = [0] :: rest.
Proof.
  intros Hg. unfold grid_indices. simpl. unfold py_range.
  replace (Z.to_nat (g - 0)) with (S (Z.to_nat (g - 1))) by lia.
  simpl. eauto.
Qed.

(** The first pass of a run with two objectives, up to the pruning
    branches. *)
Lemma first_pass_two_objectives
    (opt_solve : Model -> Result (TerminationCondition * VarValues))
    (g : Z) (early_exit bypass_coefficient : bool) (e : list (list float)) (rng : list Z)
    (m : Model) (rest : list (list Z)) :
  for_each (explore_step opt_solve 2 g early_exit bypass_coefficient e rng)
           (initial_explorer m) ([0] :: rest) =
    (let* s1 :=
       (let* m1 := set_epsilons 2 e [0] m in
        let* tc_v := opt_solve (activate_objfun m1 1) in
        let '(tc, v) := tc_v in
        let m3 := set_values (activate_objfun m1 1) v in
        let* fl_lg :=
          if early_exit && negb (is_optimal tc) then
            let* fl := flag_infeasible g [0] ∅ in Ok (fl, [LogInfeasible [0]])
          else if bypass_coefficient then
            let* fl := flag_bypass 2 g rng [0] m3 ∅ in Ok (fl, [])
          else Ok (∅, []) in
        let '(fl, lg) := fl_lg in
        let* temp_list := record_solution 2 rng m3 in
        let* jump' := next_jump g [0] fl 0 in
        Ok (mkExplorer m3 jump' 1 fl [temp_list] (Some tc)
                       (lg ++ [LogSolved [0] temp_list jump']))) in
     for_each (explore_step opt_solve 2 g early_exit bypass_coefficient e rng) s1 rest).
Proof.
  cbn [for_each]. f_equal.
  unfold explore_step, start_jump. simpl.
  unfold flag_get at 1. rewrite lookup_empty. simpl.
  destruct (set_epsilons 2 e [0] m) as [m1|err]; [|reflexivity]. cbn [rbind].
  unfold solve_model.
  destruct (opt_solve (activate_objfun m1 1)) as [[tc v]|err]; reflexivity.
Qed.

(** C9 fails on the code for two objectives: with [bypass_coefficient] on,
    the grid loop never runs to its end, whatever the solver does and
    whatever [early_exit] is; and when the first solve returns and the
    pruning branch gets as far as the index tuple (the early-exit branch
    always does; the bypass branch does when the slack has a value and its
    quotient by the step is a finite number), the exception is the
    [IndexError] of the access to [c[1]] of a tuple of length one. *)
Theorem C9_two_objectives_bypass_raises_IndexError
    (opt_solve : Model -> Result (TerminationCondition * VarValues))
    (g : Z) (e : list (list float)) (r : Z) (m : Model) (early_exit : bool) :
  1 <= g -> explorer_inputs 2 g e [r] m ->
  (exists err, discover_pareto opt_solve 2 g early_exit true e [r] m = Raise err) /\
  (forall m1 tc v,
     set_epsilons 2 e [0] m = Ok m1 ->
     opt_solve (activate_objfun m1 1) = Ok (tc, v) ->
     (early_exit = true /\ is_optimal tc = false) \/
     (exists b, bypass_count g r (slack_val v 2) = Ok b) ->
     discover_pareto opt_solve 2 g early_exit true e [r] m = Raise IndexError).
Proof.
  intros Hg (He & Hrng & HOs).
  unfold discover_pareto.
  destruct (grid_indices_2_first g Hg) as (rest & ->).
  rewrite first_pass_two_objectives.
  destruct (set_epsilons_ok 2 g e [0] m He eq_refl) as (m1 & Heps & Hf1 & _).
  { repeat constructor; lia. }
  rewrite Heps. cbn [rbind]. split.
  - destruct (opt_solve (activate_objfun m1 1)) as [[tc v]|err]; cbn [rbind]; [|eauto].
    destruct (early_exit && negb (is_optimal tc)).
    + rewrite flag_infeasible_short_tuple. cbn [rbind]. eauto.
    + destruct (flag_bypass_short_tuple_raises 2 g [r] 0
                  (set_values (activate_objfun m1 1) v) ∅) as (err & ->).
      cbn [rbind]. eauto.
  - intros m1' tc v [= <-] Hsolve Hcase. rewrite Hsolve. cbn [rbind].
    destruct (early_exit && negb (is_optimal tc)) eqn:Hee.
    + rewrite flag_infeasible_short_tuple. reflexivity.
    + destruct Hcase as [[-> Htc]|(b & Hb)].
      * rewrite Htc in Hee. discriminate.
      * rewrite (flag_bypass_short_tuple 2 g [r] 0 _ ∅ [b]); [reflexivity|].
        unfold bypass_coefficients. simpl. rewrite Hb. reflexivity.
Qed.

Lemma C9_two_objectives_witness :
  1 <= 3 /\
  explorer_inputs 2 3 [[Some 0; Some (1 # 2); Some 1]]%Q [1] (augmented_model 2 [1]) /\
  discover_pareto (exhaustive_solve two_points) 2 3 true true
                  [[Some 0; Some (1 # 2); Some 1]]%Q [1] (augmented_model 2 [1])
  = Raise IndexError.
Proof.
  assert (H1 : 1 <= 3) by lia.
  assert (H2 : explorer_inputs 2 3 [[Some 0; Some (1 # 2); Some 1]]%Q [1]
                               (augmented_model 2 [1]))
    by (repeat split; repeat constructor).
  split; [exact H1|]. split; [exact H2|].
  eapply (proj2 (C9_two_objectives_bypass_raises_IndexError
                   (exhaustive_solve two_points) 3 [[Some 0; Some (1 # 2); Some 1]]%Q 1
                   (augmented_model 2 [1]) true H1 H2)).
  - reflexivity.
  - vm_compute. reflexivity.
  - right. eexists. vm_compute. reflexivity.
Defined.

(** ** C10: a solve that ends without an optimum *)

(** C10 fails on the code with two objectives and [early_exit] on: a grid
    solve that ends without an optimum makes the early-exit branch read
    [c[1]] of a tuple of length one, the run ends with [IndexError] and no
    candidate is recorded for that grid point. *)
Theorem C10_two_objectives_early_exit_records_nothing
    (tc : TerminationCondition) (g : Z) (e : list (list float)) (rng : list Z)
    (bypass_coefficient : bool) (m : Model) :
  is_optimal tc = false -> 1 <= g -> explorer_inputs 2 g e rng m ->
  discover_pareto (no_optimum tc) 2 g true bypass_coefficient e rng m = Raise IndexError.
Proof.
  intros Htc Hg (He & Hrng & HOs).
  unfold discover_pareto.
  destruct (grid_indices_2_first g Hg) as (rest & ->).
  rewrite first_pass_two_objectives.
  destruct (set_epsilons_ok 2 g e [0] m He eq_refl) as (m1 & -> & _).
  { repeat constructor; lia. }
  cbn [rbind]. unfold no_optimum. cbn [rbind]. rewrite Htc. reflexivity.
Qed.

Lemma C10_two_objectives_witness :
  is_optimal infeasible = false /\ 1 <= 2 /\
  explorer_inputs 2 2 [unit_row] [1] (augmented_model 2 [1]) /\
  discover_pareto (no_optimum infeasible) 2 2 true false [unit_row] [1]
                  (augmented_model 2 [1]) = Raise IndexError.
Proof.
  assert (H1 : is_optimal infeasible = false) by reflexivity.
  assert (H2 : 1 <= 2) by lia.
  assert (H3 : explorer_inputs 2 2 [unit_row] [1] (augmented_model 2 [1]))
    by (repeat split; repeat constructor).
  split; [exact H1|]. split; [exact H2|]. split; [exact H3|].
  apply (C10_two_objectives_early_exit_records_nothing
           infeasible 2 [unit_row] [1] false (augmented_model 2 [1]) H1 H2 H3).
Defined.

(** ** C2: the value recorded for objective 1 *)

(** C2 fails on the code with three objectives: at grid index (1, 0) of the
    three-point model the optimum is the point (0, 1, 1) with slack 1 on
    objective 3.  The augmented value of objective 1 minus the terms the
    builder added is the true value 0, but the value recorded is -0.01: the
    recording step subtracts the slack terms without the weight
    [10^-(rank-1)] that the builder gave them.  The second pass of the grid
    loop over this model records that value. *)
Theorem C2_recorded_primary_differs_from_true_value :
  (exists v raw pen,
     exhaustive_solve three_points model_at_1_0 = Ok (optimal, v) /\
     obj_val v 1 = Some 0%Q /\
     obj_list_value (set_values model_at_1_0 v) 1 = Ok raw /\
     penalty_value (set_values model_at_1_0 v) = Ok pen /\
     round2 (fsub raw pen) = Some 0 /\
     round2 (obj_val v 1) = Some 0 /\
     record_solution 3 [1; 1] (set_values model_at_1_0 v)
       = Ok [Some (-1); Some 100; Some 100]) /\
  exists s raw pen,
    firstn 2 (grid_indices 3 2) = [[0; 0]; [1; 0]] /\
    for_each (explore_step (exhaustive_solve three_points) 3 2 false false unit_grid [1; 1])
             (initial_explorer (augmented_model 3 [1; 1])) [[0; 0]; [1; 0]] = Ok s /\
    ex_result s = Some optimal /\
    obj_val (values (ex_model s)) 1 = Some 0%Q /\
    obj_list_value (ex_model s) 1 = Ok raw /\
    penalty_value (ex_model s) = Ok pen /\
    round2 (fsub raw pen) = Some 0 /\
    pareto_sols_temp s = [[Some 100; Some 0; Some 0]; [Some (-1); Some 100; Some 100]].
Proof.
  split.
  - eexists. eexists. eexists.
    split; [vm_compute; reflexivity|].
    split; [vm_compute; reflexivity|].
    split; [vm_compute; reflexivity|].
    split; [vm_compute; reflexivity|].
    split; [vm_compute; reflexivity|].
    split; vm_compute; reflexivity.
  - eexists. eexists. eexists. split; [reflexivity|].
    split; [vm_compute; reflexivity|].
    split; [reflexivity|].
    split; [vm_compute; reflexivity|].
    split; [vm_compute; reflexivity|].
    split; [vm_compute; reflexivity|].
    split; vm_compute; reflexivity.
Qed.

(** ** Skipping *)

Section Skipping.

Variable opt_solve : Model -> Result (TerminationCondition * VarValues).
Variables (p : nat) (g : Z) (early_exit bypass_coefficient : bool).
Variables (e : list (list float)) (rng : list Z).

(** While a skip is in progress a pass solves nothing and reads nothing of
    the index: it only counts the skip down. *)
Lemma explore_step_skip (s : Explorer) (c : list Z) :
  0 < bypass_jump s ->
  explore_step opt_solve p g early_exit bypass_coefficient e rng s c = Ok (skipped s).
Proof.
  intros Hj. unfold explore_step, start_jump.
  destruct (Z.eqb_spec (bypass_jump s) 0); [lia|].
  rewrite andb_false_r. simpl.
  destruct (Z.ltb_spec 0 (bypass_jump s)); [reflexivity|lia].
Qed.

(** A skip of [length cs] steps passes over the indices [cs]. *)
Lemma explore_skip_run (cs : list (list Z)) (s : Explorer) :
  bypass_jump s = Z.of_nat (length cs) ->
  exists s',
    for_each (explore_step opt_solve p g early_exit bypass_coefficient e rng) s cs = Ok s' /\
    bypass_jump s' = 0 /\ models_solved s' = models_solved s /\
    pareto_sols_temp s' = pareto_sols_temp s /\ log s' = log s /\
    flag s' = flag s /\ ex_model s' = ex_model s.
Proof.
  revert s. induction cs as [|c cs IH]; intros s Hj; cbn [for_each].
  - exists s. repeat split. exact Hj.
  - rewrite explore_step_skip by (simpl in Hj; lia). cbn [rbind].
    destruct (IH (skipped s)) as (s' & Hrun & H0 & Hn & Hc & Hl & Hf & Hm).
    { simpl in *. lia. }
    exists s'. split; [exact Hrun|]. repeat split; assumption.
Qed.

End Skipping.

(** ** C3: the skip that follows a feasible solve, three objectives *)

Lemma seq_shift_by (n len start : nat) :
  seq (n + start) len = map (fun k => (n + k)%nat) (seq start len).
Proof.
  revert start. induction len as [|len IH]; intros start; simpl; [reflexivity|].
  f_equal. rewrite <- IH. f_equal. lia.
Qed.

Lemma py_range_app (a b c : Z) :
  a <= b <= c -> py_range a c = py_range a b ++ py_range b c.
Proof.
  intros H. unfold py_range.
  replace (Z.to_nat (c - a)) with (Z.to_nat (b - a) + Z.to_nat (c - b))%nat by lia.
  rewrite seq_app, List.map_app. f_equal.
  simpl. rewrite <- (Nat.add_0_r (Z.to_nat (b - a))) at 1.
  rewrite seq_shift_by, List.map_map. apply List.map_ext. intros k. lia.
Qed.

Lemma py_range_cons (a b : Z) : a < b -> py_range a b = a :: py_range (a + 1) b.
Proof.
  intros H. rewrite (py_range_app a (a + 1) b) by lia.
  unfold py_range at 1. replace (a + 1 - a) with 1 by lia. simpl.
  now rewrite Z.add_0_r.
Qed.

(** The row of [(c0, c1)] in the enumeration: the tuple is followed by the
    tuples [(c0 + 1, c1)], ... of the same row. *)
Lemma grid_indices_3_split (g c0 c1 k : Z) :
  0 <= c0 -> 0 <= c1 < g -> 0 <= k <= g - 1 - c0 ->
  exists pre post,
    grid_indices 3 g = pre ++ [c0; c1] :: following c0 c1 k ++ post.
Proof.
  intros Hc0 Hc1 Hk. rewrite grid_indices_first_fastest. simpl.
  rewrite app_nil_r, flat_map_map.
  set (row := fun x : Z => map (fun x0 : Z => [x0; x]) (py_range 0 g)).
  rewrite (py_range_app 0 c1 g) by lia. rewrite (py_range_cons c1 g) by lia.
  rewrite flat_map_app. cbn [flat_map].
  assert (Hrow : row c1 = map (fun x => [x; c1]) (py_range 0 c0)
                          ++ [c0; c1] :: following c0 c1 k
                          ++ map (fun x => [x; c1]) (py_range (c0 + k + 1) g)).
  { unfold row, following.
    rewrite (py_range_app 0 c0 g) by lia. rewrite (py_range_cons c0 g) by lia.
    rewrite (py_range_app (c0 + 1) (c0 + k + 1) g) by lia.
    rewrite !List.map_app. simpl. now rewrite List.map_app. }
  rewrite Hrow.
  exists (flat_map row (py_range 0 c1) ++ map (fun x => [x; c1]) (py_range 0 c0)),
         (map (fun x => [x; c1]) (py_range (c0 + k + 1) g)
          ++ flat_map row (py_range (c1 + 1) g)).
  rewrite <- !app_assoc. simpl. now rewrite <- app_assoc.
Qed.

Lemma following_length (c0 c1 k : Z) : 0 <= k -> Z.of_nat (length (following c0 c1 k)) = k.
Proof.
  intros Hk. unfold following. rewrite List.length_map, py_range_length. lia.
Qed.

(** The flags written by the bypass branch: every [(c0, i)] of the range. *)
Lemma flag_fold_lookup (c0 v : Z) (l : list Z) (fl : gmap (list Z) Z) (i : Z) :
  fl !! [c0; i] = Some v \/ In i l ->
  fold_left (fun acc x => <[[c0; x] := v]> acc) l fl !! [c0; i] = Some v.
Proof.
  revert fl. induction l as [|x l IH]; intros fl H; simpl.
  - destruct H as [H|[]]. exact H.
  - apply IH. destruct (Z.eq_dec x i) as [->|Hne].
    + left. apply lookup_insert_eq.
    + destruct H as [H|[H|H]]; [|contradiction|now right].
      left. rewrite lookup_insert_ne; [exact H|congruence].
Qed.

Lemma flag_bypass_3 (g r0 r1 c0 c1 b0 b1 : Z) (m : Model) (fl : gmap (list Z) Z) :
  bypass_count g r0 (slack_val (values m) 2) = Ok b0 ->
  bypass_count g r1 (slack_val (values m) 3) = Ok b1 ->
  flag_bypass 3 g [r0; r1] [c0; c1] m fl =
    Ok (fold_left (fun acc x => <[[c0; x] := b0 + 1]> acc) (py_range c1 (c1 + b1 + 1)) fl).
Proof.
  intros Hb0 Hb1. unfold flag_bypass, bypass_coefficients. simpl.
  rewrite Hb0. simpl. rewrite Hb1. simpl.
  generalize (py_range c1 (c1 + b1 + 1)).
  intros l. revert fl. induction l as [|x l IH]; intros fl; simpl; [reflexivity|].
  apply IH.
Qed.

Lemma Zmin_ltb (a b : Z) : (if a <? b then a else b) = Z.min a b.
Proof. destruct (Z.ltb_spec a b); lia. Qed.

(** C3, as the code has it, for three objectives: with
    [bypass_coefficient] on, take a pass at a grid index [(c0, c1)] reached
    with no skip pending, whose solve returns (with an optimum, when
    [early_exit] is on) and whose candidate can be computed.  Let [b0] and
    [b1] be the counts [int(round(slack, 10) / step)] that the bypass branch
    computes in floating point for the first and the second secondary
    objective, both not negative and below [2^53].  Then the flag [b0 + 1]
    is recorded at [(c0, c1)] and the next [min(b0, g - 1 - c0)] grid
    indices, which are the indices that follow in the row of [c1], are
    passed over without a solve and without a recorded candidate. *)
Theorem C3_bypass_skips_along_the_row
    (opt_solve : Model -> Result (TerminationCondition * VarValues))
    (g : Z) (early_exit : bool) (e : list (list float)) (r0 r1 : Z)
    (s : Explorer) (c0 c1 : Z) (m1 : Model) (tc : TerminationCondition) (v : VarValues)
    (b0 b1 : Z) (cand : Candidate) :
  0 <= c0 < g -> 0 <= c1 < g ->
  bypass_jump s = 0 -> flag_get (flag s) [c0; c1] = 0 ->
  set_epsilons 3 e [c0; c1] (ex_model s) = Ok m1 ->
  opt_solve (activate_objfun m1 1) = Ok (tc, v) ->
  early_exit = false \/ tc = optimal ->
  bypass_count g r0 (slack_val v 2) = Ok b0 ->
  bypass_count g r1 (slack_val v 3) = Ok b1 ->
  0 <= b0 < 2 ^ 53 -> 0 <= b1 < 2 ^ 53 ->
  record_solution 3 [r0; r1] (set_values (activate_objfun m1 1) v) = Ok cand ->
  let k := Z.min b0 (g - 1 - c0) in
  let step := explore_step opt_solve 3 g early_exit true e [r0; r1] in
  exists s1 s2 pre post,
    step s [c0; c1] = Ok s1 /\
    models_solved s1 = S (models_solved s) /\
    pareto_sols_temp s1 = pareto_sols_temp s ++ [cand] /\
    flag s1 !! [c0; c1] = Some (b0 + 1) /\
    grid_indices 3 g = pre ++ [c0; c1] :: following c0 c1 k ++ post /\
    for_each step s1 (following c0 c1 k) = Ok s2 /\
    models_solved s2 = models_solved s1 /\
    pareto_sols_temp s2 = pareto_sols_temp s1 /\
    bypass_jump s2 = 0.
Proof.
  intros Hc0 Hc1 Hj Hfl Heps Hsolve Hbranch Hcount0 Hcount1 Hb0 Hb1 Hrec k step.
  assert (Hk : 0 <= k <= g - 1 - c0) by (unfold k; lia).
  set (m3 := set_values (activate_objfun m1 1) v) in *.
  (* the flags after the bypass branch *)
  set (fl := fold_left (fun acc x => <[[c0; x] := b0 + 1]> acc)
                       (py_range c1 (c1 + b1 + 1)) (flag s)).
  assert (Hflc : fl !! [c0; c1] = Some (b0 + 1)).
  { apply flag_fold_lookup. right. apply py_range_In. lia. }
  (* the pass at (c0, c1) *)
  assert (Hstep : step s [c0; c1] =
            Ok (mkExplorer m3 k (S (models_solved s)) fl (pareto_sols_temp s ++ [cand])
                           (Some tc) (log s ++ [LogSolved [c0; c1] cand k]))).
  { unfold step, explore_step, start_jump.
    rewrite Hfl, Hj. simpl. rewrite Heps. simpl.
    unfold solve_model. rewrite Hsolve. cbn [rbind]. fold m3.
    assert (Hee : early_exit && negb (is_optimal tc) = false).
    { destruct Hbranch as [->| ->]; [reflexivity|apply andb_false_r]. }
    rewrite Hee.
    rewrite (flag_bypass_3 g r0 r1 c0 c1 b0 b1 m3 (flag s)) by assumption.
    fold fl. cbn [rbind]. rewrite Hrec. cbn [rbind].
    unfold next_jump, flag_get. rewrite Hflc. simpl.
    destruct (Z.eqb_spec (b0 + 1) 0); [lia|]. simpl.
    replace (b0 + 1 - 1) with b0 by lia.
    rewrite Zmin_ltb. replace (g - c0 - 1) with (g - 1 - c0) by lia. reflexivity. }
  destruct (grid_indices_3_split g c0 c1 k) as (pre & post & Hgrid); try lia.
  destruct (explore_skip_run opt_solve 3 g early_exit true e [r0; r1] (following c0 c1 k)
              (mkExplorer m3 k (S (models_solved s)) fl (pareto_sols_temp s ++ [cand])
                          (Some tc) (log s ++ [LogSolved [c0; c1] cand k])))
    as (s2 & Hrun & H0 & Hn & Hc & _).
  { simpl. symmetry. apply following_length. lia. }
  eexists. exists s2, pre, post.
  split; [exact Hstep|]. split; [reflexivity|]. split; [reflexivity|].
  split; [exact Hflc|].
  split; [exact Hgrid|]. split; [exact Hrun|].
  split; [exact Hn|]. split; [exact Hc|exact H0].
Qed.

Lemma C3_bypass_skip_witness :
  bypass_count 2 1 (slack_val corner_values 2) = Ok 1 /\
  exists s1 s2 pre post,
    explore_step (exhaustive_solve corner_points) 3 2 true true unit_grid [1; 1]
                 (initial_explorer (augmented_model 3 [1; 1])) [0; 0] = Ok s1 /\
    models_solved s1 = S (models_solved (initial_explorer (augmented_model 3 [1; 1]))) /\
    pareto_sols_temp s1 =
      pareto_sols_temp (initial_explorer (augmented_model 3 [1; 1]))
      ++ [[Some 100; Some 100; Some 0]] /\
    flag s1 !! [0; 0] = Some (1 + 1) /\
    grid_indices 3 2 = pre ++ [0; 0] :: following 0 0 (Z.min 1 (2 - 1 - 0)) ++ post /\
    for_each (explore_step (exhaustive_solve corner_points) 3 2 true true unit_grid [1; 1])
             s1 (following 0 0 (Z.min 1 (2 - 1 - 0))) = Ok s2 /\
    models_solved s2 = models_solved s1 /\
    pareto_sols_temp s2 = pareto_sols_temp s1 /\
    bypass_jump s2 = 0.
Proof.
  assert (Hb0 : bypass_count 2 1 (slack_val corner_values 2) = Ok 1)
    by (vm_compute; reflexivity).
  split; [exact Hb0|].
  apply (C3_bypass_skips_along_the_row
           (exhaustive_solve corner_points) 2 true unit_grid 1 1
           (initial_explorer (augmented_model 3 [1; 1])) 0 0
           (assign_e (assign_e (augmented_model 3 [1; 1]) 2 (Some 0%Q)) 3 (Some 0%Q))
           optimal corner_values 1 0 [Some 100; Some 100; Some 0]).
  - lia.
  - lia.
  - reflexivity.
  - reflexivity.
  - reflexivity.
  - vm_compute. reflexivity.
  - now right.
  - exact Hb0.
  - vm_compute. reflexivity.
  - lia.
  - lia.
  - vm_compute. reflexivity.
Defined.

(** C3 as stated fails in three ways.  With four objectives the flags are
    keyed by pairs, which no index triple equals: after the feasible solve
    at (0, 1, 0), where the slack of objective 2 is one whole grid step, the
    next index (1, 1, 0) is solved all the same.  With three objectives the
    slack is rounded to ten decimals before it is divided: a slack of
    0.33333333334 over a step of 1/3 has [floor(s / step) = 1], yet no index
    is passed over.  And the division is a division of floats: a slack of
    0.3 over a step of 0.1 has [floor(s / step) = 3], the quotient of the
    floats is just below 3, two indices are passed over and the third one
    is solved. *)
Lemma C3_next_index_solved_despite_slack :
  (exists s s1 s2 x,
     firstn 4 (grid_indices 4 2) = [[0; 0; 0]; [1; 0; 0]; [0; 1; 0]; [1; 1; 0]] /\
     for_each (explore_step (exhaustive_solve four_objective_points) 4 2 false true
                            [unit_row; unit_row; unit_row] [1; 1; 1])
              (initial_explorer (augmented_model 4 [1; 1; 1])) [[0; 0; 0]; [1; 0; 0]] = Ok s /\
     explore_step (exhaustive_solve four_objective_points) 4 2 false true
                  [unit_row; unit_row; unit_row] [1; 1; 1] s [0; 1; 0] = Ok s1 /\
     ex_result s1 = Some optimal /\
     slack_val (values (ex_model s1)) 2 = Some x /\
     Qfloor (x / (1 / 1)) = 1 /\
     flag s1 !! [0; 1] = Some 2 /\
     explore_step (exhaustive_solve four_objective_points) 4 2 false true
                  [unit_row; unit_row; unit_row] [1; 1; 1] s1 [1; 1; 0] = Ok s2 /\
     models_solved s2 = S (models_solved s1)) /\
  (exists s1 s2 x,
     firstn 2 (grid_indices 3 4) = [[0; 0]; [1; 0]] /\
     explore_step (exhaustive_solve third_point) 3 4 false true
                  [thirds_row; thirds_row] [1; 1]
                  (initial_explorer (augmented_model 3 [1; 1])) [0; 0] = Ok s1 /\
     ex_result s1 = Some optimal /\
     slack_val (values (ex_model s1)) 2 = Some x /\
     Qfloor (x / (1 / 3)) = 1 /\
     explore_step (exhaustive_solve third_point) 3 4 false true
                  [thirds_row; thirds_row] [1; 1] s1 [1; 0] = Ok s2 /\
     models_solved s2 = S (models_solved s1)) /\
  (exists s1 s2 x,
     firstn 4 (grid_indices 3 11) = [[0; 0]; [1; 0]; [2; 0]; [3; 0]] /\
     explore_step (exhaustive_solve tenths_point) 3 11 false true
                  [tenths_row; tenths_row] [1; 1]
                  (initial_explorer (augmented_model 3 [1; 1])) [0; 0] = Ok s1 /\
     ex_result s1 = Some optimal /\
     slack_val (values (ex_model s1)) 2 = Some x /\
     Qfloor (x / (1 / 10)) = 3 /\
     bypass_count 11 1 (Some x) = Ok 2 /\
     for_each (explore_step (exhaustive_solve tenths_point) 3 11 false true
                            [tenths_row; tenths_row] [1; 1])
              s1 [[1; 0]; [2; 0]; [3; 0]] = Ok s2 /\
     solved_indices (log s2) = [[0; 0]; [3; 0]]).
Proof.
  split; [|split].
  - eexists. eexists. eexists. eexists.
    split; [reflexivity|].
    split; [vm_compute; reflexivity|].
    split; [vm_compute; reflexivity|].
    split; [reflexivity|].
    split; [vm_compute; reflexivity|].
    split; [reflexivity|].
    split; [reflexivity|].
    split; [vm_compute; reflexivity|reflexivity].
  - eexists. eexists. eexists.
    split; [reflexivity|].
    split; [vm_compute; reflexivity|].
    split; [reflexivity|].
    split; [vm_compute; reflexivity|].
    split; [reflexivity|].
    split; [vm_compute; reflexivity|reflexivity].
  - eexists. eexists. eexists.
    split; [vm_compute; reflexivity|].
    split; [vm_compute; reflexivity|].
    split; [reflexivity|].
    split; [vm_compute; reflexivity|].
    split; [reflexivity|].
    split; [vm_compute; reflexivity|].
    split; [vm_compute; reflexivity|reflexivity].
Qed.

(** ** C1: pruned and unpruned runs *)

Lemma MOOP_init_unique (opt_solve : Model -> Result (TerminationCondition * VarValues))
    (base : Model) (g : Z) (nadir : option (list Q)) (early_exit bypass_coefficient : bool)
    (x : MOOP) :
  MOOP_init opt_solve base g nadir early_exit bypass_coefficient = Ok x ->
  unique_pareto_sols x = find_unique_sols (pareto_sols_temp (moop_explorer x)).
Proof.
  unfold MOOP_init.
  destruct (match nadir with Some _ => _ | None => _ end); [discriminate|].
  destruct (create_payoff_table opt_solve base) as [pf|]; [|discriminate]. simpl.
  destruct (find_objfun_range _ _ _ _) as [rg|]; [|discriminate]. simpl.
  destruct (convert_opt_prob _ _ _) as [m|]; [|discriminate]. simpl.
  destruct (discover_pareto _ _ _ _ _ _ _ _) as [ex|]; [|discriminate]. simpl.
  now intros [= <-].
Qed.

Lemma find_unique_sols_elem (l : list Candidate) (cand : Candidate) :
  cand ∈ find_unique_sols l <-> In cand l.
Proof.
  unfold find_unique_sols. rewrite elem_of_list_to_set. apply list_elem_of_In.
Qed.

(** C1 fails on the code with three objectives and [bypass_coefficient]
    on, for the three-point model maximised exactly over two grid points per
    objective.  Both runs return; the pruned run solves three times, the
    unpruned run four times.  The unpruned run finds the point (0, 1, 1)
    twice, at grid index (1, 0) with slack 1 on objective 3 and at (1, 1)
    with slack 0, and records it as (-0.01, 1, 1) and as (0, 1, 1): the
    recording step subtracts the slack terms without the weights of the
    builder.  The pruned run passes over (1, 1), so the tuple (0, 1, 1) is
    in the deduplicated set of the unpruned run and not in that of the
    pruned run. *)
Theorem C1_bypass_run_loses_a_recorded_tuple :
  (exists pr u,
     MOOP_init (exhaustive_solve three_points) (blank_model 3) 2 None false true = Ok pr /\
     MOOP_init (exhaustive_solve three_points) (blank_model 3) 2 None false false = Ok u /\
     models_solved (moop_explorer pr) = 3%nat /\
     models_solved (moop_explorer u) = 4%nat /\
     solved_indices (log (moop_explorer pr)) = [[0; 0]; [1; 0]; [0; 1]] /\
     solved_indices (log (moop_explorer u)) = [[0; 0]; [1; 0]; [0; 1]; [1; 1]] /\
     pareto_sols_temp (moop_explorer pr) =
       [[Some 100; Some 0; Some 0]; [Some (-1); Some 100; Some 100];
        [Some 50; Some 0; Some 100]] /\
     pareto_sols_temp (moop_explorer u) =
       [[Some 100; Some 0; Some 0]; [Some (-1); Some 100; Some 100];
        [Some 50; Some 0; Some 100]; [Some 0; Some 100; Some 100]] /\
     ([Some 0; Some 100; Some 100] ∈ unique_pareto_sols u) /\
     ([Some 0; Some 100; Some 100] ∉ unique_pareto_sols pr) /\
     unique_pareto_sols pr <> unique_pareto_sols u) /\
  (exists s2 s4,
     for_each (explore_step (exhaustive_solve three_points) 3 2 false false unit_grid [1; 1])
              (initial_explorer (augmented_model 3 [1; 1])) [[0; 0]; [1; 0]] = Ok s2 /\
     for_each (explore_step (exhaustive_solve three_points) 3 2 false false unit_grid [1; 1])
              s2 [[0; 1]; [1; 1]] = Ok s4 /\
     map (obj_val (values (ex_model s2))) [1; 2; 3]%nat = [Some 0; Some 1; Some 1]%Q /\
     map (obj_val (values (ex_model s4))) [1; 2; 3]%nat = [Some 0; Some 1; Some 1]%Q /\
     slack_val (values (ex_model s2)) 3 = Some 1%Q /\
     slack_val (values (ex_model s4)) 3 = Some 0%Q /\
     pareto_sols_temp s2 = [[Some 100; Some 0; Some 0]; [Some (-1); Some 100; Some 100]] /\
     pareto_sols_temp s4 =
       [[Some 100; Some 0; Some 0]; [Some (-1); Some 100; Some 100];
        [Some 50; Some 0; Some 100]; [Some 0; Some 100; Some 100]]).
Proof.
  split.
  - destruct (MOOP_init (exhaustive_solve three_points) (blank_model 3) 2 None false true)
      as [pr|] eqn:Hpr; [|vm_compute in Hpr; discriminate].
    destruct (MOOP_init (exhaustive_solve three_points) (blank_model 3) 2 None false false)
      as [u|] eqn:Hu; [|vm_compute in Hu; discriminate].
    exists pr, u. split; [reflexivity|]. split; [reflexivity|].
    assert (Hlp : pareto_sols_temp (moop_explorer pr) =
                  [[Some 100; Some 0; Some 0]; [Some (-1); Some 100; Some 100];
                   [Some 50; Some 0; Some 100]]).
    { vm_compute in Hpr. now injection Hpr as <-. }
    assert (Hlu : pareto_sols_temp (moop_explorer u) =
                  [[Some 100; Some 0; Some 0]; [Some (-1); Some 100; Some 100];
                   [Some 50; Some 0; Some 100]; [Some 0; Some 100; Some 100]]).
    { vm_compute in Hu. now injection Hu as <-. }
    assert (Hin : [Some 0; Some 100; Some 100] ∈ unique_pareto_sols u).
    { rewrite (MOOP_init_unique _ _ _ _ _ _ _ Hu), Hlu, find_unique_sols_elem.
      simpl. tauto. }
    assert (Hnin : [Some 0; Some 100; Some 100] ∉ unique_pareto_sols pr).
    { rewrite (MOOP_init_unique _ _ _ _ _ _ _ Hpr), Hlp, find_unique_sols_elem.
      simpl. intros [H|[H|[H|[]]]]; discriminate. }
    split; [vm_compute in Hpr; now injection Hpr as <-|].
    split; [vm_compute in Hu; now injection Hu as <-|].
    split; [vm_compute in Hpr; now injection Hpr as <-|].
    split; [vm_compute in Hu; now injection Hu as <-|].
    split; [exact Hlp|]. split; [exact Hlu|].
    split; [exact Hin|]. split; [exact Hnin|].
    intros Heq. apply Hnin. rewrite Heq. exact Hin.
  - eexists. eexists.
    split; [vm_compute; reflexivity|].
    split; [vm_compute; reflexivity|].
    split; [vm_compute; reflexivity|].
    split; [vm_compute; reflexivity|].
    split; [vm_compute; reflexivity|].
    split; [vm_compute; reflexivity|].
    split; vm_compute; reflexivity.
Qed.

(** * Further properties of the stages *)

(** ** The enumeration visits every tuple once *)

Lemma first_fastest_complete (n : nat) (l : list Z) (c : list Z) :
  length c = n -> Forall (fun x => In x l) c -> In c (first_fastest n l).
Proof.
  revert c. induction n as [|n IH]; intros c Hlen Hall.
  - destruct c; [now left|discriminate].
  - destruct c as [|x t]; [discriminate|]. simpl.
    inversion Hall as [|? ? Hx Ht]; subst.
    apply in_flat_map. exists t. split.
    + apply IH; [simpl in Hlen; lia|exact Ht].
    + apply List.in_map_iff. exists x. split; [reflexivity|exact Hx].
Qed.

Lemma first_fastest_NoDup (n : nat) (l : list Z) :
  List.NoDup l -> List.NoDup (first_fastest n l).
Proof.
  intros Hl. induction n as [|n IH]; simpl.
  - constructor; [intros []|constructor].
  - induction IH as [|t ts Hnin Hts IHts]; simpl; [constructor|].
    apply List.NoDup_app.
    + apply List.NoDup_map_NoDup_ForallPairs; [|exact Hl].
      intros a b _ _ [= ->]. reflexivity.
    + exact IHts.
    + intros c Hc Hc'.
      apply List.in_map_iff in Hc as (x & <- & _).
      apply in_flat_map in Hc' as (t' & Ht' & Hin).
      apply List.in_map_iff in Hin as (x' & [= _ <-] & _).
      exact (Hnin Ht').
Qed.

Lemma py_range_NoDup (a b : Z) : List.NoDup (py_range a b).
Proof.
  unfold py_range.
  apply List.NoDup_map_NoDup_ForallPairs; [|apply List.seq_NoDup].
  intros x y _ _ H. lia.
Qed.

(** X1: the enumeration of the grid loop holds every tuple of [p - 1]
    indices in [0, g) exactly once. *)
Theorem grid_indices_every_tuple_once (p : nat) (g : Z) :
  List.NoDup (grid_indices p g) /\
  forall c, In c (grid_indices p g) <->
            length c = (p - 1)%nat /\ Forall (fun x => 0 <= x < g) c.
Proof.
  split.
  - rewrite grid_indices_first_fastest. apply first_fastest_NoDup, py_range_NoDup.
  - intros c. split; [apply grid_indices_elements|].
    intros [Hlen Hall]. rewrite grid_indices_first_fastest.
    apply first_fastest_complete; [exact Hlen|].
    apply List.Forall_forall. intros x Hx.
    rewrite List.Forall_forall in Hall. apply py_range_In.
    specialize (Hall x Hx). lia.
Qed.

(** ** The payoff stage: ideal point and model *)

Lemma index_insert_eq {A} (l : list A) (i : nat) (x : A) :
  (i < length l)%nat -> index (<[i := x]> l) i = Ok x.
Proof. intros Hi. now rewrite index_lookup, list_lookup_insert_eq. Qed.

Lemma index_insert_ne {A} (l : list A) (i j : nat) (x : A) :
  i <> j -> index (<[i := x]> l) j = index l j.
Proof. intros Hne. now rewrite !index_lookup, list_lookup_insert_ne. Qed.

(** X2: when the payoff stage returns, whatever the termination conditions
    of its solves, the table has [p x p] entries, the ideal point has [p],
    and the ideal point is the diagonal of the payoff table. *)
Theorem payoff_ideal_point_is_the_diagonal
    (opt_solve : Model -> Result (TerminationCondition * VarValues)) (m : Model)
    (pf : Payoff) :
  create_payoff_table opt_solve m = Ok pf ->
  table_shape (num_obj m) (payoff_table pf) /\
  length (ideal_point pf) = num_obj m /\
  forall i, (i < num_obj m)%nat ->
    mat_get (payoff_table pf) i i = index (ideal_point pf) i.
Proof.
  unfold create_payoff_table.
  set (p := num_obj m).
  set (s0 := mkPayoff m (repeat (repeat None p) p) (repeat (Some 0%Q) p) None).
  destruct (for_each (payoff_diag_step opt_solve) s0 (index_pairs p)) as [s1|err] eqn:Hdiag;
    [|discriminate].
  cbn [rbind]. intros Hoff.
  assert (H1 : table_shape p (payoff_table s1) /\ length (ideal_point s1) = p /\
               forall i, In (i, i) (index_pairs p) ->
                 mat_get (payoff_table s1) i i = index (ideal_point s1) i).
  { apply (for_each_ok_inv
             (fun pre s => table_shape p (payoff_table s) /\ length (ideal_point s) = p /\
                           forall i, In (i, i) pre ->
                             mat_get (payoff_table s) i i = index (ideal_point s) i)
             _ _ _ _ Hdiag).
    - split; [apply initial_table_shape|]. split; [apply repeat_length|]. intros i [].
    - intros pre [i j] post s s' Hsplit (Hsh & Hlen & Hd) Hstep.
      assert (Hij : In (i, j) (index_pairs p))
        by (rewrite Hsplit; apply in_or_app; right; now left).
      apply index_pairs_In in Hij as [Hi Hj].
      apply payoff_diag_step_ok in Hstep
        as [[Hne ->]|(<- & tc & v & x & _ & _ & ->)].
      + split; [exact Hsh|]. split; [exact Hlen|].
        intros i' Hi'. apply in_app_or in Hi' as [Hi'|[[= -> ->]|[]]];
          [now apply Hd|contradiction].
      + cbn [payoff_table ideal_point].
        split; [now apply mat_set_shape|].
        split; [now rewrite length_insert|].
        assert (Hhere : mat_get (mat_set (payoff_table s) i i x) i i
                        = index (<[i := x]> (ideal_point s)) i).
        { rewrite (mat_get_set_eq p) by assumption.
          rewrite index_insert_eq by lia. reflexivity. }
        intros i' Hi'. apply in_app_or in Hi' as [Hi'|[[= <-]|[]]]; [|exact Hhere].
        destruct (Nat.eq_dec i' i) as [->|Hn]; [exact Hhere|].
        rewrite mat_get_set_ne by congruence.
        rewrite index_insert_ne by congruence. now apply Hd. }
  destruct H1 as (Hsh1 & Hlen1 & Hd1).
  apply (for_each_ok_inv
           (fun (_ : list (nat * nat)) s =>
              table_shape p (payoff_table s) /\ length (ideal_point s) = p /\
              forall i, (i < p)%nat ->
                mat_get (payoff_table s) i i = index (ideal_point s) i)
           _ _ _ _ Hoff).
  - split; [exact Hsh1|]. split; [exact Hlen1|].
    intros i Hi. apply Hd1. now apply index_pairs_In_iff.
  - intros pre [i j] post s s' Hsplit (Hsh & Hlen & Hd) Hstep.
    apply payoff_offdiag_step_ok in Hstep
      as [[_ ->]|(Hne & d & tc & v & x & _ & _ & _ & ->)]; [auto|].
    cbn [payoff_table ideal_point].
    split; [now apply mat_set_shape|]. split; [exact Hlen|].
    intros i' Hi'. rewrite mat_get_set_ne by congruence. now apply Hd.
Qed.

Lemma payoff_ideal_point_witness :
  exists pf,
    create_payoff_table (exhaustive_solve two_points) (blank_model 2) = Ok pf /\
    table_shape (num_obj (blank_model 2)) (payoff_table pf) /\
    length (ideal_point pf) = num_obj (blank_model 2) /\
    forall i, (i < num_obj (blank_model 2))%nat ->
      mat_get (payoff_table pf) i i = index (ideal_point pf) i.
Proof.
  destruct (create_payoff_table (exhaustive_solve two_points) (blank_model 2))
    as [pf|err] eqn:Hrun.
  - exists pf. split; [reflexivity|].
    exact (payoff_ideal_point_is_the_diagonal _ _ _ Hrun).
  - vm_compute in Hrun. discriminate.
Defined.

(** X3: on a model that has no auxiliary constraint, a payoff stage that
    returns leaves the model as it found it apart from the values and the
    active objectives: the index set, the parameter, the added terms and the
    constraint list are untouched, no auxiliary constraint remains, and every
    objective [1..p] is deactivated. *)
Theorem payoff_stage_leaves_objectives_inactive
    (opt_solve : Model -> Result (TerminationCondition * VarValues)) (m : Model)
    (pf : Payoff) :
  aux_con m = None ->
  create_payoff_table opt_solve m = Ok pf ->
  same_frame m (pf_model pf) /\ e_param (pf_model pf) = e_param m /\
  aux_con (pf_model pf) = None /\
  forall k, k ∈ active (pf_model pf) <-> k ∈ active m /\ ~ (1 <= k <= num_obj m)%nat.
Proof.
  intros Haux. unfold create_payoff_table.
  set (p := num_obj m).
  set (s0 := mkPayoff m (repeat (repeat None p) p) (repeat (Some 0%Q) p) None).
  destruct (for_each (payoff_diag_step opt_solve) s0 (index_pairs p)) as [s1|err] eqn:Hdiag;
    [|discriminate].
  cbn [rbind]. intros Hoff.
  assert (H1 : same_frame m (pf_model s1) /\ e_param (pf_model s1) = e_param m /\
               forall k, k ∈ active (pf_model s1) <->
                         k ∈ active m /\ ~ exists i, In (i, i) (index_pairs p) /\ k = S i).
  { apply (for_each_ok_inv
             (fun pre s =>
                same_frame m (pf_model s) /\ e_param (pf_model s) = e_param m /\
                forall k, k ∈ active (pf_model s) <->
                          k ∈ active m /\ ~ exists i, In (i, i) pre /\ k = S i)
             _ _ _ _ Hdiag).
    - split; [apply same_frame_refl|].
      split; [reflexivity|]. intros k. simpl. split; [|tauto].
      intros Hk. split; [exact Hk|]. intros (i & [] & _).
    - intros pre [i j] post s s' Hsplit (Hfr & He & Hact) Hstep.
      apply payoff_diag_step_ok in Hstep
        as [[Hne ->]|(<- & tc & v & x & _ & _ & ->)].
      + split; [exact Hfr|]. split; [exact He|].
        intros k. rewrite Hact. split; intros [Hk Hn]; (split; [exact Hk|]);
          intros (i' & Hin & ->); apply Hn; exists i'; (split; [|reflexivity]).
        * apply in_app_or in Hin as [Hin|[[= -> ->]|[]]]; [exact Hin|contradiction].
        * apply in_or_app. now left.
      + cbn [pf_model]. split; [exact Hfr|]. split; [exact He|].
        intros k. simpl.
        rewrite elem_of_difference, elem_of_union, !elem_of_singleton, Hact.
        split.
        * intros [[->|[Hk Hn]] Hne]; [contradiction|].
          split; [exact Hk|]. intros (i' & Hin & ->).
          apply in_app_or in Hin as [Hin|[[= ->]|[]]]; [|contradiction].
          apply Hn. eauto.
        * intros [Hk Hn]. split.
          -- right. split; [exact Hk|]. intros (i' & Hin & ->).
             apply Hn. exists i'. split; [|reflexivity]. apply in_or_app. now left.
          -- intros ->. apply Hn. exists i. split; [|reflexivity].
             apply in_or_app. right. now left. }
  destruct H1 as (Hfr1 & He1 & Hact1).
  assert (Hact1' : forall k, k ∈ active (pf_model s1) <->
                             k ∈ active m /\ ~ (1 <= k <= p)%nat).
  { intros k. rewrite Hact1. split; intros [Hk Hn]; (split; [exact Hk|]).
    - intros Hr. apply Hn. exists (k - 1)%nat. split; [|lia].
      apply index_pairs_In_iff. lia.
    - intros (i & Hin & ->). apply index_pairs_In_iff in Hin. lia. }
  assert (H2 : same_frame m (pf_model pf) /\ e_param (pf_model pf) = e_param m /\
               forall k, k ∈ active (pf_model pf) <-> k ∈ active m /\ ~ (1 <= k <= p)%nat).
  { apply (for_each_ok_inv
             (fun (pre : list (nat * nat)) s =>
                same_frame m (pf_model s) /\ e_param (pf_model s) = e_param m /\
                forall k, k ∈ active (pf_model s) <-> k ∈ active m /\ ~ (1 <= k <= p)%nat)
             _ _ _ _ Hoff).
    - auto.
    - intros pre [i j] post s s' Hsplit (Hfr & He & Hact) Hstep.
      assert (Hij : In (i, j) (index_pairs p))
        by (rewrite Hsplit; apply in_or_app; right; now left).
      apply index_pairs_In in Hij as [Hi Hj].
      apply payoff_offdiag_step_ok in Hstep
        as [[_ ->]|(Hne & d & tc & v & x & _ & _ & _ & ->)]; [auto|].
      cbn [pf_model]. split.
      { destruct Hfr as (F1 & F2 & F3 & F4 & F5). repeat split; simpl; try assumption.
        now rewrite Haux. }
      split; [exact He|].
      intros k. simpl.
      rewrite elem_of_difference, elem_of_union, !elem_of_singleton, Hact.
      split.
      * intros [[->|Hk] Hn]; [contradiction|exact Hk].
      * intros [Hk Hn]. split; [right; now split|]. intros ->. apply Hn. lia. }
  destruct H2 as (Hfr & He & Hact).
  split; [exact Hfr|]. split; [exact He|]. split; [|exact Hact].
  destruct Hfr as (_ & _ & _ & _ & F5). now rewrite F5.
Qed.

Lemma payoff_stage_inactive_witness :
  aux_con (blank_model 2) = None /\
  exists pf,
    create_payoff_table (exhaustive_solve two_points) (blank_model 2) = Ok pf /\
    same_frame (blank_model 2) (pf_model pf) /\
    e_param (pf_model pf) = e_param (blank_model 2) /\
    aux_con (pf_model pf) = None /\
    forall k, k ∈ active (pf_model pf) <->
              k ∈ active (blank_model 2) /\ ~ (1 <= k <= num_obj (blank_model 2))%nat.
Proof.
  split; [reflexivity|].
  destruct (create_payoff_table (exhaustive_solve two_points) (blank_model 2))
    as [pf|err] eqn:Hrun.
  - exists pf. split; [reflexivity|].
    exact (payoff_stage_leaves_objectives_inactive
             (exhaustive_solve two_points) (blank_model 2) pf eq_refl Hrun).
  - vm_compute in Hrun. discriminate.
Defined.

(** ** Range and grid: the rows over a fully written payoff table *)


Lemma find_objfun_range_finite (p : nat) (g : Z) (nadir : option (list Q))
    (table : list (list float)) :
  finite_table p table -> nadir_ok p nadir -> ranges_fit p nadir table ->
  (1 <= p)%nat -> 0 <= g ->
  exists rg,
    find_objfun_range p g nadir table = Ok rg /\
    length (e_grid rg) = (p - 1)%nat /\ length (obj_range rg) = (p - 1)%nat /\
    forall i, (1 <= i < p)%nat ->
      exists col mn mx,
        column table i = Ok col /\
        chosen_minimum nadir col i = Some mn /\ np_max col = Some mx /\
        nth_error (obj_range rg) (i - 1) = Some (py_int (mx - mn)) /\
        nth_error (e_grid rg) (i - 1) =
          Some (map (breakpoint (Some mn) (py_int (mx - mn)) g) (py_range 0 g)).
Proof.
  intros Hfin Hnadir Hfit Hp Hg.
  destruct (find_objfun_range_fit p g nadir table Hp Hg Hfin Hnadir Hfit) as (rg & Hrg).
  destruct (find_objfun_range_rows p g nadir table rg Hrg) as (Hle & Hlr & Hrows).
  exists rg. split; [exact Hrg|]. split; [exact Hle|]. split; [exact Hlr|].
  intros i Hi.
  destruct (objfun_row_finite p g nadir table i Hfin Hnadir Hi)
    as (mn & mx & col & Hcol & Hmx & Hmn & Hrow).
  rewrite range_entry_fit in Hrow by (apply (Hfit i col); assumption).
  cbn [rbind] in Hrow.
  destruct (Hrows i Hi) as (row & r & Hrow' & He & Ho).
  rewrite Hrow in Hrow'. injection Hrow' as <- <-.
  exists col, mn, mx. repeat split; assumption.
Qed.


(** The ranges of the two example tables fit. *)
Lemma two_by_two_ranges_fit (nadir : option (list Q)) (table : list (list float))
    (col : list float) (mx mn : Q) :
  column table 1 = Ok col -> np_max col = Some mx -> chosen_minimum nadir col 1 = Some mn ->
  int64_min <= py_int (mx - mn)%Q <= int64_max ->
  ranges_fit 2 nadir table.
Proof.
  intros Hcol Hmx Hmn Hfit i col' mx' mn' Hi Hcol' Hmx' Hmn'.
  assert (i = 1%nat) by lia. subst i.
  rewrite Hcol in Hcol'. injection Hcol' as <-.
  rewrite Hmx in Hmx'. injection Hmx' as <-.
  rewrite Hmn in Hmn'. injection Hmn' as <-. exact Hfit.
Qed.


(** X7: with a single grid point, on a fully written payoff table whose
    ranges fit the integer array, the range stage does not raise; the
    spacing is a division by [g - 1 = 0], and the one breakpoint of every row
    is not a finite number. *)
Theorem single_grid_point_is_not_finite (p : nat) (nadir : option (list Q))
    (table : list (list float)) :
  finite_table p table -> nadir_ok p nadir -> ranges_fit p nadir table -> (1 <= p)%nat ->
  exists rg,
    find_objfun_range p 1 nadir table = Ok rg /\
    e_grid rg = repeat [None] (p - 1).
Proof.
  intros Hfin Hnadir Hfit Hp.
  destruct (find_objfun_range_finite p 1 nadir table Hfin Hnadir Hfit Hp)
    as (rg & Hrg & Hle & _ & Hrows); [lia|].
  exists rg. split; [exact Hrg|].
  apply list_eq. intros k. rewrite !list_lookup_nth_error.
  destruct (Nat.lt_ge_cases k (p - 1)) as [Hk|Hk].
  - destruct (Hrows (S k)) as (col & mn & mx & _ & _ & _ & _ & He); [lia|].
    replace (S k - 1)%nat with k in He by lia. rewrite He.
    rewrite nth_error_repeat by lia. reflexivity.
  - rewrite (proj2 (nth_error_None _ _)) by lia.
    rewrite (proj2 (nth_error_None _ _)) by (rewrite repeat_length; lia).
    reflexivity.
Qed.

Lemma single_grid_point_witness :
  finite_table 2 flat_table /\ nadir_ok 2 None /\ ranges_fit 2 None flat_table /\
  (1 <= 2)%nat /\
  exists rg,
    find_objfun_range 2 1 None flat_table = Ok rg /\
    e_grid rg = repeat [None] (2 - 1).
Proof.
  assert (H1 : finite_table 2 flat_table).
  { split; [reflexivity|]. repeat constructor; discriminate. }
  assert (H2 : ranges_fit 2 None flat_table).
  { apply (two_by_two_ranges_fit None flat_table [Some 1; Some 1]%Q 1 1); try reflexivity.
    vm_compute. split; discriminate. }
  assert (H3 : (1 <= 2)%nat) by lia.
  split; [exact H1|]. split; [exact I|]. split; [exact H2|]. split; [exact H3|].
  apply (single_grid_point_is_not_finite 2 None flat_table H1 I H2 H3).
Defined.

(** ** The grid that the repository's test expects *)

(** On the payoff table of [tests/test_three_objectives.py] and ten grid
    points the ranges are 17280 and 14000 and the breakpoints, to six
    decimals, are the values of [test_e_points]. *)
Lemma test_three_objectives_e_points :
  exists rg,
    find_objfun_range 3 10 None three_objective_payoff = Ok rg /\
    obj_range rg = [17280; 14000] /\
    map (map (option_map (fun q => round_units q 6))) (e_grid rg) =
      [[Some 45180000000; Some 47100000000; Some 49020000000; Some 50940000000;
        Some 52860000000; Some 54780000000; Some 56700000000; Some 58620000000;
        Some 60540000000; Some 62460000000];
       [Some 23000000000; Some 24555555556; Some 26111111111; Some 27666666667;
        Some 29222222222; Some 30777777778; Some 32333333333; Some 33888888889;
        Some 35444444444; Some 37000000000]].
Proof. eexists. split; [vm_compute; reflexivity|]. split; vm_compute; reflexivity. Qed.

(** ** The value of the augmented objective *)

Lemma penalty_fold_value (rng : list Z) (v : VarValues) (sl : nat -> Q)
    (os : list nat) (a : Q) :
  (forall o, In o os -> nth (o - 1) rng 0 <> 0) ->
  (forall o, In o os -> slack_val v (S o) = Some (sl (S o))) ->
  exists q,
    for_each (fun acc t => let* x := penalty_term_value v t in Ok (fadd acc x))
             (Some a) (map (added_term rng) os) = Ok (Some q) /\
    (q == a + eps * fold_right (fun o acc =>
                      (rank_weight o * sl (S o)
                       / inject_Z (nth (o - 1)%nat rng 0%Z) + acc)%Q) 0%Q os)%Q.
Proof.
  revert a. induction os as [|o os IH]; intros a Hnz Hsl; simpl.
  - exists a. split; [reflexivity|]. lra.
  - assert (Ho : nth (o - 1) rng 0 <> 0) by (apply Hnz; now left).
    unfold penalty_term_value at 1. cbn [added_term pen_slack pen_weight pen_divisor].
    rewrite (Hsl o) by now left. cbn [rbind]. unfold np_div.
    destruct (Z.eqb_spec (nth (o - 1) rng 0) 0) as [H0|_]; [contradiction|]. simpl.
    destruct (IH (a + eps * (rank_weight o * sl (S o)
                             / inject_Z (nth (o - 1)%nat rng 0%Z)))%Q) as (q & Hq & Heq).
    { intros o' Ho'. apply Hnz. now right. }
    { intros o' Ho'. apply Hsl. now right. }
    exists q. split; [exact Hq|]. rewrite Heq. ring.
Qed.

Lemma nonzero_ranges_nth (p : nat) (rng : list Z) :
  length rng = (p - 1)%nat -> Forall (fun r => r <> 0) rng ->
  forall o, In o (objfun_iter2 p) -> nth (o - 1) rng 0 <> 0.
Proof.
  intros Hlen Hnz o Ho. unfold objfun_iter2 in Ho. apply in_seq in Ho.
  rewrite List.Forall_forall in Hnz. apply Hnz. apply nth_In. lia.
Qed.

(** X8: on a model whose objective 1 carries no added term, and with
    non-zero ranges, the builder does not raise, and at any values of the
    objectives and of the slack variables [2..p] the augmented objective 1
    is worth its original value plus
    [eps * sum of 10^-(o-1) * Slack[o+1] / obj_range[o-1]]; the value of
    every other objective is left as it was. *)
Theorem augmented_objective_adds_the_weighted_slacks
    (p : nat) (rng : list Z) (m : Model) (v : VarValues) :
  penalty m = [] -> length rng = (p - 1)%nat -> Forall (fun r => r <> 0) rng ->
  exists m',
    convert_opt_prob p rng m = Ok m' /\
    (forall k, k <> 1%nat ->
       obj_list_value (set_values m' v) k =
         match obj_val v k with Some a => Ok (Some a) | None => Raise ValueError end) /\
    forall a sl,
      obj_val v 1 = Some a -> slacks_are p v sl ->
      exists q,
        obj_list_value (set_values m' v) 1 = Ok (Some q) /\
        (q == a + eps * weighted_slack_sum p rng sl)%Q.
Proof.
  intros Hpen Hlen Hnz.
  destruct (convert_opt_prob_spec p rng m Hlen) as (m' & Hm' & _ & _ & Hp').
  exists m'. split; [exact Hm'|]. split.
  - intros k Hk. unfold obj_list_value. cbn [values set_values].
    destruct (obj_val v k); [|reflexivity].
    destruct (Nat.eqb_spec k 1); [contradiction|reflexivity].
  - intros a sl Ha Hsl. unfold obj_list_value. cbn [values set_values penalty].
    rewrite Ha, Hp', Hpen. simpl.
    apply penalty_fold_value; [now apply nonzero_ranges_nth|].
    intros o Ho. apply Hsl. unfold objfun_iter2 in Ho. apply in_seq in Ho. lia.
Qed.

Lemma augmented_objective_witness :
  penalty (blank_model 3) = [] /\ length [1; 2] = (3 - 1)%nat /\
  Forall (fun r => r <> 0) [1; 2] /\
  obj_val corner_values 1 = Some 1%Q /\
  slacks_are 3 corner_values (fun o => if Nat.eqb o 2 then 1%Q else 0%Q) /\
  exists m' q,
    convert_opt_prob 3 [1; 2] (blank_model 3) = Ok m' /\
    obj_list_value (set_values m' corner_values) 1 = Ok (Some q) /\
    (q == 1 + eps * weighted_slack_sum 3 [1; 2]%Z
                      (fun o => if Nat.eqb o 2 then 1%Q else 0%Q))%Q.
Proof.
  assert (H3 : Forall (fun r => r <> 0) [1; 2]) by (repeat constructor; discriminate).
  assert (H4 : obj_val corner_values 1 = Some 1%Q) by (vm_compute; reflexivity).
  assert (H5 : slacks_are 3 corner_values (fun o => if Nat.eqb o 2 then 1%Q else 0%Q)).
  { intros o Ho. assert (o = 2 \/ o = 3)%nat as [-> | ->] by lia; vm_compute; reflexivity. }
  split; [reflexivity|]. split; [reflexivity|]. split; [exact H3|].
  split; [exact H4|]. split; [exact H5|].
  destruct (augmented_objective_adds_the_weighted_slacks 3 [1; 2] (blank_model 3) corner_values
              eq_refl eq_refl H3) as (m' & Hm' & _ & Hval).
  destruct (Hval _ _ H4 H5) as (q & Hq & Heq).
  exists m', q. auto.
Defined.

(** ** Rounding of the recorded values *)

Lemma round_half_even_near (x : Q) :
  (inject_Z (round_half_even x) - (1 # 2) <= x <= inject_Z (round_half_even x) + (1 # 2))%Q.
Proof.
  unfold round_half_even.
  assert (Hlo := Qfloor_le x). assert (Hhi := Qlt_floor x).
  rewrite inject_Z_plus in Hhi. change (inject_Z 1) with 1%Q in Hhi.
  destruct (Qcompare_spec (x - inject_Z (Qfloor x)) (1 # 2)) as [Heq|Hlt|Hgt].
  - destruct (Z.even (Qfloor x)).
    + split; lra.
    + rewrite inject_Z_plus. change (inject_Z 1) with 1%Q. split; lra.
  - split; lra.
  - rewrite inject_Z_plus. change (inject_Z 1) with 1%Q. split; lra.
Qed.

(** The components of a recorded tuple after the first: one per secondary
    objective, its value rounded. *)
Lemma record_secondary (p : nat) (m : Model) (rest : list (option Z)) :
  for_each (fun acc o => let* x := obj_list_value m (S o) in Ok (acc ++ [round2 x]))
           [] (objfun_iter2 p) = Ok rest ->
  length rest = (p - 1)%nat /\
  forall o, (1 <= o < p)%nat ->
    exists a, obj_val (values m) (S o) = Some a /\
              nth_error rest (o - 1) = Some (Some (round_units a 2)).
Proof.
  intros Hrun.
  assert (H : length rest = length (objfun_iter2 p) /\
              forall i o, nth_error (objfun_iter2 p) i = Some o ->
                exists a, obj_val (values m) (S o) = Some a /\
                          nth_error rest i = Some (Some (round_units a 2))).
  { apply (for_each_ok_inv
             (fun pre acc =>
                length acc = length pre /\
                forall i o, nth_error pre i = Some o ->
                  exists a, obj_val (values m) (S o) = Some a /\
                            nth_error acc i = Some (Some (round_units a 2)))
             _ _ _ _ Hrun).
    - split; [reflexivity|]. intros [|i] o; discriminate.
    - intros pre o post acc acc' Hsplit (Hl & Hin) Hbody.
      assert (Ho : In o (objfun_iter2 p))
        by (rewrite Hsplit; apply in_or_app; right; now left).
      apply in_seq in Ho.
      unfold obj_list_value in Hbody.
      destruct (obj_val (values m) (S o)) as [a|] eqn:Ha; [|discriminate].
      destruct (Nat.eqb_spec (S o) 1) as [H1|_]; [lia|].
      assert (Hb : acc' = acc ++ [Some (round_units a 2)]).
      { cbn [rbind] in Hbody. now injection Hbody as <-. }
      subst acc'. rewrite !List.length_app, Hl. split; [reflexivity|].
      intros i o' Hi.
      destruct (Nat.lt_ge_cases i (length pre)) as [Hlt|Hge].
      + rewrite nth_error_app1 in Hi by exact Hlt.
        destruct (Hin i o' Hi) as (a' & Ha' & Hn). exists a'. split; [exact Ha'|].
        rewrite nth_error_app1 by lia. exact Hn.
      + rewrite nth_error_app2 in Hi by exact Hge.
        destruct (i - length pre)%nat as [|k] eqn:Hk; [|destruct k; discriminate].
        injection Hi as <-. exists a. split; [exact Ha|].
        rewrite nth_error_app2 by lia. rewrite Hl, Hk. reflexivity. }
  destruct H as [Hlen Hnth]. unfold objfun_iter2 in *. rewrite List.length_seq in Hlen.
  split; [exact Hlen|].
  intros o Ho. apply (Hnth (o - 1)%nat o).
  rewrite (nth_error_nth' _ 0%nat) by (rewrite List.length_seq; lia).
  rewrite seq_nth by lia. f_equal. lia.
Qed.

Lemma record_solution_parts (p : nat) (rng : list Z) (m : Model) (cand : Candidate) :
  record_solution p rng m = Ok cand ->
  exists raw corr rest,
    obj_list_value m 1 = Ok raw /\ slack_correction rng m = Ok corr /\
    for_each (fun acc o => let* x := obj_list_value m (S o) in Ok (acc ++ [round2 x]))
             [] (objfun_iter2 p) = Ok rest /\
    cand = round2 (fsub raw (fscale eps corr)) :: rest.
Proof.
  unfold record_solution.
  destruct (obj_list_value m 1) as [raw|]; [|discriminate]. cbn [rbind].
  destruct (slack_correction rng m) as [corr|]; [|discriminate]. cbn [rbind].
  destruct (for_each _ _ _) as [rest|]; [|discriminate]. cbn [rbind].
  intros [= <-]. exists raw, corr, rest. auto.
Qed.

Lemma record_solution_length (p : nat) (rng : list Z) (m : Model) (cand : Candidate) :
  record_solution p rng m = Ok cand -> length cand = S (p - 1).
Proof.
  intros H. apply record_solution_parts in H as (raw & corr & rest & _ & _ & Hrest & ->).
  apply record_secondary in Hrest as [Hlen _]. simpl. now rewrite Hlen.
Qed.

(** The recorded tuple depends on the index set, the added terms and the
    values the model holds. *)
Lemma record_solution_ext (p : nat) (rng : list Z) (m m' : Model) :
  Os m = Os m' -> penalty m = penalty m' -> values m = values m' ->
  record_solution p rng m = record_solution p rng m'.
Proof.
  intros HOs Hpen Hv. unfold record_solution, slack_correction.
  rewrite HOs, Hv, (obj_list_value_ext m m' 1 Hv Hpen).
  destruct (obj_list_value m' 1); [|reflexivity]. cbn [rbind].
  destruct (for_each _ [] (Os m')); [|reflexivity]. cbn [rbind].
  rewrite (for_each_ext
             (fun acc o => let* x := obj_list_value m (S o) in Ok (acc ++ [round2 x]))
             (fun acc o => let* x := obj_list_value m' (S o) in Ok (acc ++ [round2 x]))).
  - reflexivity.
  - intros acc o. now rewrite (obj_list_value_ext m m' (S o) Hv Hpen).
Qed.

(** X11: every secondary objective is recorded at its value rounded to two
    decimals: component [o] of the recorded tuple, counted in hundredths, is
    within half a hundredth of the value of objective [o + 1]. *)
Theorem recorded_secondary_values_are_rounded (p : nat) (rng : list Z) (m : Model)
    (cand : Candidate) (o : nat) :
  record_solution p rng m = Ok cand -> (1 <= o < p)%nat ->
  exists z a,
    nth_error cand o = Some (Some z) /\
    obj_val (values m) (S o) = Some a /\
    (inject_Z z - (1 # 2) <= a * 100 <= inject_Z z + (1 # 2))%Q.
Proof.
  intros Hrec Ho.
  apply record_solution_parts in Hrec as (raw & corr & rest & _ & _ & Hrest & ->).
  apply record_secondary in Hrest as [_ Hnth].
  destruct (Hnth o Ho) as (a & Ha & Hn).
  exists (round_units a 2), a. split.
  - destruct o as [|o]; [lia|]. simpl. simpl in Hn. now rewrite Nat.sub_0_r in Hn.
  - split; [exact Ha|].
    unfold round_units. change (inject_Z (10 ^ Z.of_nat 2)) with 100%Q.
    apply round_half_even_near.
Qed.

Lemma recorded_secondary_values_witness :
  exists cand,
    record_solution 3 [1; 1] (set_values (augmented_model 3 [1; 1]) corner_values) = Ok cand /\
    (1 <= 2 < 3)%nat /\
    exists z a,
      nth_error cand 2 = Some (Some z) /\
      obj_val (values (set_values (augmented_model 3 [1; 1]) corner_values)) 3 = Some a /\
      (inject_Z z - (1 # 2) <= a * 100 <= inject_Z z + (1 # 2))%Q.
Proof.
  destruct (record_solution 3 [1; 1] (set_values (augmented_model 3 [1; 1]) corner_values))
    as [cand|err] eqn:Hrec.
  - assert (Ho : (1 <= 2 < 3)%nat) by lia.
    exists cand. split; [reflexivity|]. split; [exact Ho|].
    exact (recorded_secondary_values_are_rounded _ _ _ _ _ Hrec Ho).
  - vm_compute in Hrec. discriminate.
Defined.

(** ** Passes of the grid loop, whatever the number of objectives *)

(** What a grid loop that ran to its end has kept: one recorded tuple and
    one solved line per solve, the solved indices in the order of the
    enumeration, tuples of [1 + (p - 1)] components. *)
Lemma grid_loop_records
    (opt_solve : Model -> Result (TerminationCondition * VarValues))
    (p : nat) (g : Z) (early_exit bypass_coefficient : bool)
    (e : list (list float)) (rng : list Z) (m : Model) (ex : Explorer) :
  discover_pareto opt_solve p g early_exit bypass_coefficient e rng m = Ok ex ->
  length (pareto_sols_temp ex) = models_solved ex /\
  length (solved_indices (log ex)) = models_solved ex /\
  solved_indices (log ex) `sublist_of` grid_indices p g /\
  Forall (fun cand : Candidate => length cand = S (p - 1)) (pareto_sols_temp ex).
Proof.
  intros Hrun. unfold discover_pareto in Hrun.
  apply (for_each_ok_inv
           (fun pre s =>
              length (pareto_sols_temp s) = models_solved s /\
              length (solved_indices (log s)) = models_solved s /\
              solved_indices (log s) `sublist_of` pre /\
              Forall (fun cand : Candidate => length cand = S (p - 1)) (pareto_sols_temp s))
           _ _ _ _ Hrun).
  - simpl. repeat split; constructor.
  - intros pre c post s0 s1 _ (Hl & Hn & Hsub & Hall) Hstep.
    apply explore_step_trace in Hstep
      as [(E1 & E2 & E3 & _)|(m1 & tc & v & cand & _ & _ & _ & _ & Hrec & E1 & E2 & E3)].
    + rewrite E1, E2, E3. split; [exact Hl|]. split; [exact Hn|].
      split; [now apply sublist_inserts_r|exact Hall].
    + rewrite E1, E2, E3, !List.length_app. simpl.
      split; [lia|]. split; [lia|]. split.
      * now apply sublist_app.
      * apply List.Forall_app. split; [exact Hall|].
        constructor; [|constructor]. exact (record_solution_length _ _ _ _ Hrec).
Qed.

(** X12: in a grid loop that runs to its end, with any flags and any number
    of objectives, every solve is followed by exactly one recorded tuple,
    whatever its termination condition: the number of recorded tuples and
    the number of solved lines of the log both equal the solve counter; the
    indices solved are visited in the order of the enumeration, each at most
    once, so the counter is at most [g^(p-1)]; and every recorded tuple has
    one component for objective 1 and one for each secondary objective. *)
Theorem every_solve_records_one_candidate
    (opt_solve : Model -> Result (TerminationCondition * VarValues))
    (p : nat) (g : Z) (early_exit bypass_coefficient : bool)
    (e : list (list float)) (rng : list Z) (m : Model) (ex : Explorer) :
  discover_pareto opt_solve p g early_exit bypass_coefficient e rng m = Ok ex ->
  length (pareto_sols_temp ex) = models_solved ex /\
  length (solved_indices (log ex)) = models_solved ex /\
  solved_indices (log ex) `sublist_of` grid_indices p g /\
  (models_solved ex <= Z.to_nat g ^ (p - 1))%nat /\
  Forall (fun cand : Candidate => length cand = S (p - 1)) (pareto_sols_temp ex).
Proof.
  intros Hrun.
  destruct (grid_loop_records _ _ _ _ _ _ _ _ _ Hrun) as (H1 & H2 & H3 & H4).
  split; [exact H1|]. split; [exact H2|]. split; [exact H3|]. split; [|exact H4].
  rewrite <- grid_indices_length, <- H2. now apply sublist_length.
Qed.

Lemma every_solve_records_witness :
  exists ex,
    discover_pareto (exhaustive_solve three_points) 3 2 true true
                    unit_grid [1; 1] (augmented_model 3 [1; 1]) = Ok ex /\
    length (pareto_sols_temp ex) = models_solved ex /\
    length (solved_indices (log ex)) = models_solved ex /\
    solved_indices (log ex) `sublist_of` grid_indices 3 2 /\
    (models_solved ex <= Z.to_nat 2 ^ (3 - 1))%nat /\
    Forall (fun cand : Candidate => length cand = S (3 - 1)) (pareto_sols_temp ex).
Proof.
  destruct (discover_pareto (exhaustive_solve three_points) 3 2 true true
                            unit_grid [1; 1] (augmented_model 3 [1; 1])) as [ex|err] eqn:Hrun.
  - exists ex. split; [reflexivity|].
    exact (every_solve_records_one_candidate _ _ _ _ _ _ _ _ _ Hrun).
  - vm_compute in Hrun. discriminate.
Defined.

(** X13: a pass that solves records the values the model holds after the
    solve, whatever the termination condition: the tuple appended is the one
    that the recording step gives on the model the pass leaves.  When the
    solver has loaded nothing, as after a solve without an optimum, that
    tuple is the one that the recording step gives on the model as it was
    before the pass: the values of an earlier solve are recorded once
    more. *)
Theorem solve_without_new_values_repeats_the_record
    (opt_solve : Model -> Result (TerminationCondition * VarValues))
    (p : nat) (g : Z) (early_exit bypass_coefficient : bool)
    (e : list (list float)) (rng : list Z) (s s' : Explorer) (c : list Z) :
  explore_step opt_solve p g early_exit bypass_coefficient e rng s c = Ok s' ->
  models_solved s' = S (models_solved s) ->
  exists cand,
    record_solution p rng (ex_model s') = Ok cand /\
    pareto_sols_temp s' = pareto_sols_temp s ++ [cand] /\
    (values (ex_model s') = values (ex_model s) ->
     record_solution p rng (ex_model s) = Ok cand).
Proof.
  intros Hstep Hn.
  apply explore_step_trace in Hstep
    as [(E1 & _)|(m1 & tc & v & cand & Heps & _ & Hm & _ & Hrec & _ & Hl & _)]; [lia|].
  exists cand. split; [exact Hrec|]. split; [exact Hl|].
  intros Hv. rewrite <- Hrec.
  apply set_epsilons_frame in Heps as ((_ & HOs & Hpen & _) & _).
  apply record_solution_ext.
  - rewrite Hm. simpl. now rewrite HOs.
  - rewrite Hm. simpl. now rewrite Hpen.
  - now rewrite Hv.
Qed.

Lemma solve_without_new_values_witness :
  exists s s',
    for_each (explore_step (exhaustive_solve corner_points) 3 2 false false unit_grid [1; 1])
             (initial_explorer (augmented_model 3 [1; 1])) [[0; 0]; [1; 0]; [0; 1]] = Ok s /\
    explore_step (exhaustive_solve corner_points) 3 2 false false unit_grid [1; 1] s [1; 1]
      = Ok s' /\
    models_solved s' = S (models_solved s) /\
    ex_result s' = Some infeasible /\
    values (ex_model s') = values (ex_model s) /\
    exists cand,
      record_solution 3 [1; 1] (ex_model s') = Ok cand /\
      pareto_sols_temp s' = pareto_sols_temp s ++ [cand] /\
      record_solution 3 [1; 1] (ex_model s) = Ok cand.
Proof.
  destruct (for_each (explore_step (exhaustive_solve corner_points) 3 2 false false
                                   unit_grid [1; 1])
                     (initial_explorer (augmented_model 3 [1; 1])) [[0; 0]; [1; 0]; [0; 1]])
    as [s|err] eqn:Hs; [|vm_compute in Hs; discriminate].
  destruct (explore_step (exhaustive_solve corner_points) 3 2 false false unit_grid [1; 1]
                         s [1; 1]) as [s'|err] eqn:Hstep.
  - assert (Hfacts : models_solved s' = S (models_solved s) /\
                     ex_result s' = Some infeasible /\
                     values (ex_model s') = values (ex_model s)).
    { vm_compute in Hs. injection Hs as <-.
      vm_compute in Hstep. injection Hstep as <-. repeat split. }
    destruct Hfacts as (Hn & Hres & Hv).
    exists s, s'. split; [reflexivity|]. split; [exact Hstep|]. split; [exact Hn|].
    split; [exact Hres|]. split; [exact Hv|].
    destruct (solve_without_new_values_repeats_the_record _ _ _ _ _ _ _ _ _ _ Hstep Hn)
      as (cand & H1 & H2 & H3).
    exists cand. split; [exact H1|]. split; [exact H2|]. exact (H3 Hv).
  - vm_compute in Hs. injection Hs as <-. vm_compute in Hstep. discriminate.
Defined.

(** X14: a pass that solves hands the solver a model on which objective 1
    is active and every epsilon parameter [e[o + 1]] is the breakpoint
    [e[o - 1, c[o - 1]]] of the grid index; the parameters outside [2..p]
    are not written.  The solver has returned on that model, and the pass
    leaves the model with the values and the termination condition of that
    call. *)
Theorem pass_solves_at_the_breakpoints_of_its_index
    (opt_solve : Model -> Result (TerminationCondition * VarValues))
    (p : nat) (g : Z) (early_exit bypass_coefficient : bool)
    (e : list (list float)) (rng : list Z) (s s' : Explorer) (c : list Z) :
  explore_step opt_solve p g early_exit bypass_coefficient e rng s c = Ok s' ->
  models_solved s' = S (models_solved s) ->
  exists m_in tc v,
    opt_solve m_in = Ok (tc, v) /\
    ex_model s' = set_values m_in v /\
    ex_result s' = Some tc /\
    1%nat ∈ active m_in /\ values m_in = values (ex_model s) /\
    (forall o, (1 <= o < p)%nat -> grid_value e c o = Ok (e_param m_in (S o))) /\
    (forall k, ~ (2 <= k <= p)%nat -> e_param m_in k = e_param (ex_model s) k).
Proof.
  intros Hstep Hn.
  apply explore_step_trace in Hstep
    as [(E1 & _)|(m1 & tc & v & cand & Heps & Hsolve & Hm & Hres & _)]; [lia|].
  exists (activate_objfun m1 1), tc, v.
  destruct (set_epsilons_params p e c _ _ Heps) as (Hin & Hout).
  destruct (set_epsilons_frame p e c _ _ Heps) as (_ & Hv & _).
  split; [exact Hsolve|].
  split; [exact Hm|]. split; [exact Hres|]. split; [simpl; set_solver|].
  split; [exact Hv|]. split.
  - intros o Ho. apply Hin. unfold objfun_iter2. apply in_seq. lia.
  - intros k Hk. apply Hout. now rewrite secondary_index.
Qed.

Lemma pass_solves_at_the_breakpoints_witness :
  exists s',
    explore_step (exhaustive_solve three_points) 3 2 true true unit_grid [1; 1]
                 (initial_explorer (augmented_model 3 [1; 1])) [0; 0] = Ok s' /\
    models_solved s' = S (models_solved (initial_explorer (augmented_model 3 [1; 1]))) /\
    exists m_in tc v,
      exhaustive_solve three_points m_in = Ok (tc, v) /\
      ex_model s' = set_values m_in v /\
      ex_result s' = Some tc /\
      1%nat ∈ active m_in /\
      values m_in = values (ex_model (initial_explorer (augmented_model 3 [1; 1]))) /\
      (forall o, (1 <= o < 3)%nat -> grid_value unit_grid [0; 0] o = Ok (e_param m_in (S o))) /\
      (forall k, ~ (2 <= k <= 3)%nat ->
         e_param m_in k = e_param (ex_model (initial_explorer (augmented_model 3 [1; 1]))) k).
Proof.
  destruct (explore_step (exhaustive_solve three_points) 3 2 true true unit_grid [1; 1]
                         (initial_explorer (augmented_model 3 [1; 1])) [0; 0])
    as [s'|err] eqn:Hstep.
  - assert (Hn : models_solved s'
                 = S (models_solved (initial_explorer (augmented_model 3 [1; 1]))))
      by (vm_compute in Hstep; now injection Hstep as <-).
    exists s'. split; [reflexivity|]. split; [exact Hn|].
    exact (pass_solves_at_the_breakpoints_of_its_index _ _ _ _ _ _ _ _ _ _ Hstep Hn).
  - vm_compute in Hstep. discriminate.
Defined.

(** ** The early-exit branch *)

Lemma flag_infeasible_3 (g c0 c1 : Z) (fl : gmap (list Z) Z) :
  flag_infeasible g [c0; c1] fl =
    Ok (fold_left (fun acc x => <[[c0; x] := g - c0]> acc) (py_range c1 g) fl).
Proof.
  unfold flag_infeasible. simpl.
  generalize (py_range c1 g). intros l. revert fl.
  induction l as [|x l IH]; intros fl; simpl; [reflexivity|]. apply IH.
Qed.

(** X15: with three objectives and [early_exit] on, take a pass at a grid
    index [(c0, c1)] that carries no flag and is reached with no skip
    pending, whose solve returns without an optimum and whose candidate can
    be computed from the values the model then holds.  The pass flags
    [(c0, i)] for every [i] from [c1] on with the number [g - c0] of indices
    left in a row, the candidate is recorded all the same, and the
    [g - 1 - c0] indices that follow in the row of [c1] are passed over
    without a solve. *)
Theorem early_exit_skips_the_rest_of_the_row
    (opt_solve : Model -> Result (TerminationCondition * VarValues))
    (g : Z) (bypass_coefficient : bool) (e : list (list float)) (rng : list Z)
    (s : Explorer) (c0 c1 : Z) (m1 : Model) (tc : TerminationCondition) (v : VarValues)
    (cand : Candidate) :
  0 <= c0 < g -> 0 <= c1 < g ->
  bypass_jump s = 0 -> flag_get (flag s) [c0; c1] = 0 ->
  set_epsilons 3 e [c0; c1] (ex_model s) = Ok m1 ->
  opt_solve (activate_objfun m1 1) = Ok (tc, v) ->
  is_optimal tc = false ->
  record_solution 3 rng (set_values (activate_objfun m1 1) v) = Ok cand ->
  let step := explore_step opt_solve 3 g true bypass_coefficient e rng in
  exists s1 s2 pre post,
    step s [c0; c1] = Ok s1 /\
    models_solved s1 = S (models_solved s) /\
    pareto_sols_temp s1 = pareto_sols_temp s ++ [cand] /\
    (forall i, c1 <= i < g -> flag s1 !! [c0; i] = Some (g - c0)) /\
    grid_indices 3 g = pre ++ [c0; c1] :: following c0 c1 (g - 1 - c0) ++ post /\
    for_each step s1 (following c0 c1 (g - 1 - c0)) = Ok s2 /\
    models_solved s2 = models_solved s1 /\
    pareto_sols_temp s2 = pareto_sols_temp s1 /\
    bypass_jump s2 = 0.
Proof.
  intros Hc0 Hc1 Hj Hfl Heps Hsolve Htc Hrec step.
  set (k := g - 1 - c0).
  set (m3 := set_values (activate_objfun m1 1) v) in *.
  set (fl := fold_left (fun acc x => <[[c0; x] := g - c0]> acc) (py_range c1 g) (flag s)).
  assert (Hfli : forall i, c1 <= i < g -> fl !! [c0; i] = Some (g - c0)).
  { intros i Hi. apply flag_fold_lookup. right. apply py_range_In. lia. }
  assert (Hstep : step s [c0; c1] =
            Ok (mkExplorer m3 k (S (models_solved s)) fl (pareto_sols_temp s ++ [cand])
                           (Some tc)
                           ((log s ++ [LogInfeasible [c0; c1]])
                              ++ [LogSolved [c0; c1] cand k]))).
  { unfold step, explore_step, start_jump.
    rewrite Hfl, Hj. simpl. rewrite Heps. simpl.
    unfold solve_model. rewrite Hsolve. cbn [rbind]. fold m3. rewrite Htc. simpl.
    rewrite flag_infeasible_3. fold fl. cbn [rbind]. rewrite Hrec. cbn [rbind].
    unfold next_jump, flag_get. rewrite (Hfli c1) by lia. simpl.
    destruct (Z.eqb_spec (g - c0) 0); [lia|]. simpl.
    rewrite Zmin_ltb. replace (Z.min (g - c0 - 1) (g - c0 - 1)) with k by (unfold k; lia).
    reflexivity. }
  destruct (grid_indices_3_split g c0 c1 k) as (pre & post & Hgrid); try (unfold k; lia).
  destruct (explore_skip_run opt_solve 3 g true bypass_coefficient e rng (following c0 c1 k)
              (mkExplorer m3 k (S (models_solved s)) fl (pareto_sols_temp s ++ [cand])
                          (Some tc)
                          ((log s ++ [LogInfeasible [c0; c1]])
                             ++ [LogSolved [c0; c1] cand k])))
    as (s2 & Hrun & H0 & Hn & Hc & _).
  { simpl. symmetry. apply following_length. unfold k. lia. }
  eexists. exists s2, pre, post.
  split; [exact Hstep|]. split; [reflexivity|].
  split; [reflexivity|]. split; [exact Hfli|].
  split; [exact Hgrid|]. split; [exact Hrun|].
  split; [exact Hn|]. split; [exact Hc|exact H0].
Qed.

Lemma early_exit_skip_witness :
  exists s m1 v,
    for_each (explore_step (exhaustive_solve low_point) 3 2 true false unit_grid [1; 1])
             (initial_explorer (augmented_model 3 [1; 1])) [[0; 0]; [1; 0]] = Ok s /\
    set_epsilons 3 unit_grid [0; 1] (ex_model s) = Ok m1 /\
    exhaustive_solve low_point (activate_objfun m1 1) = Ok (infeasible, v) /\
    exists s1 s2 pre post,
      explore_step (exhaustive_solve low_point) 3 2 true false unit_grid [1; 1]
                   s [0; 1] = Ok s1 /\
      models_solved s1 = S (models_solved s) /\
      pareto_sols_temp s1 = pareto_sols_temp s ++ [[Some 100; Some 100; Some 0]] /\
      (forall i, 1 <= i < 2 -> flag s1 !! [0; i] = Some (2 - 0)) /\
      grid_indices 3 2 = pre ++ [0; 1] :: following 0 1 (2 - 1 - 0) ++ post /\
      for_each (explore_step (exhaustive_solve low_point) 3 2 true false unit_grid [1; 1])
               s1 (following 0 1 (2 - 1 - 0)) = Ok s2 /\
      models_solved s2 = models_solved s1 /\
      pareto_sols_temp s2 = pareto_sols_temp s1 /\
      bypass_jump s2 = 0.
Proof.
  destruct (for_each (explore_step (exhaustive_solve low_point) 3 2 true false
                                   unit_grid [1; 1])
                     (initial_explorer (augmented_model 3 [1; 1])) [[0; 0]; [1; 0]])
    as [s|err] eqn:Hs; [|vm_compute in Hs; discriminate].
  destruct (set_epsilons 3 unit_grid [0; 1] (ex_model s)) as [m1|err] eqn:Heps;
    [|vm_compute in Hs; injection Hs as <-; vm_compute in Heps; discriminate].
  destruct (exhaustive_solve low_point (activate_objfun m1 1)) as [[tc v]|err] eqn:Hsolve;
    [|vm_compute in Hs; injection Hs as <-; vm_compute in Heps; injection Heps as <-;
      vm_compute in Hsolve; discriminate].
  assert (Htc : tc = infeasible).
  { vm_compute in Hs. injection Hs as <-. vm_compute in Heps. injection Heps as <-.
    vm_compute in Hsolve. now injection Hsolve as <- _. }
  subst tc.
  assert (Hfacts : bypass_jump s = 0 /\ flag_get (flag s) [0; 1] = 0 /\
                   record_solution 3 [1; 1] (set_values (activate_objfun m1 1) v)
                   = Ok [Some 100; Some 100; Some 0]).
  { vm_compute in Hs. injection Hs as <-. vm_compute in Heps. injection Heps as <-.
    vm_compute in Hsolve. injection Hsolve as <-. repeat split. }
  destruct Hfacts as (Hj & Hfl & Hrec).
  exists s, m1, v. split; [reflexivity|]. split; [exact Heps|]. split; [exact Hsolve|].
  apply (early_exit_skips_the_rest_of_the_row
           (exhaustive_solve low_point) 2 false unit_grid [1; 1] s 0 1 m1 infeasible v
           [Some 100; Some 100; Some 0]).
  - lia.
  - lia.
  - exact Hj.
  - exact Hfl.
  - exact Heps.
  - exact Hsolve.
  - reflexivity.
  - exact Hrec.
Defined.

(** X16: while every solve that returns ends with an optimum, [early_exit]
    changes nothing: the run with [early_exit] alone is the run with both
    flags off, for any number of objectives. *)
Theorem early_exit_is_idle_while_solves_are_optimal
    (opt_solve : Model -> Result (TerminationCondition * VarValues))
    (p : nat) (g : Z) (e : list (list float)) (rng : list Z) (m : Model) :
  (forall m0 tc v, opt_solve m0 = Ok (tc, v) -> is_optimal tc = true) ->
  discover_pareto opt_solve p g true false e rng m =
  discover_pareto opt_solve p g false false e rng m.
Proof.
  intros Hopt. unfold discover_pareto. apply for_each_ext. intros s c.
  unfold explore_step.
  destruct (start_jump g c s) as [j|]; [|reflexivity]. simpl.
  destruct (0 <? j); [reflexivity|].
  destruct (set_epsilons p e c (ex_model s)) as [m1|]; [|reflexivity]. simpl.
  unfold solve_model. specialize (Hopt (activate_objfun m1 1)).
  destruct (opt_solve (activate_objfun m1 1)) as [[tc v]|err]; [|reflexivity].
  cbn [rbind]. rewrite (Hopt tc v eq_refl). reflexivity.
Qed.

Lemma early_exit_is_idle_witness :
  (forall m0 tc v,
     reported_as optimal (exhaustive_solve two_points) m0 = Ok (tc, v) ->
     is_optimal tc = true) /\
  discover_pareto (reported_as optimal (exhaustive_solve two_points)) 2 3 true false
                  [[Some 0; Some (1 # 2); Some 1]]%Q [1] (augmented_model 2 [1]) =
  discover_pareto (reported_as optimal (exhaustive_solve two_points)) 2 3 false false
                  [[Some 0; Some (1 # 2); Some 1]]%Q [1] (augmented_model 2 [1]).
Proof.
  assert (H : forall m0 tc v,
            reported_as optimal (exhaustive_solve two_points) m0 = Ok (tc, v) ->
            is_optimal tc = true).
  { intros m0 tc v. unfold reported_as.
    destruct (exhaustive_solve two_points m0) as [[tc' v']|err]; [|discriminate].
    now intros [= <- _]. }
  split; [exact H|].
  apply (early_exit_is_idle_while_solves_are_optimal
           (reported_as optimal (exhaustive_solve two_points)) 2 3
           [[Some 0; Some (1 # 2); Some 1]]%Q [1] (augmented_model 2 [1]) H).
Defined.

(** ** Deduplication and the array of unique solutions *)

Lemma pareto_row_copies (p : nat) (item : Candidate) :
  length item = p ->
  forall (n a : nat) (row : list (option Z)),
    length row = p -> (a + n <= p)%nat ->
    exists row',
      for_each (fun r o => let* v := index item o in Ok (<[o := v]> r)) row (seq a n)
        = Ok row' /\
      length row' = p /\
      (forall i, (a <= i < a + n)%nat -> row' !! i = item !! i) /\
      (forall i, ~ (a <= i < a + n)%nat -> row' !! i = row !! i).
Proof.
  intros Hitem. induction n as [|n IH]; intros a row Hrow Han; simpl.
  - exists row. split; [reflexivity|]. split; [exact Hrow|]. split; [intros i Hi; lia|auto].
  - destruct (index_lt item a) as (v & Hv & _); [lia|]. rewrite Hv. simpl.
    destruct (IH (S a) (<[a := v]> row)) as (row' & Hrun & Hlen & Hin & Hout).
    { now rewrite length_insert. }
    { lia. }
    exists row'. split; [exact Hrun|]. split; [exact Hlen|]. split.
    + intros i Hi. destruct (Nat.eq_dec i a) as [->|Hne].
      * rewrite Hout by lia. rewrite list_lookup_insert_eq by lia.
        rewrite index_lookup in Hv. destruct (item !! a); congruence.
      * apply Hin. lia.
    + intros i Hi. rewrite Hout by lia. apply list_lookup_insert_ne. lia.
Qed.

Lemma pareto_row_ok (p : nat) (row : list (option Z)) (item : Candidate) :
  length item = p -> length row = p -> pareto_row p row item = Ok item.
Proof.
  intros Hitem Hrow. unfold pareto_row.
  destruct (pareto_row_copies p item Hitem p 0 row Hrow) as (row' & -> & Hlen & Hin & _);
    [lia|].
  f_equal. apply list_eq. intros i.
  destruct (Nat.lt_ge_cases i p) as [Hi|Hi]; [apply Hin; lia|].
  rewrite !lookup_ge_None_2 by lia. reflexivity.
Qed.

Lemma pareto_sols_rows (p : nat) (l : list Candidate) :
  Forall (fun item : Candidate => length item = p) l ->
  forall (k : nat) (t : list (list (option Z))),
    (forall i, (k <= i < k + length l)%nat ->
       exists row, t !! i = Some row /\ length row = p) ->
    for_each (fun t ii =>
                let '(item_index, item) := ii in
                let* row := index t item_index in
                let* row' := pareto_row p row item in
                Ok (<[item_index := row']> t))
             t (enumerate_from k l)
    = Ok (take k t ++ l ++ drop (k + length l) t).
Proof.
  induction 1 as [|item l Hitem Hl IH]; intros k t Hrows; simpl in *.
  - rewrite Nat.add_0_r. now rewrite take_drop.
  - destruct (Hrows k) as (row & Hrow & Hlen); [lia|].
    rewrite index_lookup, Hrow. simpl.
    rewrite (pareto_row_ok p row item Hitem Hlen). simpl.
    rewrite IH.
    + assert (Hk : (k < length t)%nat) by (apply lookup_lt_is_Some; eauto).
      f_equal.
      rewrite (take_S_r _ _ item) by (now apply list_lookup_insert_eq).
      rewrite take_insert_ge by lia.
      rewrite drop_insert_lt by lia.
      rewrite <- app_assoc. simpl.
      replace (k + S (length l))%nat with (S (k + length l)) by lia. reflexivity.
    + intros i Hi. rewrite list_lookup_insert_ne by lia. apply Hrows. lia.
Qed.

(** X18: after a grid loop that ran to its end, with one objective or
    more, the rest of [find_unique_sols] does not raise, in whatever order
    the set lists its tuples: there are at most as many unique solutions as
    solves, and the rows of [pareto_sols] are the unique tuples, entry by
    entry, in the order of the list. *)
Theorem unique_solutions_fill_the_array
    (opt_solve : Model -> Result (TerminationCondition * VarValues))
    (p : nat) (g : Z) (early_exit bypass_coefficient : bool)
    (e : list (list float)) (rng : list Z) (m : Model) (ex : Explorer)
    (unique : list Candidate) :
  discover_pareto opt_solve p g early_exit bypass_coefficient e rng m = Ok ex ->
  (1 <= p)%nat ->
  List.NoDup unique ->
  (forall cand, In cand unique <-> cand ∈ find_unique_sols (pareto_sols_temp ex)) ->
  (num_unique_pareto_sols unique <= models_solved ex)%nat /\
  pareto_sols p unique = Ok unique.
Proof.
  intros Hrun Hp Hnd Hset.
  assert (Hin : forall cand, In cand unique -> In cand (pareto_sols_temp ex)).
  { intros cand Hc. apply Hset in Hc. now apply find_unique_sols_elem in Hc. }
  destruct (grid_loop_records _ _ _ _ _ _ _ _ _ Hrun) as (Hlen & _ & _ & Hall).
  split.
  - unfold num_unique_pareto_sols. rewrite <- Hlen.
    apply List.NoDup_incl_length; [exact Hnd|exact Hin].
  - unfold pareto_sols, num_unique_pareto_sols.
    rewrite (pareto_sols_rows p unique).
    + simpl. rewrite drop_ge by (rewrite repeat_length; lia).
      now rewrite app_nil_r.
    + apply List.Forall_forall. intros cand Hc.
      rewrite List.Forall_forall in Hall. rewrite (Hall cand (Hin cand Hc)). lia.
    + intros i Hi. exists (repeat (Some 0) p).
      split; [|apply repeat_length].
      rewrite list_lookup_nth_error. apply nth_error_repeat. lia.
Qed.

Lemma unique_solutions_witness :
  exists ex,
    discover_pareto (exhaustive_solve three_points) 3 2 false false
                    unit_grid [1; 1] (augmented_model 3 [1; 1]) = Ok ex /\
    (1 <= 3)%nat /\
    List.NoDup (elements (find_unique_sols (pareto_sols_temp ex))) /\
    (forall cand, In cand (elements (find_unique_sols (pareto_sols_temp ex))) <->
                  cand ∈ find_unique_sols (pareto_sols_temp ex)) /\
    (num_unique_pareto_sols (elements (find_unique_sols (pareto_sols_temp ex)))
       <= models_solved ex)%nat /\
    pareto_sols 3 (elements (find_unique_sols (pareto_sols_temp ex)))
      = Ok (elements (find_unique_sols (pareto_sols_temp ex))).
Proof.
  destruct (discover_pareto (exhaustive_solve three_points) 3 2 false false
                            unit_grid [1; 1] (augmented_model 3 [1; 1])) as [ex|err] eqn:Hrun.
  - assert (Hp : (1 <= 3)%nat) by lia.
    assert (Hnd : List.NoDup (elements (find_unique_sols (pareto_sols_temp ex))))
      by (apply NoDup_ListNoDup, NoDup_elements).
    assert (Hset : forall cand,
              In cand (elements (find_unique_sols (pareto_sols_temp ex))) <->
              cand ∈ find_unique_sols (pareto_sols_temp ex)).
    { intros cand. rewrite <- list_elem_of_In. apply elem_of_elements. }
    exists ex. split; [reflexivity|]. split; [exact Hp|]. split; [exact Hnd|].
    split; [exact Hset|].
    exact (unique_solutions_fill_the_array _ _ _ _ _ _ _ _ _ _ Hrun Hp Hnd Hset).
  - vm_compute in Hrun. discriminate.
Defined.

(** ** The constructor as a whole *)

Lemma nadir_check (p : nat) (nadir : option (list Q)) :
  (1 <= p)%nat -> nadir_ok p nadir ->
  match nadir with
  | Some nd => negb (Z.of_nat (length nd) =? Z.of_nat p - 1)
  | None => false
  end = false.
Proof.
  intros Hp Hnadir. destruct nadir as [nd|]; [|reflexivity]. simpl in Hnadir.
  destruct (Z.eqb_spec (Z.of_nat (length nd)) (Z.of_nat p - 1)); [reflexivity|lia].
Qed.

Lemma grid_indices_empty (p : nat) : (2 <= p)%nat -> grid_indices p 0 = [].
Proof.
  intros Hp. apply length_zero_iff_nil. rewrite grid_indices_length. simpl.
  apply Nat.pow_0_l. lia.
Qed.

(** X20: with no grid point at all ([grid_points = 0]), two objectives or
    more and a nadir list of the right length or none, when the payoff stage
    returns a fully written table whose ranges fit the integer array, the
    constructor completes for every setting of the flags: the grid has no
    column, the grid loop makes no solve, and there is no unique
    solution. *)
Theorem empty_grid_gives_no_solution
    (opt_solve : Model -> Result (TerminationCondition * VarValues))
    (base : Model) (nadir : option (list Q)) (early_exit bypass_coefficient : bool)
    (pf : Payoff) :
  (2 <= num_obj base)%nat -> nadir_ok (num_obj base) nadir ->
  create_payoff_table opt_solve base = Ok pf ->
  finite_table (num_obj base) (payoff_table pf) ->
  ranges_fit (num_obj base) nadir (payoff_table pf) ->
  exists x,
    MOOP_init opt_solve base 0 nadir early_exit bypass_coefficient = Ok x /\
    moop_payoff x = pf /\
    Forall (fun row : list float => row = []) (e_grid (moop_grid x)) /\
    models_solved (moop_explorer x) = 0%nat /\
    unique_pareto_sols x = ∅.
Proof.
  intros Hp Hnadir Hpf Hfin Hfit. unfold MOOP_init.
  set (p := num_obj base) in *.
  rewrite (nadir_check p nadir) by (assumption || lia).
  rewrite Hpf. cbn [rbind].
  destruct (find_objfun_range_fit p 0 nadir (payoff_table pf)) as (rg & Hrg);
    try assumption; try lia.
  rewrite Hrg. cbn [rbind].
  destruct (find_objfun_range_rows p 0 nadir _ rg Hrg) as (_ & Hlr & _).
  destruct (convert_opt_prob_spec p (obj_range rg) (pf_model pf) Hlr) as (m' & Hm' & _).
  rewrite Hm'. cbn [rbind].
  destruct (stages_give_explorer_inputs p 0 nadir _ _ _ rg Hrg Hm') as ((_ & Hrows) & _).
  unfold discover_pareto. rewrite grid_indices_empty by exact Hp.
  cbn [for_each rbind].
  eexists. split; [reflexivity|]. simpl. split; [reflexivity|].
  split; [|split; reflexivity].
  eapply List.Forall_impl; [|exact Hrows].
  intros row Hrow. simpl in Hrow. now apply length_zero_iff_nil.
Qed.

Lemma empty_grid_witness :
  (2 <= num_obj (blank_model 2))%nat /\ nadir_ok (num_obj (blank_model 2)) None /\
  exists pf x,
    create_payoff_table (exhaustive_solve two_points) (blank_model 2) = Ok pf /\
    finite_table (num_obj (blank_model 2)) (payoff_table pf) /\
    ranges_fit (num_obj (blank_model 2)) None (payoff_table pf) /\
    MOOP_init (exhaustive_solve two_points) (blank_model 2) 0 None true true = Ok x /\
    moop_payoff x = pf /\
    Forall (fun row : list float => row = []) (e_grid (moop_grid x)) /\
    models_solved (moop_explorer x) = 0%nat /\
    unique_pareto_sols x = ∅.
Proof.
  assert (H2 : (2 <= num_obj (blank_model 2))%nat) by (simpl; lia).
  split; [exact H2|]. split; [exact I|].
  destruct (create_payoff_table (exhaustive_solve two_points) (blank_model 2))
    as [pf|err] eqn:Hpf; [|vm_compute in Hpf; discriminate].
  assert (Hfin : finite_table (num_obj (blank_model 2)) (payoff_table pf)).
  { vm_compute in Hpf. injection Hpf as <-.
    split; [reflexivity|]. repeat constructor; discriminate. }
  assert (Hfit : ranges_fit (num_obj (blank_model 2)) None (payoff_table pf)).
  { vm_compute in Hpf. injection Hpf as <-.
    eapply two_by_two_ranges_fit; [reflexivity|reflexivity|reflexivity|].
    vm_compute. split; discriminate. }
  destruct (empty_grid_gives_no_solution (exhaustive_solve two_points) (blank_model 2) None
              true true pf H2 I Hpf Hfin Hfit) as (x & Hx).
  exists pf, x. split; [reflexivity|]. split; [exact Hfin|]. split; [exact Hfit|].
  exact Hx.
Defined.

(** ** Sizes that numpy refuses *)

(** X21: a negative grid size is not checked on entry: the payoff stage
    runs first, with all its solves; when it raises, its exception is the
    constructor's, and when it returns, the range stage raises [ValueError]
    (an array of negative dimension), whatever the flags. *)
Theorem negative_grid_size_raises_after_the_payoff_stage
    (opt_solve : Model -> Result (TerminationCondition * VarValues))
    (base : Model) (g : Z) (early_exit bypass_coefficient : bool) :
  g < 0 ->
  MOOP_init opt_solve base g None early_exit bypass_coefficient =
    match create_payoff_table opt_solve base with
    | Ok _ => Raise ValueError
    | Raise err => Raise err
    end.
Proof.
  intros Hg. unfold MOOP_init.
  destruct (create_payoff_table opt_solve base) as [pf|err]; [|reflexivity].
  cbn [rbind]. unfold find_objfun_range.
  destruct (Z.ltb_spec g 0); [|lia]. now rewrite orb_true_r.
Qed.

Lemma negative_grid_size_witness :
  -1 < 0 /\
  (exists pf, create_payoff_table (exhaustive_solve two_points) (blank_model 2) = Ok pf) /\
  MOOP_init (exhaustive_solve two_points) (blank_model 2) (-1) None true true
    = Raise ValueError.
Proof.
  assert (H : -1 < 0) by lia.
  split; [exact H|].
  pose proof (negative_grid_size_raises_after_the_payoff_stage
                (exhaustive_solve two_points) (blank_model 2) (-1) true true H) as Hinit.
  destruct (create_payoff_table (exhaustive_solve two_points) (blank_model 2))
    as [pf|err] eqn:Hpf; [|vm_compute in Hpf; discriminate].
  split; [eauto|exact Hinit].
Defined.

